(** * DRAMMIMO: delayed-rejection adaptive Metropolis for several data sets

    A shallow embedding of [DRAMMIMO.py] (functions [getDRAMMIMOChains],
    [getDRAMMIMODensities], [getDRAMMIMOIntervals]) and the properties of
    its sampling loop, its bandwidth rule and its index selection.

    Conventions of the embedding.
    - A numpy/Python float is a [num]: an exact rational, or one of the three
      special values [+inf], [-inf], [nan].  Rounding is not modelled; the
      special values follow IEEE-754 as numpy applies it (no exception on a
      division by zero, comparisons with [nan] are false).  Every operation
      returns its rational result in lowest terms, so that two computations
      of the same value give the same [num].
    - A column vector (a [p x 1] numpy array) is a [list num]; a matrix is a
      list of rows.
    - The numerical library (matrix inverse, Cholesky factor, exp, sqrt,
      power, the random generators) and the functions the caller supplies are
      parameters of the development.
    - The random generator state and the files written with
      [np.savez_compressed] form the [World] that the code threads through
      its calls; an exception leaves the world as it was when raised. *)

From Stdlib Require Import ZArith QArith Qround Lia Lqa List Bool String Sorted.
From stdpp Require Import base list.
Import ListNotations.

Set Default Proof Using "Type".
Local Open Scope Z_scope.

(** ** Numbers *)

Module Num.

Inductive num : Type :=
| Fin (q : Q)
| PInf
| NInf
| NaN.

(** A rational in lowest terms. *)
Definition fin (q : Q) : num := Fin (Qred q).

Definition zero : num := Fin 0.
Definition one : num := Fin 1.
Definition inf : num := PInf.

(** An integer or a decimal literal used as a float. *)
Definition ofZ (z : Z) : num := Fin (inject_Z z).
Definition lit (q : Q) : num := fin q.

Definition Qltb (a b : Q) : bool := negb (Qle_bool b a).

Definition isnan (x : num) : bool :=
  match x with NaN => true | _ => false end.

Definition neg (x : num) : num :=
  match x with
  | Fin q => fin (- q)
  | PInf => NInf
  | NInf => PInf
  | NaN => NaN
  end.

Definition add (x y : num) : num :=
  match x, y with
  | NaN, _ | _, NaN => NaN
  | Fin a, Fin b => fin (a + b)
  | PInf, NInf | NInf, PInf => NaN
  | PInf, _ | _, PInf => PInf
  | NInf, _ | _, NInf => NInf
  end.

Definition sub (x y : num) : num := add x (neg y).

(** The sign of a number that is not [nan]: [Lt], [Eq] (zero) or [Gt]. *)
Definition sgn (x : num) : comparison :=
  match x with
  | Fin q => (q ?= 0)%Q
  | PInf => Gt
  | NInf => Lt
  | NaN => Eq
  end.

Definition signed_inf (c : comparison) : num :=
  match c with Gt => PInf | Lt => NInf | Eq => NaN end.

Definition mul_sign (c d : comparison) : comparison :=
  match c, d with
  | Eq, _ | _, Eq => Eq
  | Gt, Gt | Lt, Lt => Gt
  | _, _ => Lt
  end.

Definition mul (x y : num) : num :=
  match x, y with
  | NaN, _ | _, NaN => NaN
  | Fin a, Fin b => fin (a * b)
  | _, _ => signed_inf (mul_sign (sgn x) (sgn y))
  end.

(** numpy division: a zero divisor gives an infinity or [nan], never an
    exception. *)
Definition div (x y : num) : num :=
  match x, y with
  | NaN, _ | _, NaN => NaN
  | Fin a, Fin b =>
      if Qeq_bool b 0 then signed_inf (a ?= 0)%Q else fin (a / b)
  | Fin _, _ => zero
  | _, Fin b => signed_inf (mul_sign (sgn x) (if Qeq_bool b 0 then Gt else (b ?= 0)%Q))
  | _, _ => NaN
  end.

Definition ltb (x y : num) : bool :=
  match x, y with
  | NaN, _ | _, NaN => false
  | Fin a, Fin b => Qltb a b
  | NInf, NInf | PInf, _ | _, NInf => false
  | _, _ => true
  end.

Definition leb (x y : num) : bool :=
  match x, y with
  | NaN, _ | _, NaN => false
  | Fin a, Fin b => Qle_bool a b
  | NInf, _ | _, PInf => true
  | _, _ => false
  end.

Definition eqb (x y : num) : bool :=
  match x, y with
  | Fin a, Fin b => Qeq_bool a b
  | PInf, PInf | NInf, NInf => true
  | _, _ => false
  end.

Definition gtb (x y : num) : bool := ltb y x.
Definition neqb (x y : num) : bool := negb (eqb x y).

(** A numpy boolean used in arithmetic: [True] is 1 and [False] is 0. *)
Definition ofbool (b : bool) : num := if b then one else zero.

(** Python's builtin [min(a, b)]: the first argument unless the second is
    strictly smaller. *)
Definition pymin (a b : num) : num := if ltb b a then b else a.

(** [np.min([a, b])]: a [nan] wins. *)
Definition np_min2 (a b : num) : num :=
  if isnan a || isnan b then NaN else if ltb b a then b else a.

(** [np.floor(x).astype(int)]; a value that is not finite converts to the
    smallest 64-bit integer. *)
Definition floor_int (x : num) : Z :=
  match x with
  | Fin q => Qfloor q
  | _ => - 2 ^ 63
  end.

(** A draw of [np.random.rand]: a float of the half-open interval [0, 1). *)
Definition unit_interval (u : num) : Prop :=
  leb zero u = true /\ ltb u one = true.

End Num.
Export Num.

Declare Scope num_scope.
Delimit Scope num_scope with num.
Bind Scope num_scope with num.
Infix "+" := add : num_scope.
Infix "-" := sub : num_scope.
Infix "*" := mul : num_scope.
Infix "/" := div : num_scope.
Infix "<?" := ltb : num_scope.
Infix "<=?" := leb : num_scope.
Infix ">?" := gtb : num_scope.
Infix "=?" := eqb : num_scope.
Notation "- x" := (neg x) : num_scope.

(** ** Vectors and matrices *)

Abbreviation vec := (list num).
Abbreviation mat := (list (list num)).

Section LinearAlgebra.
Local Open Scope num_scope.

(** [np.sum] of a one-dimensional array. *)
Definition vsum (v : vec) : num := fold_left add v zero.

Definition vadd (u v : vec) : vec := zip_with add u v.
Definition vsub (u v : vec) : vec := zip_with sub u v.
Definition vscale (c : num) (v : vec) : vec := map (mul c) v.
Definition vdivs (v : vec) (c : num) : vec := map (fun x => x / c) v.

Definition madd (a b : mat) : mat := zip_with vadd a b.
Definition msub (a b : mat) : mat := zip_with vsub a b.
Definition mscale (c : num) (a : mat) : mat := map (vscale c) a.
Definition mmuls (a : mat) (c : num) : mat := map (map (fun x => x * c)) a.
Definition mdivs (a : mat) (c : num) : mat := map (fun r => vdivs r c) a.

(** [c / a] with a scalar [c] and an array [a]: element by element. *)
Definition sdivm (c : num) (a : mat) : mat := map (map (div c)) a.

Definition dotp (u v : vec) : num := vsum (zip_with mul u v).

Fixpoint transpose (m : mat) : mat :=
  match m with
  | [] => []
  | r :: rs =>
      match rs with
      | [] => map (fun x => [x]) r
      | _ => zip_with cons r (transpose rs)
      end
  end.

(** [np.dot(a, v)] for a matrix and a column. *)
Definition matvec (a : mat) (v : vec) : vec := map (fun r => dotp r v) a.

(** [np.dot(a, b)] for two matrices. *)
Definition matmul (a b : mat) : mat :=
  map (fun r => map (dotp r) (transpose b)) a.

(** [np.dot(u, v.T)] for two columns: the outer product. *)
Definition outer (u v : vec) : mat := map (fun a => map (mul a) v) u.

(** [np.dot(e.T, e)] for a matrix [e] kept as the list of its columns. *)
Definition gram (cols : list vec) : mat :=
  map (fun ci => map (dotp ci) cols) cols.

Definition diagonal (m : mat) : vec := imap (fun i r => nth i r zero) m.
Definition trace (m : mat) : num := vsum (diagonal m).

(** [np.diag(v)] *)
Definition diag (v : vec) : mat :=
  imap (fun i x => <[i := x]> (replicate (length v) zero)) v.

Definition zeros (r c : nat) : mat := replicate r (replicate c zero).

(** [d.T . a . d] for a column [d], the entry [[0][0]] of the product. *)
Definition quadform (d : vec) (a : mat) : num :=
  dotp (map (dotp d) (transpose a)) d.

(** [np.mean(rows, 0)]: the mean of every column. *)
Definition mean (v : vec) : num := vsum v / ofZ (Z.of_nat (length v)).
Definition col_means (rows : list vec) : vec := map mean (transpose rows).

(** [np.cov(rows.T)]: the variables are the columns of [rows]; every
    variable is centred, the products are summed and the sums scaled by
    [1 / (number of rows - 1)] (by [1 / 0.0] when that is not positive). *)
Definition np_cov (rows : list vec) : mat :=
  let fact := (Z.of_nat (length rows) - 1)%Z in
  let fact := if (fact <=? 0)%Z then zero else ofZ fact in
  let centred := map (fun x => map (fun a => a - mean x) x) (transpose rows) in
  mmuls (gram centred) (one / fact).

(** [np.std(v)]: the root of the mean squared deviation from the mean
    (numpy's default, normalised by the number of values). *)
Definition np_std (np_sqrt : num -> num) (v : vec) : num :=
  np_sqrt (mean (map (fun a => (a - mean v) * (a - mean v)) v)).

Definition anyb (l : list bool) : bool := existsb id l.

End LinearAlgebra.

(** ** Exceptions, the world and the monad of the code *)

Inductive exn : Type :=
| ValueError (msg : string)
| IndexError
| AttributeError
| TypeError
| LinAlgError.

(** The dictionary [prior] that [getDRAMMIMOChains] returns. *)
Record Prior : Type := { psi_s : mat; nu_s : num }.

(** The four values [getDRAMMIMOChains] returns and saves. *)
Record Results : Type := {
  res_prior : Prior;
  res_chain_q : list vec;
  res_last_cov_q : mat;
  res_chain_cov_err : list mat }.

(** A file written by [np.savez_compressed]: ['/chains' + str(k)] or
    ['/chains'], ['/densities'], ['/intervals']. *)
Inductive SavedFile : Type :=
| ChainsFile (suffix : option Z) (r : Results)
| DensitiesFile (qVals qProbs : mat)
| IntervalsFile (credLims predLims : list mat).

Section World.

Variable RNG : Type.

Record World : Type := { rng : RNG; files : list SavedFile }.

Definition Run (A : Type) : Type := World -> (exn + A) * World.

Definition ret {A} (a : A) : Run A := fun w => (inr a, w).

Definition raise {A} (e : exn) : Run A := fun w => (inl e, w).

Definition bind {A B} (m : Run A) (k : A -> Run B) : Run B :=
  fun w =>
    match m w with
    | (inl e, w') => (inl e, w')
    | (inr a, w') => k a w'
    end.

(** One call of a random generator of the library. *)
Definition draw {A} (f : RNG -> A * RNG) : Run A :=
  fun w => (inr (fst (f (rng w))), {| rng := snd (f (rng w)); files := files w |}).

(** A library call that returns or raises. *)
Definition call {A} (r : exn + A) : Run A :=
  match r with inl e => raise e | inr a => ret a end.

Definition savez (f : SavedFile) : Run unit :=
  fun w => (inr tt, {| rng := rng w; files := files w ++ [f] |}).

Fixpoint mapM {A B} (f : A -> Run B) (l : list A) : Run (list B) :=
  match l with
  | [] => ret []
  | a :: l' => bind (f a) (fun b => bind (mapM f l') (fun bs => ret (b :: bs)))
  end.

(** [for k in ks: s = body(k, s)] *)
Fixpoint forM {S} (ks : list Z) (body : Z -> S -> Run S) (s : S) : Run S :=
  match ks with
  | [] => ret s
  | k :: ks' => bind (body k s) (forM ks' body)
  end.

End World.

Arguments rng {RNG} _.
Arguments files {RNG} _.
Arguments ret {RNG A} _ _.
Arguments raise {RNG A} _ _.
Arguments bind {RNG A B} _ _ _.
Arguments draw {RNG A} _ _.
Arguments call {RNG A} _.
Arguments savez {RNG} _ _.
Arguments mapM {RNG A B} _ _.
Arguments forM {RNG S} _ _ _.

(** The numerical library the code calls: numpy, [scipy.linalg] (as [la])
    and [scipy.stats] (as [st]).  A call that can raise returns the
    exception or the value; a random generator takes the generator state and
    returns the new one. *)
Class Library (RNG : Type) : Type := {
  np_exp : num -> num;
  np_sqrt : num -> num;
  np_power : num -> num -> num;
  np_pi : num;
  np_interp : vec -> vec -> vec -> vec;
  la_inv : mat -> exn + mat;
  la_cholesky : mat -> exn + mat;
  (* np.random.randn(d), np.random.rand(), np.random.rand(d) *)
  randn : nat -> RNG -> vec * RNG;
  rand : RNG -> num * RNG;
  rand_n : nat -> RNG -> vec * RNG;
  (* st.invwishart.rvs(df, scale), np.random.multivariate_normal(mean, cov) *)
  invwishart_rvs : num -> mat -> RNG -> (exn + mat) * RNG;
  multivariate_normal : vec -> mat -> RNG -> (exn + vec) * RNG }.

Notation "x <- m ;; k" := (bind m (fun x => k))
  (at level 100, m at next level, right associativity).
Notation "m ;;; k" := (bind m (fun _ => k))
  (at level 100, right associativity).

(** ** The arguments of the three functions *)

Section DataModel.

(** The type of the entries of [modelParams['extra']]. *)
Variable Extra : Type.

Record Data : Type := { xdata : list vec; ydata : list vec }.

Record Model : Type := {
  fun_ : list (vec -> vec -> Extra -> vec);
  errFun : list (vec -> vec -> vec -> Extra -> vec) }.

Record ModelParams : Type := {
  values : vec;
  lowerLimits : vec;
  upperLimits : vec;
  extra : list Extra }.

(** In [previousResults] a field that is not given holds the placeholder
    [np.empty]: [None] here. *)
Record PriorIn : Type := { psi_s_in : option mat; nu_s_in : option num }.

Record PreviousResults : Type := {
  prior : PriorIn;
  prev_chain_q : option (list vec);
  prev_last_cov_q : option mat;
  prev_chain_cov_err : option (list mat) }.

Record DRAMParams : Type := {
  numDRAMIterationsDone : Z;
  numDRAMIterations : Z;
  previousResults : PreviousResults }.

End DataModel.

Arguments fun_ {Extra} _.
Arguments errFun {Extra} _.
Arguments values {Extra} _.
Arguments lowerLimits {Extra} _.
Arguments upperLimits {Extra} _.
Arguments extra {Extra} _.

(** ** The state of the sampling loop of [getDRAMMIMOChains] *)

(** The values fixed before the loop. *)
Record Setup : Type := {
  cfg_N : nat;        (* number of data sets *)
  cfg_n : nat;        (* number of points of every data set *)
  cfg_p : nat;        (* number of parameters *)
  cfg_Mo : Z;         (* iterations already done *)
  cfg_M : Z;          (* iterations in total *)
  cfg_prior : Prior;
  cfg_sp : num }.     (* adaptive scale *)

(** The variables the loop assigns.  The residual matrix [err] is kept as
    the list of its [N] columns. *)
Record RunState : Type := {
  q : vec;
  err : list vec;
  cov_q : mat;
  cov_q_inv : mat;
  cov_err : mat;
  cov_err_inv : mat;
  qBar : vec;
  qCov : mat;
  R1 : mat;
  R2 : mat;
  chain_q : list vec;
  last_cov_q : mat;
  chain_cov_err : list mat }.

(** What the first stage of an iteration computes. *)
Record Stage1 : Type := {
  q1 : vec;
  err1 : list vec;
  SS0 : num;
  SS1 : num;
  pi10 : num;
  alpha10 : num }.

(** What the second stage computes.  [alpha12] is [None] on the path that
    does not assign it.  [divisor] is the value of [1 - alpha10] when the
    quotient of the generalized acceptance probability is evaluated, and
    [None] on the paths that do not evaluate it. *)
Record Stage2 : Type := {
  q2 : vec;
  err2 : list vec;
  alpha12 : option num;
  alpha210 : num;
  divisor : option num }.

Inductive Decision : Type := AcceptStage1 | AcceptStage2 | RejectBoth.

(** The outcome of the delayed rejection of one iteration: the two stages,
    the decision, and the new best guess [q] with its residuals. *)
Record DROutcome : Type := {
  dr_stage1 : Stage1;
  dr_stage2 : option Stage2;
  dr_decision : Decision;
  dr_q : vec;
  dr_err : list vec }.

Definition ko : Z := 100.

(** ** getDRAMMIMOChains *)

Section Sampler.

Context {RNG : Type} {lib : Library RNG} {Extra : Type}.

(** The arguments of the call. *)
Variable data : Data.
Variable model : Model Extra.
Variable modelParams : ModelParams Extra.
Variable DRAMParams_ : DRAMParams.

Local Abbreviation Py := (Run RNG).

(** *** Validation of the arguments (lines 72-90) *)

Definition numDataSets : list nat :=
  [ length (xdata data); length (ydata data);
    length (fun_ model); length (errFun model);
    length (extra modelParams) ].

(** [np.any(a - a0)]: some entry of [a] differs from [a0]. *)
Definition any_differs (a : list nat) (a0 : nat) : bool :=
  anyb (map (fun c => negb (c =? a0)%nat) a).

(** The rows [[len(xdata[i]), len(ydata[i])]]. *)
Definition numDataPoints : list (list nat) :=
  zip_with (fun x y => [length x; length y]) (xdata data) (ydata data).

Definition check_sets : Py nat :=
  if any_differs numDataSets (hd 0%nat numDataSets)
  then raise (ValueError "Unequal numbers of sets in either data or model."%string)
  else ret (hd 0%nat numDataSets).

Definition check_points : Py nat :=
  match numDataPoints with
  | (n0 :: _) :: _ =>
      if any_differs (concat numDataPoints) n0
      then raise (ValueError "Unequal numbers of data points."%string)
      else ret n0
  | _ => raise IndexError
  end.

Definition check_done : Py Z :=
  let Mo := numDRAMIterationsDone DRAMParams_ in
  if negb (Mo =? 1) then
    match prev_chain_q (previousResults DRAMParams_) with
    | None => raise AttributeError
    | Some c =>
        if negb (Mo =? Z.of_nat (length c))
        then raise (ValueError "The number of given previous results does not match the number of iterations already done."%string)
        else ret Mo
    end
  else ret Mo.

(** The three checks in the order of the source, and the sizes they fix:
    the number [N] of data sets, the number [n] of points and the number
    [Mo] of iterations done. *)
Definition validate : Py (nat * nat * Z) :=
  N <- check_sets ;;
  n <- check_points ;;
  Mo <- check_done ;;
  ret (N, n, Mo).

(** *** Initialization (lines 94-191) *)

(** A field of [previousResults]; the placeholder is not an array, and the
    first operation on it raises [e]. *)
Definition from_prev {A} (e : exn) (o : option A) : Py A :=
  match o with Some a => ret a | None => raise e end.

(** What the inversion of the placeholder raises: [1.0/np.empty] a
    [TypeError], [la.inv(np.empty)] a [ValueError]. *)
Definition not_a_matrix (dim : nat) : exn :=
  if (dim =? 1)%nat then TypeError
  else ValueError "object arrays are not supported"%string.

(** [a[-1]] *)
Definition last_row {A} (a : list A) : Py A :=
  match last a with Some r => ret r | None => raise IndexError end.

(** [a[:, i] = v.T] for a column [v] and a target of [n] entries, with numpy's
    broadcasting of a single entry. *)
Definition assign_col (n : nat) (v : vec) : Py vec :=
  if (length v =? n)%nat then ret v
  else match v with
       | [x] => ret (replicate n x)
       | _ => raise (ValueError "could not broadcast input array"%string)
       end.

(** The residuals of every data set for the parameters [c], one column per
    data set. *)
Definition residuals (n : nat) (c : vec) : Py (list vec) :=
  mapM (fun '(f, x, y, e) => assign_col n (f c x y e))
       (zip (zip (zip (errFun model) (xdata data)) (ydata data))
            (extra modelParams)).

(** [1.0/a] for one dimension, [la.inv(a)] otherwise. *)
Definition invert (dim : nat) (a : mat) : Py mat :=
  if (dim =? 1)%nat then ret (sdivm one a) else call (la_inv a).

(** [np.diag(((q!=0)*(0.05*q)**2+(q==0)*1.0)[:,0])] *)
Definition fresh_cov_q (c : vec) : mat :=
  diag (map (fun x => (ofbool (neqb x zero) * ((lit 0.05 * x) * (lit 0.05 * x))
                       + ofbool (x =? zero) * one)%num) c).

(** The parameters of the inverse-Wishart distribution (lines 139-148). *)
Definition initPrior (N : nat) (pr : PriorIn) : Prior :=
  match psi_s_in pr with
  | None => {| psi_s := zeros N N; nu_s := zero |}
  | Some psi =>
      {| psi_s := psi;
         nu_s := match nu_s_in pr with None => one | Some nu => nu end |}
  end.

(** [a = np.zeros((M, ...))] followed by [a[0] = first] on a fresh run and
    by [a[:Mo] = previous] otherwise. *)
Definition init_chain {A} (M Mo : Z) (blank first : A) (prev : option (list A))
  : Py (list A) :=
  if M <? 0 then raise (ValueError "negative dimensions are not allowed"%string)
  else
    let a := replicate (Z.to_nat M) blank in
    if Mo =? 1 then
      if M =? 0 then raise IndexError else ret (<[0%nat := first]> a)
    else
      c <- from_prev TypeError prev ;;
      if Mo <=? M then ret (c ++ replicate (Z.to_nat (M - Mo)) blank)
      else raise (ValueError "could not broadcast input array"%string).

Definition initialise : Py (Setup * RunState) :=
  sizes <- validate ;;
  let N := fst (fst sizes) in
  let n := snd (fst sizes) in
  let Mo := snd sizes in
  let p := length (values modelParams) in
  let M := numDRAMIterations DRAMParams_ in
  let prev := previousResults DRAMParams_ in
  q <- (if Mo =? 1 then ret (values modelParams)
        else c <- from_prev TypeError (prev_chain_q prev) ;; last_row c) ;;
  err <- residuals n q ;;
  cov_q <- (if Mo =? 1 then ret (fresh_cov_q q)
            else from_prev (not_a_matrix p) (prev_last_cov_q prev)) ;;
  cov_q_inv <- invert p cov_q ;;
  cov_err <- (if Mo =? 1 then ret (gram err)
              else c <- from_prev TypeError (prev_chain_cov_err prev) ;;
                   last_row c) ;;
  cov_err_inv <- invert N cov_err ;;
  let prior := initPrior N (prior prev) in
  let sp := (lit 2.38 / np_sqrt (ofZ (Z.of_nat p)))%num in
  qBar <- (if Mo =? 1 then ret q
           else c <- from_prev TypeError (prev_chain_q prev) ;;
                ret (col_means c)) ;;
  let qCov := cov_q in
  randomWalk <- call (la_cholesky cov_q) ;;
  let R1 := mdivs randomWalk (lit 1.0) in
  let R2 := mdivs randomWalk (lit 5.0) in
  chain_q <- init_chain M Mo (replicate p zero) q (prev_chain_q prev) ;;
  let last_cov_q := cov_q in
  chain_cov_err <- init_chain M Mo (zeros N N) cov_err (prev_chain_cov_err prev) ;;
  ret ({| cfg_N := N; cfg_n := n; cfg_p := p; cfg_Mo := Mo; cfg_M := M;
          cfg_prior := prior; cfg_sp := sp |},
       {| q := q; err := err; cov_q := cov_q; cov_q_inv := cov_q_inv;
          cov_err := cov_err; cov_err_inv := cov_err_inv;
          qBar := qBar; qCov := qCov; R1 := R1; R2 := R2;
          chain_q := chain_q; last_cov_q := last_cov_q;
          chain_cov_err := chain_cov_err |}).

(** *** Delayed rejection (lines 210-309) *)

(** [any(c < lowerLimits) or any(c > upperLimits)] *)
Definition out_of_bounds (c : vec) : bool :=
  anyb (zip_with ltb c (lowerLimits modelParams))
  || anyb (zip_with gtb c (upperLimits modelParams)).

(** [np.trace(np.dot(np.dot(e.T, e), cov_err_inv))] *)
Definition sumsq (e : list vec) (cei : mat) : num :=
  trace (matmul (gram e) cei).

(** [np.tile(float('inf'), (n, N))], by columns. *)
Definition tile_inf (cfg : Setup) : list vec :=
  replicate (cfg_N cfg) (replicate (cfg_n cfg) inf).

(** [np.any(np.isnan(e))] *)
Definition any_isnan (e : list vec) : bool := anyb (map isnan (concat e)).

(** [c + np.dot(R.T, z)]: a random walk from [c]. *)
Definition propose (c : vec) (R : mat) (z : vec) : vec :=
  vadd c (matvec (transpose R) z).

(** The candidate of a stage is treated as rejected beforehand. *)
Definition stage1_rejected (cfg : Setup) (st : RunState) (c1 : vec) : Stage1 :=
  {| q1 := c1; err1 := tile_inf cfg;
     SS0 := sumsq (err st) (cov_err_inv st);
     SS1 := inf; pi10 := zero; alpha10 := pymin one zero |}.

Definition stage1 (cfg : Setup) (st : RunState) : Py Stage1 :=
  z <- draw (randn (length (q st))) ;;
  let c1 := propose (q st) (R1 st) z in
  if out_of_bounds c1 then ret (stage1_rejected cfg st c1)
  else
    e1 <- residuals (cfg_n cfg) c1 ;;
    if any_isnan e1 then ret (stage1_rejected cfg st c1)
    else
      let ss0 := sumsq (err st) (cov_err_inv st) in
      let ss1 := sumsq e1 (cov_err_inv st) in
      let p10 := np_exp (lit (-0.5) * (ss1 - ss0))%num in
      ret {| q1 := c1; err1 := e1; SS0 := ss0; SS1 := ss1;
             pi10 := p10; alpha10 := pymin one p10 |}.

Definition stage2_rejected (cfg : Setup) (c2 : vec) (a12 : option num)
  : Stage2 :=
  {| q2 := c2; err2 := tile_inf cfg; alpha12 := a12; alpha210 := zero;
     divisor := None |}.

Definition stage2 (cfg : Setup) (st : RunState) (s1 : Stage1) : Py Stage2 :=
  z <- draw (randn (length (q st))) ;;
  let c2 := propose (q st) (R2 st) z in
  if out_of_bounds c2 then ret (stage2_rejected cfg c2 None)
  else
    e2 <- residuals (cfg_n cfg) c2 ;;
    if any_isnan e2 then ret (stage2_rejected cfg c2 (Some zero))
    else
      let ss2 := sumsq e2 (cov_err_inv st) in
      let p20 := np_exp (lit (-0.5) * (ss2 - SS0 s1))%num in
      let J12 := np_exp (lit (-0.5)
                   * quadform (vsub (q1 s1) c2) (cov_q_inv st))%num in
      let J10 := np_exp (lit (-0.5)
                   * quadform (vsub (q1 s1) (q st)) (cov_q_inv st))%num in
      let p12 := np_exp (lit (-0.5) * (SS1 s1 - ss2))%num in
      let a12 := pymin one p12 in
      if (a12 =? one)%num
      then ret {| q2 := c2; err2 := e2; alpha12 := Some a12;
                  alpha210 := zero; divisor := None |}
      else ret {| q2 := c2; err2 := e2; alpha12 := Some a12;
                  alpha210 := pymin one
                    (p20 * J12 / J10 * (one - a12) / (one - alpha10 s1))%num;
                  divisor := Some (one - alpha10 s1)%num |}.

Definition delayedRejection (cfg : Setup) (st : RunState) : Py DROutcome :=
  s1 <- stage1 cfg st ;;
  u1 <- draw rand ;;
  if (alpha10 s1 >? u1)%num then
    ret {| dr_stage1 := s1; dr_stage2 := None; dr_decision := AcceptStage1;
           dr_q := q1 s1; dr_err := err1 s1 |}
  else
    s2 <- stage2 cfg st s1 ;;
    u2 <- draw rand ;;
    if (alpha210 s2 >? u2)%num then
      ret {| dr_stage1 := s1; dr_stage2 := Some s2; dr_decision := AcceptStage2;
             dr_q := q2 s2; dr_err := err2 s2 |}
    else
      ret {| dr_stage1 := s1; dr_stage2 := Some s2; dr_decision := RejectBoth;
             dr_q := q st; dr_err := err st |}.

(** *** Adaptive Metropolis (lines 311-353) *)

Definition results (cfg : Setup) (st : RunState) : Results :=
  {| res_prior := cfg_prior cfg; res_chain_q := chain_q st;
     res_last_cov_q := last_cov_q st; res_chain_cov_err := chain_cov_err st |}.

(** [(k*qBarOld+q)/(k+1)] *)
Definition qBar_update (k : Z) (qBarOld c : vec) : vec :=
  vdivs (vadd (vscale (ofZ k) qBarOld) c) (ofZ (k + 1)).

(** [(k-1.0)/k*qCovOld+1.0/k*(k*np.dot(qBarOld,qBarOld.T)
      -(k+1)*np.dot(qBar,qBar.T)+np.dot(q,q.T))] *)
Definition qCov_update (k : Z) (qCovOld : mat) (qBarOld qBarNew c : vec) : mat :=
  madd (mscale ((ofZ k - lit 1.0) / ofZ k)%num qCovOld)
       (mscale (lit 1.0 / ofZ k)%num
          (madd (msub (mscale (ofZ k) (outer qBarOld qBarOld))
                      (mscale (ofZ (k + 1)) (outer qBarNew qBarNew)))
                (outer c c))).

(** The update of [cov_q], [cov_q_inv], [qBar], [qCov], [R1], [R2] at the
    end of iteration [k]; [st] already holds the new [q] and chain row. *)
Definition adapt (cfg : Setup) (k : Z) (st : RunState) : Py RunState :=
  if k =? ko - 1 then
    ret {| q := q st; err := err st; cov_q := cov_q st;
           cov_q_inv := cov_q_inv st;
           cov_err := cov_err st; cov_err_inv := cov_err_inv st;
           qBar := col_means (take (Z.to_nat ko) (chain_q st));
           qCov := np_cov (take (Z.to_nat ko) (chain_q st));
           R1 := R1 st; R2 := R2 st;
           chain_q := chain_q st; last_cov_q := last_cov_q st;
           chain_cov_err := chain_cov_err st |}
  else if k >=? ko then
    let qBarOld := qBar st in
    let qBarNew := qBar_update k qBarOld (q st) in
    let qCovOld := qCov st in
    let qCovNew := qCov_update k qCovOld qBarOld qBarNew (q st) in
    if (k + cfg_Mo cfg) mod ko =? 0 then
      let cq := qCovNew in
      cqi <- invert (cfg_p cfg) cq ;;
      randomWalk <- call (la_cholesky cq) ;;
      ret {| q := q st; err := err st; cov_q := cq; cov_q_inv := cqi;
             cov_err := cov_err st; cov_err_inv := cov_err_inv st;
             qBar := qBarNew; qCov := qCovNew;
             R1 := mmuls randomWalk (cfg_sp cfg);
             R2 := mdivs (mmuls randomWalk (cfg_sp cfg)) (lit 5.0);
             chain_q := chain_q st; last_cov_q := last_cov_q st;
             chain_cov_err := chain_cov_err st |}
    else
      ret {| q := q st; err := err st; cov_q := cov_q st;
             cov_q_inv := cov_q_inv st;
             cov_err := cov_err st; cov_err_inv := cov_err_inv st;
             qBar := qBarNew; qCov := qCovNew;
             R1 := R1 st; R2 := R2 st;
             chain_q := chain_q st; last_cov_q := last_cov_q st;
             chain_cov_err := chain_cov_err st |}
  else ret st.

(** The state after the delayed rejection, the recording of the chain row
    and the redraw of [cov_err] (lines 314-323). *)
Definition record_and_redraw (cfg : Setup) (k : Z) (st : RunState)
    (dr : DROutcome) : Py RunState :=
  let chain_q' := <[Z.to_nat k := dr_q dr]> (chain_q st) in
  let last_cov_q' := cov_q st in
  let chain_cov_err' := <[Z.to_nat k := cov_err st]> (chain_cov_err st) in
  r <- draw (invwishart_rvs
               (nu_s (cfg_prior cfg) + ofZ (Z.of_nat (cfg_n cfg)))%num
               (madd (psi_s (cfg_prior cfg)) (gram (dr_err dr)))) ;;
  ce <- call r ;;
  cei <- invert (cfg_N cfg) ce ;;
  ret {| q := dr_q dr; err := dr_err dr; cov_q := cov_q st;
         cov_q_inv := cov_q_inv st;
         cov_err := ce; cov_err_inv := cei;
         qBar := qBar st; qCov := qCov st; R1 := R1 st; R2 := R2 st;
         chain_q := chain_q'; last_cov_q := last_cov_q';
         chain_cov_err := chain_cov_err' |}.

(** One pass of the loop [for k in np.arange(Mo,M,1)].  The display of the
    current guess every 200 iterations writes to the terminal only and is
    left out. *)
Definition iteration (cfg : Setup) (k : Z) (st : RunState) : Py RunState :=
  (if k mod 1000 =? 0
   then savez (ChainsFile (Some k) (results cfg st)) else ret tt) ;;;
  dr <- delayedRejection cfg st ;;
  st1 <- record_and_redraw cfg k st dr ;;
  adapt cfg k st1.

Definition getDRAMMIMOChains : Py Results :=
  init <- initialise ;;
  let cfg := fst init in
  st <- forM (seqZ (cfg_Mo cfg) (cfg_M cfg - cfg_Mo cfg)) (iteration cfg)
             (snd init) ;;
  savez (ChainsFile None (results cfg st)) ;;;
  ret (results cfg st).

End Sampler.

(** ** getDRAMMIMODensities *)

(** [np.sort] of a one-dimensional array: ascending, every [nan] last. *)
Definition sort_le (x y : num) : bool := isnan y || (x <=? y)%num.

Fixpoint sort_insert (x : num) (l : vec) : vec :=
  match l with
  | [] => [x]
  | y :: l' => if sort_le x y then x :: l else y :: sort_insert x l'
  end.

Definition np_sort (v : vec) : vec := foldr sort_insert [] v.

(** [a[i]] with Python's indices: a negative index counts from the end. *)
Definition py_index {A} (a : list A) (i : Z) : option A :=
  if i <? 0 then
    if - Z.of_nat (length a) <=? i
    then a !! Z.to_nat (Z.of_nat (length a) + i) else None
  else a !! Z.to_nat i.

Section Densities.

Context {RNG : Type} {lib : Library RNG}.

Local Abbreviation Py := (Run RNG).

Definition index (a : vec) (i : Z) : Py num :=
  match py_index a i with Some x => ret x | None => raise IndexError end.

Definition numNodes : Z := 100.

(** [np.linspace(start, stop, numNodes)] *)
Definition linspace (start stop : num) : vec :=
  let dv := ofZ (numNodes - 1) in
  let delta := (stop - start)%num in
  let step := (delta / dv)%num in
  let y := map ofZ (seqZ 0 numNodes) in
  let y := if (step =? zero)%num
           then map (fun a => (a / dv * delta)%num) y
           else map (fun a => (a * step)%num) y in
  let y := map (fun a => (a + start)%num) y in
  <[Z.to_nat (numNodes - 1) := stop]> y.

(** [np.amin(col)] and [np.amax(col)] of a column that is not empty. *)
Definition amin (v : vec) : num :=
  foldr (fun x acc => if isnan x || (x <? acc)%num then x else acc)
        (hd zero v) (tl v).
Definition amax (v : vec) : num :=
  foldr (fun x acc => if isnan x || (x >? acc)%num then x else acc)
        (hd zero v) (tl v).

(** The quartile [(1-f)*chainSorted[i-1]+f*chainSorted[i]] of lines 385-390
    for the fractional rank [r]. *)
Definition quartile (chainSorted : vec) (r : num) : Py num :=
  let i := floor_int r in
  let f := (r - ofZ i)%num in
  a <- index chainSorted (i - 1) ;;
  b <- index chainSorted i ;;
  ret ((one - f) * a + f * b)%num.

(** The kernel width [s] of one column (lines 384-396). *)
Definition bandwidth (numIterations : Z) (col : vec) : Py num :=
  let chainSorted := np_sort col in
  c1 <- quartile chainSorted (ofZ (numIterations + 1) / lit 4.0)%num ;;
  c3 <- quartile chainSorted
          (ofZ (numIterations + 1) / lit 4.0 * lit 3.0)%num ;;
  let iRange := (c3 - c1)%num in
  if (iRange <=? zero)%num then
    ret (lit 1.06 * np_std np_sqrt col
         * np_power (ofZ numIterations) (lit (-1.0) / lit 5.0))%num
  else
    ret (lit 1.06 * np_min2 (np_std np_sqrt col) (iRange / lit 1.34)
         * np_power (ofZ numIterations) (lit (-1.0) / lit 5.0))%num.

(** [1.0/numIterations*np.sum(np.exp(-0.5*np.power(err,2))
      /np.sqrt(2*np.pi))/s] *)
Definition density (numIterations : Z) (col : vec) (s x : num) : num :=
  let e := map (fun c => ((x - c) / s)%num) col in
  (lit 1.0 / ofZ numIterations
   * vsum (map (fun a => (np_exp (lit (-0.5) * np_power a (ofZ 2))
                          / np_sqrt (ofZ 2 * np_pi))%num) e)
   / s)%num.

(** One pass of the loop over the columns: the nodes and the densities. *)
Definition column_density (numIterations : Z) (col : vec) : Py (vec * vec) :=
  let qMin := amin col in
  let qMax := amax col in
  let qRange := (qMax - qMin)%num in
  let vals := linspace (qMin - lit 0.08 * qRange)%num
                       (qMax + lit 0.08 * qRange)%num in
  s <- bandwidth numIterations col ;;
  ret (vals, map (density numIterations col s) vals).

(** The results are returned by columns, as [qVals.T] and [qProbs.T]. *)
Definition getDRAMMIMODensities (qChain : list vec) : Py (mat * mat) :=
  match qChain with
  | [] => raise (ValueError
      "zero-size array to reduction operation minimum which has no identity"%string)
  | _ =>
      let numIterations := Z.of_nat (length qChain) in
      cols <- mapM (column_density numIterations) (transpose qChain) ;;
      let qVals := map fst cols in
      let qProbs := map snd cols in
      savez (DensitiesFile qVals qProbs) ;;;
      ret (qVals, qProbs)
  end.

End Densities.

(** ** getDRAMMIMOIntervals *)

(** What one pass of the loop over the selected indices computes: the index,
    the noise vector drawn for it, and for every data set the response [y]
    (the row of [ySave]) and the noisy response (the row of [oSave]). *)
Record Sample : Type := {
  s_index : Z;
  s_randError : vec;
  s_ySave : list vec;
  s_oSave : list vec }.

Section Intervals.

Context {RNG : Type} {lib : Library RNG} {Extra : Type}.

(** The arguments of the call. *)
Variable data : Data.
Variable model : Model Extra.
Variable modelParams : ModelParams Extra.

Local Abbreviation Py := (Run RNG).

Definition at_ {A} (a : list A) (i : Z) : Py A :=
  match py_index a i with Some x => ret x | None => raise IndexError end.

Definition lims : vec := [lit 0.025; lit 0.5; lit 0.975].

(** The indices of the chain rows to use (lines 429-433). *)
Definition select_indices (m nSample : Z) : Py (list Z) :=
  if nSample =? m then ret (seqZ 0 m)
  else if nSample <? 0
  then raise (ValueError "negative dimensions are not allowed"%string)
  else
    us <- draw (rand_n (Z.to_nat nSample)) ;;
    ret (map (fun u => floor_int (u * ofZ m)%num) us).

(** [row[:] = v.T] with a target of [n] entries. *)
Definition assign_row (n : nat) (v : vec) : Py vec :=
  if (length v =? n)%nat then ret v
  else match v with
       | [x] => ret (replicate n x)
       | _ => raise (ValueError "could not broadcast input array"%string)
       end.

(** The body of the loop over the data sets (lines 442-444). *)
Definition respond (n : nat) (qi randError : vec) (i : nat) (x : vec)
  : Py (vec * vec) :=
  f <- at_ (fun_ model) (Z.of_nat i) ;;
  e <- at_ (extra modelParams) (Z.of_nat i) ;;
  let y := f qi x e in
  yrow <- assign_row n y ;;
  r <- at_ randError (Z.of_nat i) ;;
  orow <- assign_row n (map (fun a => (a + r)%num) y) ;;
  ret (yrow, orow).

(** The body of the loop over the selected indices (lines 439-444). *)
Definition sample_one (N n : nat) (chain : list vec) (chain_cov : list mat)
    (idx : Z) : Py Sample :=
  qi <- at_ chain idx ;;
  cov <- at_ chain_cov idx ;;
  r <- draw (multivariate_normal (replicate N zero) cov) ;;
  randError <- call r ;;
  rows <- mapM (fun ix => respond n qi randError (fst ix) (snd ix))
               (imap pair (xdata data)) ;;
  ret {| s_index := idx; s_randError := randError;
         s_ySave := map fst rows; s_oSave := map snd rows |}.

(** The three limits of every output location of data set [i], from the
    rows [saved] of the samples (lines 450-454). *)
Definition limits (nSample : Z) (saved : list vec) : mat :=
  let sorted := map np_sort (transpose saved) in
  let at_lims := map (fun c =>
        np_interp (map (fun l => (l * ofZ (nSample - 1))%num) lims)
                  (map ofZ (seqZ 0 nSample)) c) sorted in
  map (fun l => map (fun v => nth l v zero) at_lims) (seq 0 (length lims)).

Definition getDRAMMIMOIntervals (chain : list vec) (chain_cov : list mat)
    (nSample : Z) : Py (list mat * list mat) :=
  let xData := xdata data in
  let m := Z.of_nat (length chain) in
  let N := length xData in
  x0 <- at_ xData 0 ;;
  let n := length x0 in
  iSample <- select_indices m nSample ;;
  samples <- mapM (fun ii => idx <- at_ iSample ii ;;
                             sample_one N n chain chain_cov idx)
                  (seqZ 0 nSample) ;;
  let credLims := map (fun i => limits nSample
                    (map (fun s => nth i (s_ySave s) []) samples)) (seq 0 N) in
  let predLims := map (fun i => limits nSample
                    (map (fun s => nth i (s_oSave s) []) samples)) (seq 0 N) in
  savez (IntervalsFile credLims predLims) ;;;
  ret (credLims, predLims).

End Intervals.

(** ** The linear model of the example (lines 462-482)

    [theta] holds the two parameters [a] and [b]; both branches of the test
    on [extra[0]] make the same assignments. *)

Definition getModelResponse (theta xdata : vec) (extra : list Z) : vec :=
  let a := nth 0 theta zero in
  let b := nth 1 theta zero in
  map (fun x => (a * x + b)%num) xdata.

Definition getModelResponseError (theta xdata ydata : vec) (extra : list Z)
  : vec :=
  vsub (getModelResponse theta xdata extra) ydata.

(** ** A library to run the code on examples

    Rational stand-ins for the numerical library, used to evaluate the
    functions above on concrete arguments: a congruential generator, a
    quadratic approximation of the exponential, a Newton step for the square
    root, the inverse and the Cholesky factor of a matrix of two rows and
    columns. *)

Module Example.

Definition next (g : Z) : Z := (g * 21 + 7) mod 1000.

(** A number of [0, 1) from the generator state. *)
Definition uniform (g : Z) : num := fin (inject_Z (g mod 1000) / 1000).

(** A number of [-3/2, 3/2] from the generator state. *)
Definition gauss (g : Z) : num := fin (inject_Z (g mod 7 - 3) / 2).

Fixpoint draws (f : Z -> num) (d : nat) (g : Z) : vec * Z :=
  match d with
  | O => ([], g)
  | S d' => (f g :: fst (draws f d' (next g)), snd (draws f d' (next g)))
  end.

Definition exp_ (x : num) : num :=
  match x with
  | Fin a => if Qle_bool a 0 then fin (1 / (1 - a + a * a / 2))
             else fin (1 + a + a * a / 2)
  | PInf => PInf
  | NInf => zero
  | NaN => NaN
  end.

Definition newton (x y : num) : num := ((y + x / y) / ofZ 2)%num.

Definition sqrt_ (x : num) : num :=
  if (x =? zero)%num then zero
  else newton x ((x + one) / ofZ 2)%num.

Definition power_ (x y : num) : num :=
  if (y =? ofZ 2)%num then (x * x)%num
  else if (y <? zero)%num then (one / (one + x))%num else x.

Definition on_diagonal (f : num -> num) (a : mat) : mat :=
  imap (fun i r => imap (fun j x => if (i =? j)%nat then f x else zero) r) a.

Definition interp (x xp fp : vec) : vec :=
  map (fun a =>
         let j := floor_int a in
         if j <? 0 then hd zero fp
         else match fp !! Z.to_nat j, fp !! Z.to_nat (j + 1) with
              | Some y0, Some y1 => (y0 + (a - ofZ j) * (y1 - y0))%num
              | Some y0, None => y0
              | _, _ => List.last fp zero
              end) x.

(** The inverse of a matrix of two rows and columns; of the diagonal
    otherwise. *)
Definition inverse (a : mat) : exn + mat :=
  match a with
  | [[a11; a12]; [a21; a22]] =>
      let det := (a11 * a22 - a12 * a21)%num in
      if (det =? zero)%num then inl LinAlgError
      else inr [[a22 / det; - a12 / det]; [- a21 / det; a11 / det]]%num
  | _ => inr (on_diagonal (div one) a)
  end.

(** The upper Cholesky factor of a matrix of two rows and columns; of the
    diagonal otherwise. *)
Definition cholesky (a : mat) : exn + mat :=
  match a with
  | [[a11; a12]; [_; a22]] =>
      let u11 := sqrt_ a11 in
      let u12 := (a12 / u11)%num in
      inr [[u11; u12]; [zero; sqrt_ (a22 - u12 * u12)%num]]
  | _ => inr (on_diagonal sqrt_ a)
  end.

#[export] Instance lib : Library Z := {|
  np_exp := exp_;
  np_sqrt := sqrt_;
  np_power := power_;
  np_pi := lit 3.1416;
  np_interp := interp;
  la_inv := inverse;
  la_cholesky := cholesky;
  randn := draws gauss;
  rand := fun g => (uniform g, next g);
  rand_n := draws uniform;
  invwishart_rvs := fun df scale g => (inr (mdivs scale df), next g);
  multivariate_normal := fun mean cov g =>
    (inr (vadd mean (map (fun _ => gauss g) mean)), next g) |}.

(** Two data sets of three points and the linear model, as in the example
    of the source (with fewer points). *)
Definition data : Data :=
  {| xdata := [[lit 0; lit 0.5; lit 1]; [lit 0; lit 0.5; lit 1]];
     ydata := [[lit 0; lit 0.4; lit 0.8]; [lit 0; lit 0.6; lit 1.2]] |}.

Definition model : Model (list Z) :=
  {| fun_ := [getModelResponse; getModelResponse];
     errFun := [getModelResponseError; getModelResponseError] |}.

Definition modelParams : ModelParams (list Z) :=
  {| values := [lit 1.0; lit 0.01];
     lowerLimits := [NInf; NInf];
     upperLimits := [PInf; PInf];
     extra := [[0]; [0]] |}.

Definition no_previous : PreviousResults :=
  {| prior := {| psi_s_in := None; nu_s_in := None |};
     prev_chain_q := None; prev_last_cov_q := None;
     prev_chain_cov_err := None |}.

(** A fresh run of [M] iterations. *)
Definition fresh (M : Z) : DRAMParams :=
  {| numDRAMIterationsDone := 1; numDRAMIterations := M;
     previousResults := no_previous |}.

Definition world0 : World Z := {| rng := 1; files := [] |}.

(** A fresh run of [M] iterations with the prior scale 3 I and no prior
    degrees of freedom. *)
Definition informed (M : Z) : DRAMParams :=
  {| numDRAMIterationsDone := 1; numDRAMIterations := M;
     previousResults :=
       {| prior := {| psi_s_in := Some [[lit 3; lit 0]; [lit 0; lit 3]];
                      nu_s_in := Some zero |};
          prev_chain_q := None; prev_last_cov_q := None;
          prev_chain_cov_err := None |} |}.

Definition world2 : World Z := {| rng := 2; files := [] |}.

(** The same parameters with a lower limit [lo] on the first one. *)
Definition bounded (lo : Q) : ModelParams (list Z) :=
  {| values := [lit 1.0; lit 0.01];
     lowerLimits := [lit lo; NInf];
     upperLimits := [PInf; PInf];
     extra := [[0]; [0]] |}.

(** A model with one function too few. *)
Definition short_model : Model (list Z) :=
  {| fun_ := [getModelResponse];
     errFun := [getModelResponseError; getModelResponseError] |}.

(** Data whose second set has a point too few. *)
Definition short_data : Data :=
  {| xdata := [[lit 0; lit 0.5; lit 1]; [lit 0; lit 0.5]];
     ydata := [[lit 0; lit 0.4; lit 0.8]; [lit 0; lit 0.6]] |}.

(** A run said to resume after five iterations, with a chain of two rows. *)
Definition bad_resume : DRAMParams :=
  {| numDRAMIterationsDone := 5; numDRAMIterations := 10;
     previousResults :=
       {| prior := {| psi_s_in := None; nu_s_in := None |};
          prev_chain_q := Some [[lit 1.0; lit 0.01]; [lit 1.0; lit 0.01]];
          prev_last_cov_q := None; prev_chain_cov_err := None |} |}.

(** A fresh run of one iteration with the prior given in part. *)
Definition with_prior (psi : option mat) (nu : option num) : DRAMParams :=
  {| numDRAMIterationsDone := 1; numDRAMIterations := 1;
     previousResults :=
       {| prior := {| psi_s_in := psi; nu_s_in := nu |};
          prev_chain_q := None; prev_last_cov_q := None;
          prev_chain_cov_err := None |} |}.

(** A chain of five rows and two columns; the quartiles of its first
    column are 1.5 and 4.5. *)
Definition five_rows : list vec :=
  [[lit 3; lit 0]; [lit 1; lit 0.5]; [lit 2; lit 1]; [lit 5; lit 0.5];
   [lit 4; lit 0]].

(** A chain of four rows and one column. *)
Definition four_rows : list vec := [[lit 1]; [lit 2]; [lit 3]; [lit 4]].

Definition empty_state : Setup * RunState :=
  ({| cfg_N := 0; cfg_n := 0; cfg_p := 0; cfg_Mo := 0; cfg_M := 0;
      cfg_prior := {| psi_s := []; nu_s := zero |}; cfg_sp := zero |},
   {| q := []; err := []; cov_q := []; cov_q_inv := [];
      cov_err := []; cov_err_inv := []; qBar := []; qCov := [];
      R1 := []; R2 := []; chain_q := []; last_cov_q := [];
      chain_cov_err := [] |}).

(** The setup and the state at the start of the loop of a fresh run. *)
Definition start (M : Z) : Setup * RunState :=
  match fst (initialise data model modelParams (fresh M) world0) with
  | inr r => r
  | inl _ => empty_state
  end.

(** The setup, the state and the world at the start of the loop of the run
    with the prior, its first parameter bounded below by 0.97. *)
Definition informed_start : (Setup * RunState) * World Z :=
  match initialise data model (bounded 0.97) (informed 4) world2 with
  | (inr r, w) => (r, w)
  | (inl _, w) => (empty_state, w)
  end.

(** The state and the world after the first iteration of that run. *)
Definition informed_first : RunState * World Z :=
  match iteration data model (bounded 0.97) (fst (fst informed_start)) 1
                  (snd (fst informed_start)) (snd informed_start) with
  | (inr st, w) => (st, w)
  | (inl _, w) => (snd empty_state, w)
  end.

(** A run resumed after two iterations. *)
Definition resumed (M : Z) : DRAMParams :=
  {| numDRAMIterationsDone := 2; numDRAMIterations := M;
     previousResults :=
       {| prior := {| psi_s_in := None; nu_s_in := None |};
          prev_chain_q := Some [[lit 1.0; lit 0.01]; [lit 0.9; lit 0.02]];
          prev_last_cov_q := Some [[lit 0.0025; zero]; [zero; lit 0.0001]];
          prev_chain_cov_err :=
            Some [[[one; zero]; [zero; one]]; [[one; zero]; [zero; one]]] |} |}.

End Example.

(** ** Vocabulary of the properties *)

(** Some component of the candidate [c] is strictly below its lower limit
    or strictly above its upper limit. *)
Definition violates_bounds {Extra} (mp : ModelParams Extra) (c : vec) : Prop :=
  exists i x b,
    c !! i = Some x /\
    ((lowerLimits mp !! i = Some b /\ (x <? b)%num = true) \/
     (upperLimits mp !! i = Some b /\ (x >? b)%num = true)).

(** The numbers of sets in the data, the model and the extras are not all
    the same. *)
Definition unequal_sets {Extra} (data : Data) (model : Model Extra)
    (mp : ModelParams Extra) : Prop :=
  ~ (length (ydata data) = length (xdata data) /\
     length (fun_ model) = length (xdata data) /\
     length (errFun model) = length (xdata data) /\
     length (extra mp) = length (xdata data)).

(** Some [xdata[i]] or [ydata[i]] has not as many points as the first data
    set [xdata[0]]. *)
Definition unequal_points (data : Data) : Prop :=
  exists x0 i x,
    xdata data !! 0%nat = Some x0 /\
    (xdata data !! i = Some x \/ ydata data !! i = Some x) /\
    length x <> length x0.

(** The run resumes ([numDRAMIterationsDone] is not 1) and the previous
    chain given has not that many rows. *)
Definition continuation_mismatch (dp : DRAMParams) : Prop :=
  numDRAMIterationsDone dp <> 1 /\
  exists c, prev_chain_q (previousResults dp) = Some c /\
            Z.of_nat (length c) <> numDRAMIterationsDone dp.

(** The value of rank [j] among the values of [v] in ascending order, the
    smallest having rank 1. *)
Definition order_statistic (v : vec) (j : Z) : option num :=
  if 1 <=? j then np_sort v !! Z.to_nat (j - 1) else None.

(** The value at the fractional rank [r]: the linear interpolation between
    the order statistics of the ranks [floor r] and [floor r + 1]. *)
Definition interpolated_rank (v : vec) (r : Q) : option num :=
  let j := Qfloor r in
  let f := lit (r - inject_Z j) in
  match order_statistic v j, order_statistic v (j + 1) with
  | Some a, Some b => Some ((one - f) * a + f * b)%num
  | _, _ => None
  end.

(** The interquartile range of [v]: the value at the rank [3 (n + 1) / 4]
    minus the value at the rank [(n + 1) / 4], for [n] values. *)
Definition interquartile_range (v : vec) : option num :=
  let n := inject_Z (Z.of_nat (length v)) in
  match interpolated_rank v (3 * (n + 1) / 4),
        interpolated_rank v ((n + 1) / 4) with
  | Some c3, Some c1 => Some (c3 - c1)%num
  | _, _ => None
  end.

(** Silverman's rule: [1.06 min(sigma, iqr / 1.34) n^(-1/5)], and
    [1.06 sigma n^(-1/5)] when [iqr <= 0]; [nfifth] stands for
    [n^(-1/5)]. *)
Definition silverman (sigma iqr nfifth : num) : num :=
  if (iqr <=? zero)%num then (lit 1.06 * sigma * nfifth)%num
  else (lit 1.06 * np_min2 sigma (iqr / lit 1.34) * nfifth)%num.

(** The sum of the squares of the deviations of the values of [v] from
    their mean. *)
Definition squared_deviations (v : vec) : num :=
  let m := (vsum v / ofZ (Z.of_nat (length v)))%num in
  vsum (map (fun a => ((a - m) * (a - m))%num) v).

(** The standard deviation normalised by the number [n] of values: the root
    of the sum of the squared deviations over [n]. *)
Definition std_over_n (sqrt : num -> num) (v : vec) : num :=
  sqrt (squared_deviations v / ofZ (Z.of_nat (length v)))%num.

(** The sample standard deviation: the root of the sum of the squared
    deviations over [n - 1]. *)
Definition sample_std (sqrt : num -> num) (v : vec) : num :=
  sqrt (squared_deviations v / ofZ (Z.of_nat (length v) - 1)%Z)%num.

(** A computation that uses neither the generator nor the files: it has
    the same outcome in every world and leaves the world as it is. *)
Definition pure_run {RNG A} (m : Run RNG A) : Prop :=
  exists r, forall w, m w = (r, w).

(** A computation that writes no file, whether it returns or raises. *)
Definition keeps_files {RNG A} (m : Run RNG A) : Prop :=
  forall w r w', m w = (r, w') -> files w' = files w.

(** The iterations [k] of [Mo, M) at which the loop saves the chains. *)
Definition checkpoints (Mo M : Z) : list Z :=
  List.filter (fun k => k mod 1000 =? 0) (seqZ Mo (M - Mo)).

(** Previous chains of the shapes that [getDRAMMIMOChains] returns for [N]
    data sets and [p] parameters: rows of [p] entries, and as many [N x N]
    covariance matrices as rows. *)
Definition previous_chains_shaped (N p : nat) (c : list vec) (cc : list mat)
  : Prop :=
  Forall (fun r => length r = p) c /\
  length cc = length c /\
  Forall (fun m => length m = N /\ Forall (fun r : vec => length r = N) m) cc.

(** * Properties *)

(** ** Numbers *)

Section NumFacts.

Lemma Qltb_lt (a b : Q) : Qltb a b = true <-> (a < b)%Q.
Proof.
  unfold Qltb. rewrite negb_true_iff. split.
  - intros H. apply Qnot_le_lt. intros Hle.
    apply Qle_bool_iff in Hle. congruence.
  - intros H. apply not_true_is_false. intros Hle.
    apply Qle_bool_iff in Hle. lra.
Qed.

Lemma pymin_one_zero : pymin one zero = zero.
Proof. reflexivity. Qed.

(** [min(1, x)] is 1, or it is [x] and [x < 1]: never [nan], never above 1. *)
Lemma pymin_one_cases (x : num) :
  pymin one x = one \/ (pymin one x = x /\ (x <? one)%num = true).
Proof.
  unfold pymin. destruct (x <? one)%num eqn:E; [right | left]; auto.
Qed.

Lemma unit_not_below_zero (u : num) :
  unit_interval u -> (zero >? u)%num = false.
Proof.
  intros [H0 H1]. unfold gtb. destruct u as [a| | |]; simpl in *; try easy.
  unfold Qltb. now rewrite H0.
Qed.

Lemma unit_below_one (u : num) : unit_interval u -> (one >? u)%num = true.
Proof. intros [_ H1]. exact H1. Qed.

(** Below 1, the difference to 1 is not zero. *)
Lemma sub_one_nonzero (a : num) :
  (a <? one)%num = true -> (one - a =? zero)%num = false.
Proof.
  destruct a as [a| | |]; simpl; try easy.
  intros H. apply Qltb_lt in H.
  apply not_true_is_false. intros E. apply Qeq_bool_eq in E.
  rewrite !Qred_correct in E. lra.
Qed.

Lemma fin_eq (a b : Q) : (a == b)%Q -> fin a = fin b.
Proof. intros H. unfold fin. f_equal. now apply Qred_complete. Qed.

End NumFacts.

(** ** The monad *)

Section RunFacts.

Context {RNG : Type}.
Implicit Types w : World RNG.

Lemma bind_inr {A B} (m : Run RNG A) (k : A -> Run RNG B) w b w' :
  bind m k w = (inr b, w') ->
  exists a w1, m w = (inr a, w1) /\ k a w1 = (inr b, w').
Proof.
  unfold bind. destruct (m w) as [[e|a] w1]; [discriminate|]. eauto.
Qed.

Lemma bind_inl {A B} (m : Run RNG A) (k : A -> Run RNG B) w e w' :
  m w = (inl e, w') -> bind m k w = (inl e, w').
Proof. unfold bind. now intros ->. Qed.

Lemma bind_step {A B} (m : Run RNG A) (k : A -> Run RNG B) w a w1 :
  m w = (inr a, w1) -> bind m k w = k a w1.
Proof. unfold bind. now intros ->. Qed.

Lemma ret_inr {A} (a b : A) w w' :
  ret a w = (inr b, w') -> a = b /\ w = w'.
Proof. unfold ret. now intros [= -> ->]. Qed.

Lemma raise_inr {A} (e : exn) w (b : A) w' : raise e w = (inr b, w') -> False.
Proof. discriminate. Qed.

Lemma draw_inr {A} (f : RNG -> A * RNG) w a w' :
  draw f w = (inr a, w') ->
  f (rng w) = (a, rng w') /\ files w' = files w.
Proof.
  unfold draw. intros [= <- <-]. simpl. now destruct (f (rng w)).
Qed.

Lemma call_inr {A} (r : exn + A) w a w' :
  call r w = (inr a, w') -> r = inr a /\ w = w'.
Proof.
  destruct r as [e|x]; simpl; [discriminate|]. now intros [= -> ->].
Qed.

Lemma savez_inr (f : SavedFile) w u w' :
  savez f w = (inr u, w') -> rng w' = rng w /\ files w' = files w ++ [f].
Proof. unfold savez. now intros [= _ <-]. Qed.

End RunFacts.

(** Inversion of a run that returned a value. *)
Ltac run_inv :=
  repeat match goal with
  | H : bind _ _ _ = (inr _, _) |- _ =>
      let a := fresh "a" in let w := fresh "w" in let Ha := fresh "Hrun" in
      apply bind_inr in H; destruct H as (a & w & Ha & H)
  | H : ret _ _ = (inr _, _) |- _ =>
      apply ret_inr in H; destruct H as [? ?]; subst
  | H : raise _ _ = (inr _, _) |- _ => exfalso; exact (raise_inr _ _ _ _ H)
  | H : call _ _ = (inr _, _) |- _ =>
      apply call_inr in H; destruct H as [? ?]; subst
  | H : (if ?b then _ else _) _ = (inr _, _) |- _ => destruct b eqn:?
  end.

(** ** Lists *)

Section ListFacts.

Lemma map_lookup {A B} (f : A -> B) (l : list A) (i : nat) :
  map f l !! i = f <$> l !! i.
Proof. revert i. induction l as [|a l IH]; intros [|i]; simpl; auto. Qed.

Lemma map_length_eq {A B} (f : A -> B) (l : list A) :
  length (map f l) = length l.
Proof. induction l; simpl; auto. Qed.

Lemma anyb_true (l : list bool) : anyb l = true <-> exists i, l !! i = Some true.
Proof.
  unfold anyb. rewrite existsb_exists. split.
  - intros (b & Hin & Hb). unfold id in Hb. subst b.
    apply list_elem_of_In, list_elem_of_lookup in Hin. exact Hin.
  - intros [i Hi]. exists true. split; [|reflexivity].
    apply list_elem_of_In, list_elem_of_lookup. eauto.
Qed.

Lemma anyb_zip_with_true {A B} (f : A -> B -> bool) (l : list A) (k : list B) :
  anyb (zip_with f l k) = true <->
  exists i x y, l !! i = Some x /\ k !! i = Some y /\ f x y = true.
Proof.
  rewrite anyb_true. split.
  - intros [i Hi]. apply lookup_zip_with_Some in Hi as (x & y & E & Hx & Hy).
    exists i, x, y. auto.
  - intros (i & x & y & Hx & Hy & E). exists i.
    apply lookup_zip_with_Some. exists x, y. auto.
Qed.

End ListFacts.

(** ** The sampling loop *)

Section SamplerFacts.

Context {RNG : Type} {lib : Library RNG} {Extra : Type}.
Variable data : Data.
Variable model : Model Extra.
Variable modelParams : ModelParams Extra.

Implicit Types (w : World RNG) (st : RunState) (cfg : Setup).


Lemma out_of_bounds_iff (c : vec) :
  out_of_bounds modelParams c = true <-> violates_bounds modelParams c.
Proof.
  unfold out_of_bounds, violates_bounds.
  rewrite orb_true_iff, !anyb_zip_with_true. split.
  - intros [(i & x & b & ? & ? & ?)|(i & x & b & ? & ? & ?)];
      exists i, x, b; auto.
  - intros (i & x & b & Hx & [[? ?]|[? ?]]); [left|right];
      exists i, x, b; auto.
Qed.

(** The evaluation of the residuals draws nothing and writes nothing. *)
Lemma assign_col_world n v w r w' :
  assign_col (RNG := RNG) n v w = (r, w') -> w' = w.
Proof.
  unfold assign_col. destruct (_ =? _)%nat.
  - now intros [= _ <-].
  - destruct v as [|x [|y v]]; now intros [= _ <-].
Qed.

Lemma mapM_world {A B} (f : A -> Run RNG B) (l : list A) :
  (forall a w r w', f a w = (r, w') -> w' = w) ->
  forall w r w', mapM f l w = (r, w') -> w' = w.
Proof.
  intros Hf. induction l as [|a l IH]; simpl; intros w r w'.
  - now intros [= _ <-].
  - unfold bind at 1. destruct (f a w) as [[e|b] w1] eqn:E1.
    + intros [= _ <-]. eauto.
    + apply Hf in E1. subst w1. unfold bind at 1.
      destruct (mapM f l w) as [[e|bs] w2] eqn:E2.
      * intros [= _ <-]. eauto.
      * apply IH in E2. subst w2. now intros [= _ <-].
Qed.

Lemma residuals_world n c w r w' :
  residuals data model modelParams n c w = (r, w') -> w' = w.
Proof.
  unfold residuals. apply mapM_world.
  intros [[[f x] y] e] w0 r0 w0'. apply assign_col_world.
Qed.

(** *** The first stage *)

Lemma stage1_alpha10 cfg st w s1 w1 :
  stage1 data model modelParams cfg st w = (inr s1, w1) -> alpha10 s1 = pymin one (pi10 s1).
Proof.
  unfold stage1. intros H. run_inv; reflexivity.
Qed.

Lemma stage1_out_of_bounds cfg st w s1 w1 :
  stage1 data model modelParams cfg st w = (inr s1, w1) ->
  out_of_bounds modelParams (q1 s1) = true ->
  s1 = stage1_rejected cfg st (q1 s1).
Proof.
  unfold stage1. intros H Hout. run_inv; simpl in *; congruence.
Qed.

(** *** The second stage *)

Lemma stage2_out_of_bounds cfg st s1 w s2 w2 :
  stage2 data model modelParams cfg st s1 w = (inr s2, w2) ->
  out_of_bounds modelParams (q2 s2) = true ->
  s2 = stage2_rejected cfg (q2 s2) None.
Proof.
  unfold stage2. intros H Hout. run_inv; simpl in *; congruence.
Qed.

Lemma stage2_divisor cfg st s1 w s2 w2 d :
  stage2 data model modelParams cfg st s1 w = (inr s2, w2) ->
  divisor s2 = Some d -> d = (one - alpha10 s1)%num.
Proof.
  unfold stage2. intros H Hd. run_inv; simpl in *; congruence.
Qed.

Lemma stage2_alpha12_one cfg st s1 w s2 w2 a :
  stage2 data model modelParams cfg st s1 w = (inr s2, w2) ->
  alpha12 s2 = Some a -> (a =? one)%num = true ->
  alpha210 s2 = zero /\ divisor s2 = None.
Proof.
  unfold stage2. intros H Ha E. run_inv; simpl in *; auto;
    injection Ha as <-; try discriminate; congruence.
Qed.

(** The second candidate is a random walk from the previous guess. *)
Lemma stage2_proposal cfg st s1 w s2 w2 :
  stage2 data model modelParams cfg st s1 w = (inr s2, w2) ->
  exists z, randn (length (q st)) (rng w) = (z, rng w2) /\
            q2 s2 = propose (q st) (R2 st) z.
Proof.
  unfold stage2. intros H.
  apply bind_inr in H as (z & w1 & Hz & H). apply draw_inr in Hz as [Hz _].
  exists z.
  destruct (out_of_bounds _ _).
  - apply ret_inr in H as [<- <-]. auto.
  - apply bind_inr in H as (e2 & w3 & He2 & H).
    apply residuals_world in He2. subst w3.
    run_inv; auto.
Qed.

(** *** The decision *)

Lemma delayedRejection_inv cfg st w dr w' :
  delayedRejection data model modelParams cfg st w = (inr dr, w') ->
  exists w1 u1 w2,
    stage1 data model modelParams cfg st w = (inr (dr_stage1 dr), w1) /\
    rand (rng w1) = (u1, rng w2) /\
    ( ((alpha10 (dr_stage1 dr) >? u1)%num = true /\
       dr_stage2 dr = None /\ dr_decision dr = AcceptStage1 /\
       dr_q dr = q1 (dr_stage1 dr) /\ dr_err dr = err1 (dr_stage1 dr))
      \/
      ((alpha10 (dr_stage1 dr) >? u1)%num = false /\
       exists s2 w3 u2,
         stage2 data model modelParams cfg st (dr_stage1 dr) w2 = (inr s2, w3) /\
         dr_stage2 dr = Some s2 /\
         rand (rng w3) = (u2, rng w') /\
         ( ((alpha210 s2 >? u2)%num = true /\ dr_decision dr = AcceptStage2 /\
            dr_q dr = q2 s2 /\ dr_err dr = err2 s2)
           \/
           ((alpha210 s2 >? u2)%num = false /\ dr_decision dr = RejectBoth /\
            dr_q dr = q st /\ dr_err dr = err st) )) ).
Proof.
  unfold delayedRejection. intros H.
  apply bind_inr in H as (s1 & w1 & Hs1 & H).
  apply bind_inr in H as (u1 & w2 & Hu1 & H).
  apply draw_inr in Hu1 as [Hu1 _].
  destruct (alpha10 s1 >? u1)%num eqn:E1.
  - apply ret_inr in H as [<- <-]. simpl.
    exists w1, u1, w2. split; [exact Hs1|]. split; [exact Hu1|].
    left. repeat split; auto.
  - apply bind_inr in H as (s2 & w3 & Hs2 & H).
    apply bind_inr in H as (u2 & w4 & Hu2 & H).
    apply draw_inr in Hu2 as [Hu2 _].
    destruct (alpha210 s2 >? u2)%num eqn:E2;
      apply ret_inr in H as [<- <-]; simpl;
      exists w1, u1, w2; (split; [exact Hs1|]); (split; [exact Hu1|]);
      right; (split; [exact E1|]); exists s2, w3, u2;
      (split; [exact Hs2|]); (split; [reflexivity|]); (split; [exact Hu2|]);
      [left|right]; auto.
Qed.

(** *** Recording and adaptation *)

Lemma invert_world dim a w r w' :
  invert (RNG := RNG) dim a w = (r, w') -> w' = w.
Proof.
  unfold invert. destruct (_ =? _)%nat.
  - now intros [= _ <-].
  - destruct (la_inv a); now intros [= _ <-].
Qed.

Lemma record_and_redraw_inv cfg k st dr w st1 w1 :
  record_and_redraw cfg k st dr w = (inr st1, w1) ->
  q st1 = dr_q dr /\ err st1 = dr_err dr /\
  chain_q st1 = <[Z.to_nat k := dr_q dr]> (chain_q st) /\
  last_cov_q st1 = cov_q st /\
  chain_cov_err st1 = <[Z.to_nat k := cov_err st]> (chain_cov_err st) /\
  cov_q st1 = cov_q st /\ cov_q_inv st1 = cov_q_inv st /\
  qBar st1 = qBar st /\ qCov st1 = qCov st /\
  R1 st1 = R1 st /\ R2 st1 = R2 st.
Proof.
  unfold record_and_redraw. intros H. run_inv. simpl. repeat split.
Qed.

(** The adaptation leaves the guess, its residuals, the chains and the
    residual covariance alone. *)
Lemma adapt_frame cfg k st w st' w' :
  adapt cfg k st w = (inr st', w') ->
  q st' = q st /\ err st' = err st /\ chain_q st' = chain_q st /\
  last_cov_q st' = last_cov_q st /\ chain_cov_err st' = chain_cov_err st /\
  cov_err st' = cov_err st /\ cov_err_inv st' = cov_err_inv st.
Proof.
  unfold adapt. intros H. run_inv; simpl; repeat split.
Qed.

Lemma iteration_inv cfg k st w st' w' :
  iteration data model modelParams cfg k st w = (inr st', w') ->
  exists w0 dr w1 st1 w2,
    rng w0 = rng w /\
    delayedRejection data model modelParams cfg st w0 = (inr dr, w1) /\
    record_and_redraw cfg k st dr w1 = (inr st1, w2) /\
    adapt cfg k st1 w2 = (inr st', w').
Proof.
  unfold iteration. intros H.
  apply bind_inr in H as (u & w0 & Hsave & H).
  apply bind_inr in H as (dr & w1 & Hdr & H).
  apply bind_inr in H as (st1 & w2 & Hrec & H).
  exists w0, dr, w1, st1, w2. repeat split; auto.
  destruct (k mod 1000 =? 0).
  - now apply savez_inr in Hsave as [-> _].
  - now apply ret_inr in Hsave as [_ <-].
Qed.

(** What an iteration leaves in the state, in terms of the outcome of its
    delayed rejection. *)
Lemma iteration_outcome cfg k st w st' w' :
  iteration data model modelParams cfg k st w = (inr st', w') ->
  exists w0 dr w1,
    delayedRejection data model modelParams cfg st w0 = (inr dr, w1) /\
    q st' = dr_q dr /\ err st' = dr_err dr /\
    chain_q st' = <[Z.to_nat k := dr_q dr]> (chain_q st) /\
    last_cov_q st' = cov_q st /\
    chain_cov_err st' = <[Z.to_nat k := cov_err st]> (chain_cov_err st).
Proof.
  intros H. apply iteration_inv in H as (w0 & dr & w1 & st1 & w2 & _ & Hdr & Hrec & Had).
  apply record_and_redraw_inv in Hrec as (? & ? & ? & ? & ? & _).
  apply adapt_frame in Had as (? & ? & ? & ? & ? & _).
  exists w0, dr, w1. repeat split; congruence.
Qed.

Lemma rand_unit (rand_range : forall g, unit_interval (fst (rand g)))
    (g g' : RNG) (u : num) :
  rand g = (u, g') -> unit_interval u.
Proof. intros E. specialize (rand_range g). now rewrite E in rand_range. Qed.

(** C1 (as the code has it).  In every iteration and for every value of
    the uniform draws: a first-stage candidate with a component strictly
    below its lower limit or strictly above its upper limit gets [SS1 = inf]
    and [alpha10 = 0], the test [alpha10 > u] fails for every [u] of [0, 1),
    and the candidate is not accepted; the second stage then proposes from
    the previous guess, and the iteration ends on the previous guess or on an
    accepted second-stage candidate.  A second-stage candidate with such a
    component gets [alpha210 = 0], its test fails as well, both stages are
    rejected and the guess, its residuals and the recorded chain row are
    those of the previous accepted state.  Nothing is assumed of the
    residual functions or of [np.exp]. *)
Theorem out_of_bounds_candidate_rejected
    (rand_range : forall g, unit_interval (fst (rand g)))
    cfg k st w st' w' :
  iteration data model modelParams cfg k st w = (inr st', w') ->
  exists w0 dr w1,
    delayedRejection data model modelParams cfg st w0 = (inr dr, w1) /\
    q st' = dr_q dr /\
    chain_q st' = <[Z.to_nat k := dr_q dr]> (chain_q st) /\
    (violates_bounds modelParams (q1 (dr_stage1 dr)) ->
       SS1 (dr_stage1 dr) = inf /\
       alpha10 (dr_stage1 dr) = zero /\
       (forall u, unit_interval u ->
                  (alpha10 (dr_stage1 dr) >? u)%num = false) /\
       dr_decision dr <> AcceptStage1 /\
       exists s2,
         dr_stage2 dr = Some s2 /\
         (exists z, q2 s2 = propose (q st) (R2 st) z) /\
         (q st' = q st \/ (dr_decision dr = AcceptStage2 /\ q st' = q2 s2))) /\
    (forall s2, dr_stage2 dr = Some s2 ->
       violates_bounds modelParams (q2 s2) ->
       alpha210 s2 = zero /\
       (forall u, unit_interval u -> (alpha210 s2 >? u)%num = false) /\
       dr_decision dr = RejectBoth /\
       q st' = q st /\ err st' = err st /\
       chain_q st' = <[Z.to_nat k := q st]> (chain_q st)).
Proof.
  intros H.
  apply iteration_outcome in H as (w0 & dr & w1 & Hdr & Hq & He & Hc & _).
  exists w0, dr, w1. do 3 (split; [assumption|]).
  apply delayedRejection_inv in Hdr as (wa & u1 & wb & Hs1 & Hu1 & Hcase).
  apply (rand_unit rand_range) in Hu1.
  split.
  - intros Hv. apply out_of_bounds_iff in Hv.
    apply (stage1_out_of_bounds _ _ _ _ _ Hs1) in Hv.
    assert (Ha : alpha10 (dr_stage1 dr) = zero) by (rewrite Hv; reflexivity).
    split; [rewrite Hv; reflexivity|]. split; [exact Ha|].
    split; [intros u Hu; rewrite Ha; now apply unit_not_below_zero|].
    destruct Hcase as [(E & _)|(_ & s2 & wc & u2 & Hst2 & Hs2 & _ & Hdec)].
    + rewrite Ha, (unit_not_below_zero _ Hu1) in E. discriminate.
    + apply stage2_proposal in Hst2 as (z & _ & Hz).
      split.
      * destruct Hdec as [(_ & Hd & _)|(_ & Hd & _)]; rewrite Hd; discriminate.
      * exists s2. split; [exact Hs2|]. split; [eauto|].
        destruct Hdec as [(_ & Hd & Hq2 & _)|(_ & _ & Hq0 & _)];
          [right; split|left]; congruence.
  - intros s2 Hs2 Hv. apply out_of_bounds_iff in Hv.
    destruct Hcase as [(_ & Hnone & _)
                      |(_ & s2' & wc & u2 & Hst2 & Hsome & Hu2 & Hdec)];
      [congruence|].
    assert (s2' = s2) by congruence. subst s2'.
    apply (rand_unit rand_range) in Hu2.
    apply (stage2_out_of_bounds _ _ _ _ _ _ Hst2) in Hv.
    assert (Ha : alpha210 s2 = zero) by (rewrite Hv; reflexivity).
    split; [exact Ha|].
    split; [intros u Hu; rewrite Ha; now apply unit_not_below_zero|].
    destruct Hdec as [(E & _)|(_ & Hd & Hq' & He')].
    + rewrite Ha, (unit_not_below_zero _ Hu2) in E. discriminate.
    + repeat split; congruence.
Qed.

(** C2.  An iteration that completes records one row of [chain_q], the row
    of its index [k]: the chain keeps its length and its other rows, and the
    new row is the first-stage candidate [q1] when the first stage is
    accepted, the second-stage candidate [q2] when the second is, and the
    previous guess [q0] when both are rejected. *)
Theorem iteration_records_one_row cfg k st w st' w' :
  iteration data model modelParams cfg k st w = (inr st', w') ->
  exists w0 dr w1,
    delayedRejection data model modelParams cfg st w0 = (inr dr, w1) /\
    chain_q st' = <[Z.to_nat k := dr_q dr]> (chain_q st) /\
    length (chain_q st') = length (chain_q st) /\
    (forall j, j <> Z.to_nat k -> chain_q st' !! j = chain_q st !! j) /\
    ((Z.to_nat k < length (chain_q st))%nat ->
       chain_q st' !! Z.to_nat k = Some (dr_q dr)) /\
    match dr_decision dr with
    | AcceptStage1 => dr_stage2 dr = None /\ dr_q dr = q1 (dr_stage1 dr)
    | AcceptStage2 => exists s2, dr_stage2 dr = Some s2 /\ dr_q dr = q2 s2
    | RejectBoth => is_Some (dr_stage2 dr) /\ dr_q dr = q st
    end.
Proof.
  intros H.
  apply iteration_outcome in H as (w0 & dr & w1 & Hdr & Hq & He & Hc & _).
  exists w0, dr, w1. split; [assumption|]. split; [assumption|].
  rewrite Hc. split; [apply length_insert|].
  split; [intros j Hj; now apply list_lookup_insert_ne|].
  split; [intros Hk; now apply list_lookup_insert_eq|].
  apply delayedRejection_inv in Hdr as (wa & u1 & wb & _ & _ & Hcase).
  destruct Hcase as [(_ & Hn & Hd & Hq1 & _)
                    |(_ & s2 & wc & u2 & _ & Hs2 & _ & Hdec)].
  - rewrite Hd. auto.
  - destruct Hdec as [(_ & Hd & Hq2 & _)|(_ & Hd & Hq0 & _)];
      rewrite Hd; eauto.
Qed.

(** C9.  Whenever the second stage of an iteration runs, [alpha10 < 1], so
    the divisor [1 - alpha10] of the generalized acceptance probability is
    not zero where the quotient is evaluated: with [alpha10 = 1] the first
    stage is accepted, every uniform draw being strictly below 1.  And when
    [alpha12 == 1] the probability [alpha210] is set to 0 and the quotient
    is not evaluated. *)
Theorem stage2_divisor_nonzero
    (rand_range : forall g, unit_interval (fst (rand g)))
    cfg st w dr w' :
  delayedRejection data model modelParams cfg st w = (inr dr, w') ->
  (alpha10 (dr_stage1 dr) = one -> dr_decision dr = AcceptStage1) /\
  forall s2, dr_stage2 dr = Some s2 ->
    (alpha10 (dr_stage1 dr) <? one)%num = true /\
    (one - alpha10 (dr_stage1 dr) =? zero)%num = false /\
    (forall d, divisor s2 = Some d ->
       d = (one - alpha10 (dr_stage1 dr))%num /\ (d =? zero)%num = false) /\
    (forall a, alpha12 s2 = Some a -> (a =? one)%num = true ->
       alpha210 s2 = zero /\ divisor s2 = None).
Proof.
  intros Hdr.
  apply delayedRejection_inv in Hdr as (wa & u1 & wb & Hs1 & Hu1 & Hcase).
  apply (rand_unit rand_range) in Hu1.
  split.
  - intros Ha.
    destruct Hcase as [(_ & _ & Hd & _)|(E & _)]; [exact Hd|].
    rewrite Ha, (unit_below_one _ Hu1) in E. discriminate.
  - intros s2 Hs2.
    destruct Hcase as [(_ & Hn & _)|(E & s2' & wc & u2 & Hst2 & Hsome & _)];
      [congruence|].
    assert (s2' = s2) by congruence. subst s2'.
    assert (Hlt : (alpha10 (dr_stage1 dr) <? one)%num = true).
    { rewrite (stage1_alpha10 _ _ _ _ _ Hs1) in E |- *.
      destruct (pymin_one_cases (pi10 (dr_stage1 dr))) as [Hp|[Hp Hlt]].
      - rewrite Hp, (unit_below_one _ Hu1) in E. discriminate.
      - rewrite Hp. exact Hlt. }
    split; [exact Hlt|]. split; [now apply sub_one_nonzero|].
    split.
    + intros d Hd. apply (stage2_divisor _ _ _ _ _ _ _ Hst2) in Hd.
      subst d. split; [reflexivity|now apply sub_one_nonzero].
    + intros a. apply (stage2_alpha12_one _ _ _ _ _ _ _ Hst2).
Qed.

(** *** The running mean and covariance *)

Lemma qBar_update_lookup (k : Z) (qBarOld c : vec) i a b :
  qBarOld !! i = Some a -> c !! i = Some b ->
  qBar_update k qBarOld c !! i = Some ((ofZ k * a + b) / ofZ (k + 1))%num.
Proof.
  intros Ha Hb. unfold qBar_update, vdivs, vadd, vscale.
  rewrite map_lookup, lookup_zip_with, map_lookup, Ha, Hb.
  reflexivity.
Qed.

Lemma outer_lookup (u v : vec) i j a b :
  u !! i = Some a -> v !! j = Some b ->
  exists r, outer u v !! i = Some r /\ r !! j = Some (a * b)%num.
Proof.
  intros Ha Hb. unfold outer. eexists. split.
  - rewrite map_lookup, Ha. reflexivity.
  - rewrite map_lookup, Hb. reflexivity.
Qed.

Lemma mscale_lookup (c : num) (a : mat) i j r x :
  a !! i = Some r -> r !! j = Some x ->
  exists r', mscale c a !! i = Some r' /\ r' !! j = Some (c * x)%num.
Proof.
  intros Hr Hx. unfold mscale, vscale. eexists. split.
  - rewrite map_lookup, Hr. reflexivity.
  - rewrite map_lookup, Hx. reflexivity.
Qed.

Lemma zip_rows_lookup (f : num -> num -> num) (a b : mat) i j ra rb x y :
  a !! i = Some ra -> ra !! j = Some x ->
  b !! i = Some rb -> rb !! j = Some y ->
  exists r, zip_with (zip_with f) a b !! i = Some r /\ r !! j = Some (f x y).
Proof.
  intros Ha Hx Hb Hy. eexists. split.
  - rewrite lookup_zip_with, Ha, Hb. reflexivity.
  - rewrite lookup_zip_with, Hx, Hy. reflexivity.
Qed.

Lemma qCov_update_lookup (k : Z) (qCovOld : mat) (qBarOld qBarNew c : vec)
    i j row c0 ai aj bi bj xi xj :
  qCovOld !! i = Some row -> row !! j = Some c0 ->
  qBarOld !! i = Some ai -> qBarOld !! j = Some aj ->
  qBarNew !! i = Some bi -> qBarNew !! j = Some bj ->
  c !! i = Some xi -> c !! j = Some xj ->
  exists row',
    qCov_update k qCovOld qBarOld qBarNew c !! i = Some row' /\
    row' !! j = Some ((ofZ k - lit 1.0) / ofZ k * c0
                      + lit 1.0 / ofZ k
                        * (ofZ k * (ai * aj) - ofZ (k + 1) * (bi * bj)
                           + xi * xj))%num.
Proof.
  intros Hrow Hc0 Hai Haj Hbi Hbj Hxi Hxj. unfold qCov_update.
  destruct (mscale_lookup ((ofZ k - lit 1.0) / ofZ k)%num _ _ _ _ _ Hrow Hc0)
    as (r1 & Hr1 & Hr1j).
  destruct (outer_lookup _ _ _ _ _ _ Hai Haj) as (o1 & Ho1 & Ho1j).
  destruct (outer_lookup _ _ _ _ _ _ Hbi Hbj) as (o2 & Ho2 & Ho2j).
  destruct (outer_lookup _ _ _ _ _ _ Hxi Hxj) as (o3 & Ho3 & Ho3j).
  destruct (mscale_lookup (ofZ k) _ _ _ _ _ Ho1 Ho1j) as (m1 & Hm1 & Hm1j).
  destruct (mscale_lookup (ofZ (k + 1)) _ _ _ _ _ Ho2 Ho2j) as (m2 & Hm2 & Hm2j).
  destruct (zip_rows_lookup sub _ _ _ _ _ _ _ _ Hm1 Hm1j Hm2 Hm2j)
    as (d & Hd & Hdj).
  destruct (zip_rows_lookup add _ _ _ _ _ _ _ _ Hd Hdj Ho3 Ho3j)
    as (t & Ht & Htj).
  destruct (mscale_lookup (lit 1.0 / ofZ k)%num _ _ _ _ _ Ht Htj)
    as (r2 & Hr2 & Hr2j).
  exact (zip_rows_lookup add _ _ _ _ _ _ _ _ Hr1 Hr1j Hr2 Hr2j).
Qed.

Lemma adapt_statistics cfg k st w st' w' :
  adapt cfg k st w = (inr st', w') ->
  (k = ko - 1 ->
     qBar st' = col_means (take (Z.to_nat ko) (chain_q st)) /\
     qCov st' = np_cov (take (Z.to_nat ko) (chain_q st))) /\
  (ko <= k ->
     qBar st' = qBar_update k (qBar st) (q st) /\
     qCov st' = qCov_update k (qCov st) (qBar st) (qBar st') (q st)) /\
  (k < ko - 1 -> qBar st' = qBar st /\ qCov st' = qCov st).
Proof.
  unfold adapt, ko. intros H. run_inv; simpl;
    repeat match goal with
    | E : (_ =? _) = true |- _ => apply Z.eqb_eq in E
    | E : (_ =? _) = false |- _ => apply Z.eqb_neq in E
    | E : (_ >=? _) = true |- _ => apply Z.geb_le in E
    | E : (_ >=? _) = false |- _ => rewrite Z.geb_leb in E; apply Z.leb_gt in E
    end;
    (split; [|split]); intros; try lia; auto.
Qed.

(** C5.  After an iteration [k >= ko] (with [ko = 100]) has recorded its
    chain row [q_k], the running mean and covariance are the source's
    recursive updates; entry by entry,
    [qBar_k = (k qBar_(k-1) + q_k) / (k + 1)] and
    [qCov_k = ((k-1)/k) qCov_(k-1)
              + (1/k) (k qBar_(k-1) qBar_(k-1)^T - (k+1) qBar_k qBar_k^T
                       + q_k q_k^T)].
    At [k = ko - 1] they are the column means and the covariance
    ([np.mean], [np.cov]) of the first [ko] chain rows, and for
    [k < ko - 1] they are not changed. *)
Theorem running_statistics_update cfg k st w st' w' :
  iteration data model modelParams cfg k st w = (inr st', w') ->
  let qk := q st' in
  ko = 100 /\
  chain_q st' = <[Z.to_nat k := qk]> (chain_q st) /\
  (ko <= k ->
     qBar st' = qBar_update k (qBar st) qk /\
     qCov st' = qCov_update k (qCov st) (qBar st) (qBar st') qk /\
     (forall i a b,
        qBar st !! i = Some a -> qk !! i = Some b ->
        qBar st' !! i = Some ((ofZ k * a + b) / ofZ (k + 1))%num) /\
     (forall i j row c0 ai aj bi bj xi xj,
        qCov st !! i = Some row -> row !! j = Some c0 ->
        qBar st !! i = Some ai -> qBar st !! j = Some aj ->
        qBar st' !! i = Some bi -> qBar st' !! j = Some bj ->
        qk !! i = Some xi -> qk !! j = Some xj ->
        exists row',
          qCov st' !! i = Some row' /\
          row' !! j = Some ((ofZ k - lit 1.0) / ofZ k * c0
                            + lit 1.0 / ofZ k
                              * (ofZ k * (ai * aj) - ofZ (k + 1) * (bi * bj)
                                 + xi * xj))%num)) /\
  (k = ko - 1 ->
     qBar st' = col_means (take (Z.to_nat ko) (chain_q st')) /\
     qCov st' = np_cov (take (Z.to_nat ko) (chain_q st'))) /\
  (k < ko - 1 -> qBar st' = qBar st /\ qCov st' = qCov st).
Proof.
  intros H qk. split; [reflexivity|].
  apply iteration_inv in H as (w0 & dr & w1 & st1 & w2 & _ & _ & Hrec & Had).
  apply record_and_redraw_inv in Hrec
    as (Hq1 & _ & Hc1 & _ & _ & _ & _ & HqBar & HqCov & _).
  pose proof (adapt_frame _ _ _ _ _ _ Had) as (Hq & _ & Hc & _).
  apply adapt_statistics in Had as (Heq & Hge & Hlt).
  assert (Hqk : q st1 = qk) by (symmetry; exact Hq).
  rewrite Hqk, HqBar, HqCov in Hge. rewrite HqBar, HqCov in Hlt.
  rewrite <- Hc in Heq.
  split; [rewrite Hc, Hc1; congruence|].
  split; [|split; assumption].
  intros Hk. destruct (Hge Hk) as [HB HC].
  split; [exact HB|]. split; [exact HC|]. split.
  - intros i a b Ha Hb. rewrite HB. now apply qBar_update_lookup.
  - intros i j row c0 ai aj bi bj xi xj ? ? ? ? ? ? ? ?. rewrite HC.
    eapply qCov_update_lookup; eassumption.
Qed.

(** *** The step matrices *)

Lemma invert_indep dim a w r w' :
  invert (RNG := RNG) dim a w = (inr r, w') ->
  forall w0, invert dim a w0 = (inr r, w0).
Proof.
  unfold invert. destruct (_ =? _)%nat.
  - intros [= <- _] w0. reflexivity.
  - destruct (la_inv a); [discriminate|]. intros [= <- _] w0. reflexivity.
Qed.

Lemma adapt_steps cfg k st w st' w' :
  adapt cfg k st w = (inr st', w') ->
  (~ (ko <= k /\ (k + cfg_Mo cfg) mod ko = 0) ->
     R1 st' = R1 st /\ R2 st' = R2 st /\
     cov_q st' = cov_q st /\ cov_q_inv st' = cov_q_inv st) /\
  (ko <= k -> (k + cfg_Mo cfg) mod ko = 0 ->
     cov_q st' = qCov st' /\
     (exists randomWalk,
        la_cholesky (cov_q st') = inr randomWalk /\
        R1 st' = mmuls randomWalk (cfg_sp cfg)) /\
     R2 st' = mdivs (R1 st') (lit 5.0) /\
     (forall w0, invert (cfg_p cfg) (cov_q st') w0 = (inr (cov_q_inv st'), w0))).
Proof.
  unfold adapt, ko. intros H. run_inv; simpl;
    repeat match goal with
    | E : (_ =? _) = true |- _ => apply Z.eqb_eq in E
    | E : (_ =? _) = false |- _ => apply Z.eqb_neq in E
    | E : (_ >=? _) = true |- _ => apply Z.geb_le in E
    | E : (_ >=? _) = false |- _ => rewrite Z.geb_leb in E; apply Z.leb_gt in E
    end;
    (split; [intros Hn|intros Hk Hm]); try lia; auto.
  split; [reflexivity|]. split; [eauto|]. split; [reflexivity|].
  eapply invert_indep; eassumption.
Qed.

(** C6.  An iteration changes the step matrices [R1] and [R2], the
    proposal covariance [cov_q] and its inverse only when [k >= ko] and
    [(k + Mo) mod ko = 0]; then [cov_q] is the running covariance [qCov]
    just updated, [cov_q_inv] its inverse, [R1 = cholesky(cov_q) * sp] and
    [R2 = R1 / 5].  In every other iteration the four are those of the
    iteration before. *)
Theorem step_matrices_change_at_intervals cfg k st w st' w' :
  iteration data model modelParams cfg k st w = (inr st', w') ->
  (~ (ko <= k /\ (k + cfg_Mo cfg) mod ko = 0) ->
     R1 st' = R1 st /\ R2 st' = R2 st /\
     cov_q st' = cov_q st /\ cov_q_inv st' = cov_q_inv st) /\
  (ko <= k -> (k + cfg_Mo cfg) mod ko = 0 ->
     cov_q st' = qCov st' /\
     (exists randomWalk,
        la_cholesky (cov_q st') = inr randomWalk /\
        R1 st' = mmuls randomWalk (cfg_sp cfg)) /\
     R2 st' = mdivs (R1 st') (lit 5.0) /\
     (forall w0, invert (cfg_p cfg) (cov_q st') w0 = (inr (cov_q_inv st'), w0))).
Proof.
  intros H.
  apply iteration_inv in H as (w0 & dr & w1 & st1 & w2 & _ & _ & Hrec & Had).
  apply record_and_redraw_inv in Hrec
    as (_ & _ & _ & _ & _ & Hcq & Hcqi & _ & _ & HR1 & HR2).
  apply adapt_steps in Had as [Hno Hyes].
  rewrite HR1, HR2, Hcq, Hcqi in Hno. split; assumption.
Qed.

End SamplerFacts.

(** ** Validation and initialization *)

Section InitFacts.

Context {RNG : Type} {lib : Library RNG} {Extra : Type}.
Variable data : Data.
Variable model : Model Extra.
Variable modelParams : ModelParams Extra.
Variable DRAMParams_ : DRAMParams.

Implicit Types (w : World RNG).


Lemma any_differs_true (a : list nat) (a0 : nat) :
  any_differs a a0 = true <-> exists c, In c a /\ c <> a0.
Proof.
  unfold any_differs, anyb. rewrite existsb_exists. split.
  - intros (b & Hin & Hb). apply in_map_iff in Hin as (c & <- & Hc).
    exists c. split; [exact Hc|]. unfold id in Hb.
    apply negb_true_iff, Nat.eqb_neq in Hb. exact Hb.
  - intros (c & Hc & Hne). exists true. split; [|reflexivity].
    apply in_map_iff. exists c. split; [|exact Hc].
    apply negb_true_iff, Nat.eqb_neq. exact Hne.
Qed.

Lemma any_differs_false (a : list nat) (a0 : nat) :
  any_differs a a0 = false -> forall c, In c a -> c = a0.
Proof.
  intros H c Hc. destruct (Nat.eq_dec c a0) as [|Hne]; [assumption|].
  assert (any_differs a a0 = true) by (apply any_differs_true; eauto).
  congruence.
Qed.

Lemma check_sets_equal :
  any_differs (numDataSets data model modelParams)
              (hd 0%nat (numDataSets data model modelParams)) = false ->
  ~ unequal_sets data model modelParams.
Proof.
  intros H Hu. apply Hu.
  pose proof (any_differs_false _ _ H) as Hall. simpl in Hall.
  repeat split; apply Hall; auto 10.
Qed.

Lemma check_sets_unequal :
  any_differs (numDataSets data model modelParams)
              (hd 0%nat (numDataSets data model modelParams)) = true ->
  unequal_sets data model modelParams.
Proof.
  intros H (H1 & H2 & H3 & H4).
  apply any_differs_true in H as (c & Hc & Hne). simpl in Hc, Hne.
  destruct Hc as [<-|[<-|[<-|[<-|[<-|[]]]]]]; congruence.
Qed.

(** The rows of [numDataPoints] hold the lengths of the data. *)
Lemma numDataPoints_In (i : nat) (x : vec) :
  length (ydata data) = length (xdata data) ->
  xdata data !! i = Some x \/ ydata data !! i = Some x ->
  In (length x) (concat (numDataPoints data)).
Proof.
  intros Hlen Hx. unfold numDataPoints.
  assert (exists a b, xdata data !! i = Some a /\ ydata data !! i = Some b /\
                      (x = a \/ x = b)) as (a & b & Ha & Hb & Hab).
  { destruct Hx as [Hx|Hx].
    - destruct (lookup_lt_is_Some_2 (ydata data) i) as [b Hb].
      { rewrite Hlen. eapply lookup_lt_Some; eassumption. }
      eauto 10.
    - destruct (lookup_lt_is_Some_2 (xdata data) i) as [a Ha].
      { rewrite <- Hlen. eapply lookup_lt_Some; eassumption. }
      eauto 10. }
  apply in_concat. exists [length a; length b]. split.
  - apply list_elem_of_In, list_elem_of_lookup. exists i.
    apply lookup_zip_with_Some. eauto.
  - destruct Hab as [->| ->]; simpl; auto.
Qed.

Lemma numDataPoints_head :
  match numDataPoints data with
  | [] => xdata data = [] \/ ydata data = []
  | r :: _ => exists x0 y0 : vec, xdata data !! 0%nat = Some x0 /\
                            r = [length x0; length y0]
  end.
Proof.
  unfold numDataPoints.
  destruct (xdata data) as [|x0 xs]; [simpl; auto|].
  destruct (ydata data) as [|y0 ys]; [simpl; auto|].
  simpl. eauto.
Qed.

(** The call fails as its validation fails. *)
Lemma validate_fails w e w' :
  validate data model modelParams DRAMParams_ w = (inl e, w') ->
  initialise data model modelParams DRAMParams_ w = (inl e, w') /\
  getDRAMMIMOChains data model modelParams DRAMParams_ w = (inl e, w').
Proof.
  intros H.
  assert (Hi : initialise data model modelParams DRAMParams_ w = (inl e, w'))
    by (unfold initialise; now apply bind_inl).
  split; [exact Hi|]. unfold getDRAMMIMOChains. now apply bind_inl.
Qed.

(** C4.  When the numbers of sets differ, or some data set has not as many
    points as the first, or the run resumes with a previous chain whose
    number of rows is not the number of iterations done, the call raises an
    exception in its validation (lines 72-90), before the initialization and
    the first iteration: it returns no chain, draws no random number and
    writes no file.  With at least one data set the exception is the
    [ValueError] of the failed check. *)
Theorem invalid_arguments_fail w :
  unequal_sets data model modelParams \/ unequal_points data
  \/ continuation_mismatch DRAMParams_ ->
  exists e,
    validate data model modelParams DRAMParams_ w = (inl e, w) /\
    getDRAMMIMOChains data model modelParams DRAMParams_ w = (inl e, w) /\
    (xdata data <> [] -> exists msg, e = ValueError msg).
Proof.
  intros Hbad.
  assert (Hgoal : exists e,
            validate data model modelParams DRAMParams_ w = (inl e, w) /\
            (xdata data <> [] -> exists msg, e = ValueError msg)).
  2: { destruct Hgoal as (e & He & Hv). exists e.
       split; [exact He|]. split; [|exact Hv].
       now apply validate_fails in He as [_ He]. }
  unfold validate.
  destruct (any_differs (numDataSets data model modelParams)
              (hd 0%nat (numDataSets data model modelParams))) eqn:E1.
  { eexists. split; [|eauto].
    apply bind_inl. unfold check_sets. rewrite E1. reflexivity. }
  pose proof (check_sets_equal E1) as Heq.
  assert (Hlen : length (ydata data) = length (xdata data)).
  { pose proof (any_differs_false _ _ E1) as Hall. simpl in Hall.
    apply Hall. auto. }
  erewrite bind_step; [|unfold check_sets; rewrite E1; reflexivity].
  pose proof numDataPoints_head as Hhead.
  destruct (numDataPoints data) as [|r rows] eqn:E2.
  { exists IndexError. split.
    - apply bind_inl. unfold check_points. rewrite E2. reflexivity.
    - intros Hne. exfalso.
      destruct Hhead as [H0|H0]; [congruence|].
      rewrite H0 in Hlen. simpl in Hlen.
      destruct (xdata data); [congruence|discriminate]. }
  destruct Hhead as (x0 & y0 & Hx0 & ->).
  destruct (any_differs (concat (numDataPoints data)) (length x0)) eqn:E3.
  { eexists. split; [|eauto].
    apply bind_inl. unfold check_points. rewrite E2, <- E2, E3. reflexivity. }
  erewrite bind_step;
    [|unfold check_points; rewrite E2, <- E2, E3; reflexivity].
  destruct Hbad as [Hs|[Hp|Hc]].
  - contradiction.
  - exfalso. destruct Hp as (x0' & i & x & Hx0' & Hx & Hne).
    assert (x0' = x0) by congruence. subst x0'.
    apply Hne. apply (any_differs_false _ _ E3).
    now apply (numDataPoints_In i).
  - destruct Hc as (Hmo & c & Hprev & Hc).
    eexists. split; [|eauto].
    apply bind_inl. unfold check_done.
    apply Z.eqb_neq in Hmo. rewrite Hmo. simpl. rewrite Hprev.
    assert (E : (numDRAMIterationsDone DRAMParams_ =? Z.of_nat (length c))
                = false)
      by (apply Z.eqb_neq; congruence).
    rewrite E. reflexivity.
Qed.

(** With no data set at all the point-count check itself fails on its first
    index. *)
Lemma no_data_set_fails w :
  xdata data = [] -> ydata data = [] -> fun_ model = [] ->
  errFun model = [] -> extra modelParams = [] ->
  getDRAMMIMOChains data model modelParams DRAMParams_ w = (inl IndexError, w).
Proof.
  intros Hx Hy Hf He Hex. apply validate_fails. unfold validate.
  erewrite bind_step;
    [|unfold check_sets, numDataSets; rewrite Hx, Hy, Hf, He, Hex;
      reflexivity].
  apply bind_inl. unfold check_points, numDataPoints.
  rewrite Hx. reflexivity.
Qed.

(** The sizes that a validation that passes returns. *)
Lemma validate_inr w N n Mo w' :
  validate data model modelParams DRAMParams_ w = (inr (N, n, Mo), w') ->
  N = length (xdata data) /\ Mo = numDRAMIterationsDone DRAMParams_ /\ w' = w.
Proof.
  unfold validate. intros H.
  apply bind_inr in H as (N' & w1 & HN & H).
  apply bind_inr in H as (n' & w2 & Hn & H).
  apply bind_inr in H as (Mo' & w3 & HMo & H).
  apply ret_inr in H as [[= <- <- <-] <-].
  unfold check_sets in HN.
  destruct (any_differs _ _); [exfalso; exact (raise_inr _ _ _ _ HN)|].
  apply ret_inr in HN as [<- <-].
  unfold check_points in Hn.
  assert (w2 = w) as ->.
  { destruct (numDataPoints data) as [|[|n0 r] rows];
      try (exfalso; exact (raise_inr _ _ _ _ Hn)).
    destruct (any_differs _ _); [exfalso; exact (raise_inr _ _ _ _ Hn)|].
    now apply ret_inr in Hn as [_ <-]. }
  unfold check_done in HMo.
  destruct (negb _); [destruct (prev_chain_q _)|]; run_inv; auto.
Qed.

(** The values that [initialise] fixes for the loop. *)
Lemma initialise_setup w cfg st0 w0 :
  initialise data model modelParams DRAMParams_ w = (inr (cfg, st0), w0) ->
  cfg_N cfg = length (xdata data) /\
  cfg_p cfg = length (values modelParams) /\
  cfg_Mo cfg = numDRAMIterationsDone DRAMParams_ /\
  cfg_M cfg = numDRAMIterations DRAMParams_ /\
  cfg_prior cfg
    = initPrior (length (xdata data)) (prior (previousResults DRAMParams_)) /\
  cfg_sp cfg
    = (lit 2.38 / np_sqrt (ofZ (Z.of_nat (length (values modelParams)))))%num.
Proof.
  unfold initialise. intros H.
  apply bind_inr in H as ([[N n] Mo] & w1 & Hv & H).
  apply validate_inr in Hv as (-> & -> & ->).
  repeat (apply bind_inr in H as (? & ? & _ & H)).
  apply ret_inr in H as [[= <- _] _]. simpl. repeat split.
Qed.

(** C3 (as the code has it).  The prior that a completed call returns: when
    [psi_s] is not supplied it is the [N x N] zero matrix with [nu_s = 0],
    whatever [nu_s] was supplied; when [psi_s] is supplied it is returned
    unchanged, with the supplied [nu_s] when there is one and [nu_s = 1]
    when there is none. *)
Theorem returned_prior w res w' :
  getDRAMMIMOChains data model modelParams DRAMParams_ w = (inr res, w') ->
  let given := prior (previousResults DRAMParams_) in
  let N := length (xdata data) in
  res_prior res = initPrior N given /\
  (psi_s_in given = None ->
     psi_s (res_prior res) = zeros N N /\ nu_s (res_prior res) = zero) /\
  (forall psi, psi_s_in given = Some psi ->
     psi_s (res_prior res) = psi /\
     (forall nu, nu_s_in given = Some nu -> nu_s (res_prior res) = nu) /\
     (nu_s_in given = None -> nu_s (res_prior res) = one)).
Proof.
  intros H given N. unfold getDRAMMIMOChains in H.
  apply bind_inr in H as ([cfg st0] & w1 & Hinit & H).
  apply bind_inr in H as (st & w2 & _ & H).
  apply bind_inr in H as (u & w3 & _ & H).
  apply ret_inr in H as [<- _]. simpl.
  apply initialise_setup in Hinit as (_ & _ & _ & _ & -> & _).
  fold given N. split; [reflexivity|]. unfold initPrior. split.
  - intros ->. auto.
  - intros psi ->. simpl. split; [reflexivity|]. split.
    + intros nu ->. reflexivity.
    + intros ->. reflexivity.
Qed.

End InitFacts.

(** ** The chain over the whole loop *)

Section LoopFacts.

Context {RNG : Type} {lib : Library RNG} {Extra : Type}.
Variable data : Data.
Variable model : Model Extra.
Variable modelParams : ModelParams Extra.
Variable DRAMParams_ : DRAMParams.

Implicit Types (w : World RNG) (st : RunState) (cfg : Setup).

Lemma init_chain_fresh {A} (M : Z) (blank first : A) prev w a w' :
  init_chain M 1 blank first prev w = (inr a, w') ->
  1 <= M /\ length a = Z.to_nat M /\ a !! 0%nat = Some first.
Proof.
  unfold init_chain. destruct (M <? 0) eqn:E1; [discriminate|].
  simpl. destruct (M =? 0) eqn:E2; [discriminate|].
  apply Z.ltb_ge in E1. apply Z.eqb_neq in E2.
  intros [= <- _]. rewrite length_insert, length_replicate.
  split; [lia|]. split; [reflexivity|].
  apply list_lookup_insert_eq. rewrite length_replicate. lia.
Qed.

Lemma init_chain_resume {A} (M Mo : Z) (blank first : A) c w a w' :
  Mo <> 1 -> Z.of_nat (length c) = Mo ->
  init_chain M Mo blank first (Some c) w = (inr a, w') ->
  Mo <= M /\ length a = Z.to_nat M /\
  forall i, (i < length c)%nat -> a !! i = c !! i.
Proof.
  intros Hne Hlen. unfold init_chain.
  destruct (M <? 0) eqn:E1; [discriminate|].
  apply Z.eqb_neq in Hne. rewrite Hne. simpl.
  unfold bind, ret, raise. destruct (Mo <=? M) eqn:E2; [|discriminate].
  apply Z.leb_le in E2. intros [= <- _].
  split; [assumption|]. split.
  - rewrite length_app, length_replicate. lia.
  - intros i Hi. now apply lookup_app_l.
Qed.

(** The chain at the start of the loop: [M] rows, the first of them the
    initial parameters on a fresh run, the first [Mo] of them the previous
    chain on a resumed run. *)
Lemma initialise_chain w cfg st0 w0 :
  initialise data model modelParams DRAMParams_ w = (inr (cfg, st0), w0) ->
  length (chain_q st0) = Z.to_nat (cfg_M cfg) /\
  0 <= cfg_Mo cfg <= cfg_M cfg /\
  (cfg_Mo cfg = 1 ->
     q st0 = values modelParams /\
     chain_q st0 !! 0%nat = Some (values modelParams)) /\
  (cfg_Mo cfg <> 1 ->
     exists c, prev_chain_q (previousResults DRAMParams_) = Some c /\
               Z.of_nat (length c) = cfg_Mo cfg /\
               forall i, (i < length c)%nat -> chain_q st0 !! i = c !! i).
Proof.
  unfold initialise. intros H.
  apply bind_inr in H as ([[N n] Mo] & w1 & Hv & H).
  assert (HMo : Mo = 1 \/
                (Mo <> 1 /\ exists c,
                   prev_chain_q (previousResults DRAMParams_) = Some c /\
                   Z.of_nat (length c) = Mo)).
  { unfold validate in Hv.
    apply bind_inr in Hv as (N' & w2 & _ & Hv).
    apply bind_inr in Hv as (n' & w3 & _ & Hv).
    apply bind_inr in Hv as (Mo' & w4 & HMo & Hv).
    apply ret_inr in Hv as [[= _ _ <-] _].
    unfold check_done in HMo.
    destruct (numDRAMIterationsDone DRAMParams_ =? 1) eqn:E1; simpl in HMo.
    - apply Z.eqb_eq in E1. apply ret_inr in HMo as [<- _]. auto.
    - apply Z.eqb_neq in E1.
      destruct (prev_chain_q _) as [c|];
        [|exfalso; exact (raise_inr _ _ _ _ HMo)].
      destruct (_ =? Z.of_nat (length c)) eqn:E2; simpl in HMo;
        [|exfalso; exact (raise_inr _ _ _ _ HMo)].
      apply Z.eqb_eq in E2. apply ret_inr in HMo as [<- _].
      right. split; [assumption|]. eauto. }
  cbv beta zeta iota delta [fst snd] in H.
  apply bind_inr in H as (q0 & w2 & Hq0 & H).
  do 7 (apply bind_inr in H as (? & ? & _ & H)).
  apply bind_inr in H as (cq & w3 & Hcq & H).
  apply bind_inr in H as (cce & w4 & _ & H).
  apply ret_inr in H as [[= <- <-] _]. simpl.
  destruct HMo as [->|(Hne & c & Hprev & Hlen)].
  - simpl in Hq0. apply ret_inr in Hq0 as [<- _].
    apply init_chain_fresh in Hcq as (HM & Hl & H0).
    split; [assumption|]. split; [lia|]. split; [auto|]. congruence.
  - rewrite Hprev in Hcq.
    apply (init_chain_resume _ _ _ _ _ _ _ _ Hne Hlen) in Hcq as (HM & Hl & Hrows).
    split; [assumption|]. split; [lia|]. split; [congruence|].
    intros _. eauto.
Qed.

(** The loop over the iterations [a, a+1, ..., a+len-1] keeps the rows
    outside this range and leaves in every row [k] of the range the guess
    with which iteration [k] ended. *)
Lemma loop_records_rows cfg (len : nat) :
  forall (a : Z) st0 w st w',
    forM (seqZ a (Z.of_nat len)) (iteration data model modelParams cfg) st0 w
    = (inr st, w') ->
    0 <= a ->
    length (chain_q st) = length (chain_q st0) /\
    (forall j : nat,
       Z.of_nat j < a \/ a + Z.of_nat len <= Z.of_nat j ->
       chain_q st !! j = chain_q st0 !! j) /\
    (forall k, a <= k < a + Z.of_nat len ->
       (Z.to_nat k < length (chain_q st0))%nat ->
       exists stk wk stk' wk',
         iteration data model modelParams cfg k stk wk = (inr stk', wk') /\
         chain_q st !! Z.to_nat k = Some (q stk')).
Proof.
  induction len as [|len IH]; intros a st0 w st w' H Ha.
  - simpl in H. apply ret_inr in H as [<- _].
    split; [reflexivity|]. split; [reflexivity|]. intros k Hk. lia.
  - rewrite seqZ_cons in H by lia. simpl in H.
    apply bind_inr in H as (st1 & w1 & Hit & H).
    replace (Z.pred (Z.of_nat (S len))) with (Z.of_nat len) in H by lia.
    apply IH in H as (Hlen & Hframe & Hrows); [|lia].
    pose proof (iteration_outcome _ _ _ _ _ _ _ _ _ Hit)
      as (w0 & dr & wd & _ & Hq & _ & Hc & _).
    assert (Hl1 : length (chain_q st1) = length (chain_q st0))
      by (rewrite Hc; apply length_insert).
    split; [congruence|]. split.
    + intros j Hj. rewrite Hframe by lia. rewrite Hc.
      apply list_lookup_insert_ne. lia.
    + intros k Hk Hin. destruct (Z.eq_dec k a) as [->|Hne].
      * exists st0, w, st1, w1. split; [assumption|].
        rewrite Hframe by lia. rewrite Hc, Hq.
        now apply list_lookup_insert_eq.
      * apply Hrows; [lia|congruence].
Qed.

(** The chain that a completed call returns: [M] rows; on a fresh run the
    first is the initial parameter vector, on a resumed run the first [Mo]
    are the previous chain; every later row [k] is the guess with which
    iteration [k] ended. *)
Lemma returned_chain w res w' :
  getDRAMMIMOChains data model modelParams DRAMParams_ w = (inr res, w') ->
  let Mo := numDRAMIterationsDone DRAMParams_ in
  let M := numDRAMIterations DRAMParams_ in
  length (res_chain_q res) = Z.to_nat M /\
  (Mo = 1 -> res_chain_q res !! 0%nat = Some (values modelParams)) /\
  (Mo <> 1 ->
     exists c, prev_chain_q (previousResults DRAMParams_) = Some c /\
               forall i, (i < length c)%nat -> res_chain_q res !! i = c !! i) /\
  (forall k, Mo <= k < M ->
     exists cfg stk wk stk' wk',
       iteration data model modelParams cfg k stk wk = (inr stk', wk') /\
       res_chain_q res !! Z.to_nat k = Some (q stk')).
Proof.
  intros H Mo M. unfold getDRAMMIMOChains in H.
  apply bind_inr in H as ([cfg st0] & w1 & Hinit & H).
  apply bind_inr in H as (st & w2 & Hloop & H).
  apply bind_inr in H as (u & w3 & _ & H).
  apply ret_inr in H as [<- _]. simpl in *.
  pose proof (initialise_setup _ _ _ _ _ _ _ _ Hinit)
    as (_ & _ & HMo & HM & _).
  apply initialise_chain in Hinit as (Hlen & Hrange & Hfresh & Hresume).
  rewrite HMo, HM in *. fold Mo M in Hlen, Hrange, Hfresh, Hresume, Hloop.
  replace (M - Mo) with (Z.of_nat (Z.to_nat (M - Mo))) in Hloop by lia.
  apply loop_records_rows in Hloop as (Hl & Hframe & Hrows); [|lia].
  split; [congruence|]. split; [|split].
  - intros E. rewrite Hframe by lia. now apply Hfresh.
  - intros E. destruct (Hresume E) as (c & Hc & Hlc & Hrows0).
    exists c. split; [assumption|]. intros i Hi.
    rewrite Hframe by lia. now apply Hrows0.
  - intros k Hk. destruct (Hrows k) as (stk & wk & stk' & wk' & ? & ?);
      [lia|lia|]. eauto 10.
Qed.

End LoopFacts.

(** ** The kernel width of the density estimator *)

Section SortFacts.

Let sorted_le (x y : num) : Prop := sort_le x y = true.

Lemma sort_le_total (x y : num) : sort_le x y = false -> sort_le y x = true.
Proof.
  unfold sort_le.
  destruct x as [a| | |], y as [b| | |]; simpl; try easy.
  intros H. apply Qle_bool_iff.
  destruct (Qlt_le_dec b a) as [Hlt|Hle]; [lra|].
  apply Qle_bool_iff in Hle. congruence.
Qed.

Lemma sort_insert_length (x : num) (l : vec) :
  length (sort_insert x l) = S (length l).
Proof.
  induction l as [|y l IH]; simpl; [reflexivity|].
  destruct (sort_le x y); simpl; auto.
Qed.

Lemma np_sort_length (v : vec) : length (np_sort v) = length v.
Proof.
  induction v as [|x v IH]; simpl; [reflexivity|].
  unfold np_sort in *. simpl. now rewrite sort_insert_length, IH.
Qed.

Lemma sort_insert_perm (x : num) (l : vec) : sort_insert x l ≡ₚ x :: l.
Proof.
  induction l as [|y l IH]; simpl; [reflexivity|].
  destruct (sort_le x y); [reflexivity|].
  rewrite IH. apply Permutation_swap.
Qed.

(** The sorted column holds the values of the column. *)
Lemma np_sort_perm (v : vec) : np_sort v ≡ₚ v.
Proof.
  induction v as [|x v IH]; simpl; [reflexivity|].
  unfold np_sort in *. simpl. now rewrite sort_insert_perm, IH.
Qed.

Lemma sort_insert_sorted (x : num) (l : vec) :
  Sorted sorted_le l -> Sorted sorted_le (sort_insert x l).
Proof.
  induction l as [|y l IH]; simpl; intros Hs.
  - repeat constructor.
  - destruct (sort_le x y) eqn:E.
    + constructor; [assumption|]. constructor. exact E.
    + apply Sorted_inv in Hs as [Hs Hhd]. constructor; [auto|].
      destruct l as [|z l]; simpl.
      * constructor. now apply sort_le_total.
      * destruct (sort_le x z); constructor.
        -- now apply sort_le_total.
        -- now apply HdRel_inv in Hhd.
Qed.

(** The sorted column ascends, every [nan] at its end. *)
Lemma np_sort_sorted (v : vec) : Sorted sorted_le (np_sort v).
Proof.
  induction v as [|x v IH]; [constructor|].
  unfold np_sort in *. simpl. now apply sort_insert_sorted.
Qed.

End SortFacts.

Section DensityFacts.

Context {RNG : Type} {lib : Library RNG}.
Implicit Types (w : World RNG) (v col : vec).

Lemma py_index_nonneg {A} (a : list A) (i : Z) :
  0 <= i -> py_index a i = a !! Z.to_nat i.
Proof.
  intros Hi. unfold py_index.
  destruct (i <? 0) eqn:E; [apply Z.ltb_lt in E; lia|reflexivity].
Qed.

Lemma order_statistic_Some v j a :
  order_statistic v j = Some a ->
  1 <= j /\ np_sort v !! Z.to_nat (j - 1) = Some a.
Proof.
  unfold order_statistic. destruct (1 <=? j) eqn:E; [|discriminate].
  apply Z.leb_le in E. auto.
Qed.

Lemma order_statistic_in_range v j :
  1 <= j <= Z.of_nat (length v) -> is_Some (order_statistic v j).
Proof.
  intros Hj. unfold order_statistic.
  destruct (1 <=? j) eqn:E; [|apply Z.leb_gt in E; lia].
  apply lookup_lt_is_Some_2. rewrite np_sort_length. lia.
Qed.

(** The quartile of the source is the interpolation at the rank it is
    given. *)
Lemma quartile_interpolated v (r r' : Q) x w :
  (r' == r)%Q ->
  interpolated_rank v r = Some x ->
  quartile (np_sort v) (Fin r') w = (inr x, w).
Proof.
  intros Hr. unfold interpolated_rank, quartile. simpl floor_int.
  rewrite (Qfloor_comp _ _ Hr). set (j := Qfloor r).
  destruct (order_statistic v j) as [a|] eqn:Ea; [|discriminate].
  destruct (order_statistic v (j + 1)) as [b|] eqn:Eb; [|discriminate].
  intros [= <-].
  apply order_statistic_Some in Ea as [Hj Ha].
  apply order_statistic_Some in Eb as [_ Hb].
  replace (j + 1 - 1) with j in Hb by lia.
  erewrite bind_step;
    [|unfold index; rewrite py_index_nonneg by lia; rewrite Ha; reflexivity].
  erewrite bind_step;
    [|unfold index; rewrite py_index_nonneg by lia; rewrite Hb; reflexivity].
  unfold ret. do 2 f_equal.
  assert (Hf : (Fin r' - ofZ j)%num = lit (r - inject_Z j)).
  { unfold sub, ofZ, neg, add, lit. apply fin_eq.
    rewrite Qred_correct, Hr. reflexivity. }
  now rewrite Hf.
Qed.

Lemma first_rank (n : Z) :
  (Qred (inject_Z (n + 1) / Qred 4.0) == (inject_Z n + 1) / 4)%Q.
Proof. rewrite !Qred_correct, inject_Z_plus. field. Qed.

Lemma third_rank (n : Z) :
  (Qred (Qred (inject_Z (n + 1) / Qred 4.0) * Qred 3.0)
   == 3 * (inject_Z n + 1) / 4)%Q.
Proof. rewrite !Qred_correct, inject_Z_plus. field. Qed.

Lemma interpolated_rank_defined v (r : Q) :
  1 <= Qfloor r -> Qfloor r + 1 <= Z.of_nat (length v) ->
  is_Some (interpolated_rank v r).
Proof.
  intros H1 H2. unfold interpolated_rank.
  destruct (order_statistic_in_range v (Qfloor r)) as [a ->]; [lia|].
  destruct (order_statistic_in_range v (Qfloor r + 1)) as [b ->]; [lia|].
  eauto.
Qed.

(** With four values or more both quartiles are defined. *)
Lemma interquartile_range_defined v :
  (4 <= length v)%nat ->
  exists c3 c1,
    interpolated_rank v (3 * (inject_Z (Z.of_nat (length v)) + 1) / 4) = Some c3 /\
    interpolated_rank v ((inject_Z (Z.of_nat (length v)) + 1) / 4) = Some c1 /\
    interquartile_range v = Some (c3 - c1)%num.
Proof.
  intros Hn. set (n := Z.of_nat (length v)). assert (4 <= n) by lia.
  assert (F3 : Qfloor (3 * (inject_Z n + 1) / 4) = (3 * (n + 1)) / 4).
  { rewrite Zdiv_Qdiv. apply Qfloor_comp.
    rewrite inject_Z_mult, inject_Z_plus. reflexivity. }
  assert (F1 : Qfloor ((inject_Z n + 1) / 4) = (n + 1) / 4).
  { rewrite Zdiv_Qdiv. apply Qfloor_comp. rewrite inject_Z_plus. reflexivity. }
  destruct (interpolated_rank_defined v (3 * (inject_Z n + 1) / 4))
    as [c3 E3].
  { rewrite F3. Z.to_euclidean_division_equations. lia. }
  { rewrite F3. fold n. Z.to_euclidean_division_equations. lia. }
  destruct (interpolated_rank_defined v ((inject_Z n + 1) / 4)) as [c1 E1].
  { rewrite F1. Z.to_euclidean_division_equations. lia. }
  { rewrite F1. fold n. Z.to_euclidean_division_equations. lia. }
  exists c3, c1. split; [exact E3|]. split; [exact E1|].
  unfold interquartile_range. fold n. now rewrite E3, E1.
Qed.

(** The kernel width of a column of four values or more is Silverman's
    rule on its standard deviation and its interquartile range. *)
Lemma column_bandwidth col w :
  (4 <= length col)%nat ->
  let n := Z.of_nat (length col) in
  exists iqr,
    interquartile_range col = Some iqr /\
    bandwidth n col w
    = (inr (silverman (np_std np_sqrt col) iqr
                      (np_power (ofZ n) (lit (-(1 # 5))))), w).
Proof.
  intros Hn n.
  destruct (interquartile_range_defined col Hn) as (c3 & c1 & E3 & E1 & Eiqr).
  exists (c3 - c1)%num. split; [exact Eiqr|].
  unfold bandwidth. fold n in E3, E1.
  erewrite bind_step;
    [|apply (quartile_interpolated col _ _ c1 w (first_rank n) E1)].
  erewrite bind_step;
    [|apply (quartile_interpolated col _ _ c3 w (third_rank n) E3)].
  unfold silverman.
  change (lit (-1.0) / lit 5.0)%num with (lit (- (1 # 5))).
  destruct (c3 - c1 <=? zero)%num; reflexivity.
Qed.

(** The columns of a chain whose rows have all [p] entries: there are [p]
    of them, each with one entry per row. *)
Lemma transpose_columns (rows : list vec) (p : nat) :
  rows <> [] -> Forall (fun r => length r = p) rows ->
  length (transpose rows) = p /\
  forall i c, transpose rows !! i = Some c -> length c = length rows.
Proof.
  induction rows as [|r rows IH]; [congruence|]. intros _ Hall.
  apply Forall_cons in Hall as [Hr Hall].
  destruct rows as [|r' rows].
  - simpl. split; [now rewrite map_length_eq|].
    intros i c. rewrite map_lookup.
    destruct (r !! i); [|discriminate]. now intros [= <-].
  - destruct IH as [Hl Hc]; [congruence|assumption|].
    change (transpose (r :: r' :: rows))
      with (zip_with cons r (transpose (r' :: rows))).
    split.
    + rewrite length_zip_with. lia.
    + intros i c Hi.
      apply lookup_zip_with_Some in Hi as (x & c' & -> & _ & Hc').
      apply Hc in Hc'. simpl in *. lia.
Qed.

(** [np.std] is the standard deviation normalised by the number of
    values. *)
Lemma np_std_over_n (sqrt : num -> num) (v : vec) :
  np_std sqrt v = std_over_n sqrt v.
Proof.
  unfold np_std, std_over_n, squared_deviations, mean.
  now rewrite map_length_eq.
Qed.

(** C7 (as the code has it).  For every parameter column [col] of a chain
    of [n >= 4] rows, the kernel width that the density estimator computes
    is Silverman's rule [1.06 min(sigma, IQR / 1.34) n^(-1/5)], with
    [sigma] the standard deviation of the column normalised by [n] (the
    root of the sum of the squared deviations from the column mean over
    [n], not over [n - 1]) and [IQR] the difference of the values
    interpolated linearly between the order statistics at the fractional
    ranks [3(n+1)/4] and [(n+1)/4]; when [IQR <= 0] it is
    [1.06 sigma n^(-1/5)]. *)
Theorem bandwidth_silverman (qChain : list vec) (p : nat) i col w :
  (4 <= length qChain)%nat -> Forall (fun r => length r = p) qChain ->
  transpose qChain !! i = Some col ->
  let n := Z.of_nat (length qChain) in
  let sigma := np_sqrt (squared_deviations col / ofZ n)%num in
  length col = length qChain /\
  sigma = std_over_n np_sqrt col /\
  exists iqr,
    interquartile_range col = Some iqr /\
    bandwidth n col w
    = (inr (silverman sigma iqr (np_power (ofZ n) (lit (-(1 # 5))))), w).
Proof.
  intros Hn Hall Hcol n sigma.
  destruct (transpose_columns qChain p) as [_ Hc];
    [destruct qChain; [simpl in Hn; lia|congruence]|assumption|].
  apply Hc in Hcol. split; [exact Hcol|].
  assert (Hs : sigma = std_over_n np_sqrt col).
  { unfold sigma, std_over_n, n. now rewrite Hcol. }
  split; [exact Hs|]. rewrite Hs, <- np_std_over_n.
  unfold n. rewrite <- Hcol. apply column_bandwidth. lia.
Qed.

End DensityFacts.

(** ** The samples of the interval propagator *)

Section IntervalFacts.

Context {RNG : Type} {lib : Library RNG} {Extra : Type}.
Variable data : Data.
Variable model : Model Extra.
Variable modelParams : ModelParams Extra.

Implicit Types (w : World RNG).


(** A draw of [0, 1) scaled by [m] and rounded down is an index of
    [0 .. m-1]. *)
Lemma floor_scale_range (u : num) (m : Z) :
  unit_interval u -> 0 < m -> 0 <= floor_int (u * ofZ m) < m.
Proof.
  intros [H0 H1] Hm. destruct u as [a| | |]; simpl in *; try easy.
  apply Qle_bool_iff in H0. apply Qltb_lt in H1.
  rewrite (Qfloor_comp _ _ (Qred_correct _)).
  assert (Hm' : (inject_Z 0 < inject_Z m)%Q) by (rewrite <- Zlt_Qlt; lia).
  change (inject_Z 0) with 0%Q in Hm'.
  split.
  - change 0 with (Qfloor 0). apply Qfloor_resp_le. nra.
  - rewrite Zlt_Qlt.
    apply Qle_lt_trans with (a * inject_Z m)%Q; [apply Qfloor_le|]. nra.
Qed.

Lemma at_inr {A} (a : list A) (i : Z) w x w' :
  at_ a i w = (inr x, w') -> py_index a i = Some x /\ w' = w.
Proof.
  unfold at_. destruct (py_index a i); [|discriminate].
  now intros [= -> ->].
Qed.

Lemma assign_row_inr (n : nat) (v : vec) w r w' :
  assign_row n v w = (inr r, w') ->
  w' = w /\ length r = n /\
  (r = v \/ exists x, v = [x] /\ r = replicate n x).
Proof.
  unfold assign_row. destruct (length v =? n)%nat eqn:E.
  - apply Nat.eqb_eq in E. intros [= <- <-]. auto.
  - unfold raise, ret. destruct v as [|x [|y v]]; try discriminate.
    intros [= <- <-]. rewrite length_replicate.
    split; [reflexivity|]. split; [reflexivity|]. right. eauto.
Qed.

(** The two rows that the loop over the data sets stores for data set [i]:
    the noisy row is the response row plus the one number
    [randError[i]]. *)
Lemma respond_inr n qi randError i x w yrow orow w' :
  respond model modelParams n qi randError i x w = (inr (yrow, orow), w') ->
  w' = w /\ length yrow = n /\ length orow = n /\
  exists e, randError !! i = Some e /\
            forall j y, yrow !! j = Some y -> orow !! j = Some (y + e)%num.
Proof.
  unfold respond. intros H.
  apply bind_inr in H as (f & w1 & Hf & H). apply at_inr in Hf as [_ ->].
  apply bind_inr in H as (ex & w2 & Hex & H). apply at_inr in Hex as [_ ->].
  apply bind_inr in H as (yr & w3 & Hy & H).
  apply assign_row_inr in Hy as (-> & Hly & Hy).
  apply bind_inr in H as (e & w4 & He & H). apply at_inr in He as [He ->].
  apply bind_inr in H as (orw & w5 & Ho & H).
  apply assign_row_inr in Ho as (-> & Hlo & Ho).
  apply ret_inr in H as [[= <- <-] <-].
  rewrite py_index_nonneg in He by lia. rewrite Nat2Z.id in He.
  split; [reflexivity|]. split; [assumption|]. split; [assumption|].
  exists e. split; [assumption|]. intros j y Hj.
  destruct Hy as [->|(x0 & Hx0 & ->)].
  - destruct Ho as [->|(x1 & Hx1 & ->)].
    + rewrite map_lookup, Hj. reflexivity.
    + rewrite <- Hly in *. destruct (f qi x ex) as [|a [|b v]];
        try discriminate.
      simpl in Hx1. injection Hx1 as <-.
      destruct j; simpl in *; [|discriminate]. congruence.
  - rewrite Hx0 in Ho. simpl in Ho.
    apply lookup_replicate in Hj as [-> Hj].
    destruct Ho as [->|(x1 & [= <-] & ->)].
    + simpl in Hlo. subst n. destruct j; [reflexivity|simpl in Hj; lia].
    + now apply lookup_replicate_2.
Qed.

Lemma mapM_pure_inr {A B} (f : A -> Run RNG B) (l : list A) w bs w' :
  (forall a w0 b w1, f a w0 = (inr b, w1) -> w1 = w0) ->
  mapM f l w = (inr bs, w') ->
  w' = w /\ length bs = length l /\
  forall i a b, l !! i = Some a -> bs !! i = Some b -> f a w = (inr b, w).
Proof.
  intros Hf. revert bs. induction l as [|a l IH]; simpl; intros bs H.
  - apply ret_inr in H as [<- <-]. repeat split. intros i a b; discriminate.
  - apply bind_inr in H as (b & w1 & Hb & H).
    pose proof (Hf _ _ _ _ Hb) as ->.
    apply bind_inr in H as (bs' & w2 & Hbs & H).
    apply ret_inr in H as [<- <-].
    destruct (IH _ Hbs) as (-> & Hlen & Hall).
    split; [reflexivity|]. split; [simpl; congruence|].
    intros [|i] a' b'; simpl.
    + intros [= <-] [= <-]. exact Hb.
    + apply Hall.
Qed.

(** C10.  For one selected index the loop draws one noise vector, from the
    multivariate normal distribution of mean zero (of dimension [N]) and of
    the covariance stored at that index of [chain_cov_err], and nothing else
    of the generator; the prediction row of data set [i] is its response row
    with the single number [randError[i]] added at every one of its [n]
    output locations. *)
Theorem one_noise_vector_per_sample N n chain chain_cov idx w s w' :
  sample_one data model modelParams N n chain chain_cov idx w = (inr s, w') ->
  exists cov,
    py_index chain_cov idx = Some cov /\
    multivariate_normal (replicate N zero) cov (rng w)
      = (inr (s_randError s), rng w') /\
    files w' = files w /\
    s_index s = idx /\
    length (s_ySave s) = length (xdata data) /\
    length (s_oSave s) = length (xdata data) /\
    forall i yrow orow,
      s_ySave s !! i = Some yrow -> s_oSave s !! i = Some orow ->
      length yrow = n /\ length orow = n /\
      exists e, s_randError s !! i = Some e /\
                forall j y, yrow !! j = Some y ->
                            orow !! j = Some (y + e)%num.
Proof.
  unfold sample_one. intros H.
  apply bind_inr in H as (qi & w1 & Hqi & H). apply at_inr in Hqi as [_ ->].
  apply bind_inr in H as (cov & w2 & Hcov & H).
  apply at_inr in Hcov as [Hcov ->].
  apply bind_inr in H as (r & w3 & Hr & H). apply draw_inr in Hr as [Hr Hfiles].
  apply bind_inr in H as (re & w4 & Hre & H). apply call_inr in Hre as [-> ->].
  apply bind_inr in H as (rows & w5 & Hrows & H).
  apply ret_inr in H as [<- <-]. simpl.
  apply mapM_pure_inr in Hrows as (-> & Hlen & Hall).
  2: { intros [i x] w0 [yr orw] w1 Hres.
       now apply respond_inr in Hres as [-> _]. }
  exists cov. split; [assumption|]. split; [assumption|].
  split; [assumption|]. split; [reflexivity|].
  rewrite length_imap in Hlen.
  split; [now rewrite map_length_eq|]. split; [now rewrite map_length_eq|].
  intros i yrow orow Hy Ho.
  rewrite map_lookup in Hy, Ho.
  destruct (rows !! i) as [[yr orw]|] eqn:Erow; [|discriminate].
  simpl in Hy, Ho. injection Hy as <-. injection Ho as <-.
  destruct (lookup_lt_is_Some_2 (imap pair (xdata data)) i) as [[i' x] Hix].
  { rewrite length_imap, <- Hlen. eapply lookup_lt_Some; eassumption. }
  pose proof (Hall _ _ _ Hix Erow) as Hres.
  apply list_lookup_imap_Some in Hix as (x' & _ & [= -> ->]).
  simpl in Hres. apply respond_inr in Hres as (_ & ? & ? & ?). auto.
Qed.

(** C8.  When [nSample] is the number [m] of chain rows the indices are
    [0, 1, ..., m-1] in this order and nothing is drawn.  Otherwise the
    indices are the [nSample] draws of [np.random.rand(nSample)], each scaled
    by [m] and rounded down, and with a chain that is not empty every one of
    them is a row index of the chain. *)
Theorem select_indices_spec
    (rand_n_spec : forall d g,
        length (fst (rand_n d g)) = d /\
        Forall unit_interval (fst (rand_n d g)))
    (m nSample : Z) w :
  (nSample = m ->
     select_indices m nSample w = (inr (seqZ 0 m), w) /\
     length (seqZ 0 m) = Z.to_nat m /\
     forall i : nat, Z.of_nat i < m -> seqZ 0 m !! i = Some (Z.of_nat i)) /\
  (nSample <> m -> 0 <= nSample ->
     exists us w',
       rand_n (Z.to_nat nSample) (rng w) = (us, rng w') /\
       files w' = files w /\
       select_indices m nSample w
         = (inr (map (fun u => floor_int (u * ofZ m)%num) us), w') /\
       length us = Z.to_nat nSample /\
       Forall unit_interval us /\
       (0 < m ->
        Forall (fun i => 0 <= i < m)
               (map (fun u => floor_int (u * ofZ m)%num) us))).
Proof.
  split.
  - intros ->. unfold select_indices. rewrite Z.eqb_refl.
    split; [reflexivity|]. split; [apply length_seqZ|].
    intros i Hi. now rewrite lookup_seqZ_lt.
  - intros Hne Hpos. unfold select_indices.
    apply Z.eqb_neq in Hne. rewrite Hne.
    destruct (nSample <? 0) eqn:E; [apply Z.ltb_lt in E; lia|].
    destruct (rand_n_spec (Z.to_nat nSample) (rng w)) as [Hlen Hall].
    destruct (rand_n (Z.to_nat nSample) (rng w)) as [us g'] eqn:Er.
    simpl in Hlen, Hall.
    exists us, {| rng := g'; files := files w |}.
    split; [reflexivity|]. split; [reflexivity|].
    split.
    { unfold bind, draw. rewrite Er. reflexivity. }
    split; [assumption|]. split; [assumption|].
    intros Hm. apply Forall_forall. intros i Hi.
    apply list_elem_of_In, in_map_iff in Hi as (u & <- & Hu).
    apply floor_scale_range; [|assumption].
    rewrite Forall_forall in Hall. apply Hall. now apply list_elem_of_In.
Qed.

End IntervalFacts.

(** ** The properties on the example *)

Section ExampleFacts.

Import Example.

Lemma example_uniform_unit (g : Z) : unit_interval (uniform g).
Proof.
  unfold unit_interval, uniform, fin, zero, one, leb, ltb.
  pose proof (Z.mod_pos_bound g 1000 ltac:(lia)) as [H0 H1].
  assert (Hq : (0 <= inject_Z (g mod 1000) / 1000 < 1)%Q).
  { rewrite Zle_Qle in H0. rewrite Zlt_Qlt in H1.
    change (inject_Z 0) with 0%Q in H0.
    change (inject_Z 1000) with 1000%Q in H1.
    split.
    - apply Qle_shift_div_l; lra.
    - apply Qlt_shift_div_r; lra. }
  split.
  - apply Qle_bool_iff. rewrite Qred_correct. apply Hq.
  - apply Qltb_lt. rewrite Qred_correct. apply Hq.
Qed.

Lemma example_rand_range (g : Z) : unit_interval (fst (rand g)).
Proof. apply example_uniform_unit. Qed.

Lemma example_rand_n_spec (d : nat) (g : Z) :
  length (fst (rand_n d g)) = d /\ Forall unit_interval (fst (rand_n d g)).
Proof.
  simpl. revert g. induction d as [|d IH]; intros g; simpl.
  - split; [reflexivity|constructor].
  - destruct (IH (next g)) as [Hl Hf]. split; [now rewrite Hl|].
    constructor; [apply example_uniform_unit|exact Hf].
Qed.

(** On the example with the lower limit 2 both candidates are out of the
    bounds. *)
Lemma out_of_bounds_candidate_rejected_witness :
  exists st' w',
    iteration data model (bounded 2) (fst (start 4)) 1 (snd (start 4)) world0
    = (inr st', w') /\
    exists w0 dr w1,
      delayedRejection data model (bounded 2) (fst (start 4)) (snd (start 4)) w0
      = (inr dr, w1) /\
      q st' = dr_q dr /\
      chain_q st' = <[1%nat := dr_q dr]> (chain_q (snd (start 4))).
Proof.
  destruct (iteration data model (bounded 2) (fst (start 4)) 1
              (snd (start 4)) world0) as [[e|st'] w'] eqn:E.
  - exfalso. vm_compute in E. discriminate E.
  - exists st', w'. split; [reflexivity|].
    destruct (out_of_bounds_candidate_rejected data model (bounded 2)
                example_rand_range _ _ _ _ _ _ E)
      as (w0 & dr & w1 & H1 & H2 & H3 & _).
    exists w0, dr, w1. auto.
Defined.

(** C1, as stated, fails for the first stage.  On the example with the
    lower limit 0.97 and the prior scale 3 I, the first iteration rejects
    both candidates; in the second iteration the first candidate is below
    the limit and is rejected, and the second candidate is accepted: after
    the iteration the guess and the recorded chain row are the second
    candidate, not the previous accepted state. *)
Lemma out_of_bounds_stage1_counterexample :
  initialise data model (bounded 0.97) (informed 4) world2
  = (inr (fst informed_start), snd informed_start) /\
  iteration data model (bounded 0.97) (fst (fst informed_start)) 1
            (snd (fst informed_start)) (snd informed_start)
  = (inr (fst informed_first), snd informed_first) /\
  exists dr w2 st2 w3,
    delayedRejection data model (bounded 0.97) (fst (fst informed_start))
                     (fst informed_first) (snd informed_first)
    = (inr dr, w2) /\
    violates_bounds (bounded 0.97) (q1 (dr_stage1 dr)) /\
    dr_decision dr = AcceptStage2 /\
    iteration data model (bounded 0.97) (fst (fst informed_start)) 2
              (fst informed_first) (snd informed_first)
    = (inr st2, w3) /\
    q st2 = dr_q dr /\
    q st2 <> q (fst informed_first) /\
    chain_q st2 !! 2%nat = Some (q st2) /\
    chain_q st2 !! 2%nat <> Some (q (fst informed_first)).
Proof.
  split; [vm_compute; reflexivity|]. split; [vm_compute; reflexivity|].
  destruct (delayedRejection data model (bounded 0.97)
              (fst (fst informed_start)) (fst informed_first)
              (snd informed_first)) as [[e|dr] w2] eqn:E;
    vm_compute in E; [discriminate E|].
  destruct (iteration data model (bounded 0.97) (fst (fst informed_start)) 2
              (fst informed_first) (snd informed_first))
    as [[e|st2] w3] eqn:E';
    vm_compute in E'; [discriminate E'|].
  exists dr, w2, st2, w3. injection E as <- <-. injection E' as <- <-.
  split; [reflexivity|]. split.
  { eexists 0%nat, _, _. split; [reflexivity|]. left.
    split; reflexivity. }
  split; [reflexivity|]. split; [reflexivity|]. split; [reflexivity|].
  split; [intros H; vm_compute in H; discriminate H|].
  split; [reflexivity|].
  intros H; vm_compute in H; discriminate H.
Qed.

Lemma iteration_records_one_row_witness :
  exists st' w',
    iteration data model modelParams (fst (start 4)) 1 (snd (start 4)) world0
    = (inr st', w') /\
    length (chain_q st') = length (chain_q (snd (start 4))) /\
    forall j, j <> 1%nat -> chain_q st' !! j = chain_q (snd (start 4)) !! j.
Proof.
  destruct (iteration data model modelParams (fst (start 4)) 1
              (snd (start 4)) world0) as [[e|st'] w'] eqn:E.
  - exfalso. vm_compute in E. discriminate E.
  - exists st', w'. split; [reflexivity|].
    destruct (iteration_records_one_row data model modelParams _ _ _ _ _ _ E)
      as (w0 & dr & w1 & _ & _ & H1 & H2 & _).
    auto.
Defined.

(** On the example with the lower limit 0.97 the first candidate is out of
    the bounds and the second stage runs. *)
Lemma stage2_divisor_nonzero_witness :
  exists dr w',
    delayedRejection data model (bounded 0.97) (fst (start 4)) (snd (start 4))
                     world0 = (inr dr, w') /\
    forall s2, dr_stage2 dr = Some s2 ->
      (alpha10 (dr_stage1 dr) <? one)%num = true /\
      (one - alpha10 (dr_stage1 dr) =? zero)%num = false.
Proof.
  destruct (delayedRejection data model (bounded 0.97) (fst (start 4))
              (snd (start 4)) world0) as [[e|dr] w'] eqn:E.
  - exfalso. vm_compute in E. discriminate E.
  - exists dr, w'. split; [reflexivity|].
    destruct (stage2_divisor_nonzero data model (bounded 0.97)
                example_rand_range _ _ _ _ _ E) as [_ H].
    intros s2 Hs2. destruct (H s2 Hs2) as (H1 & H2 & _). auto.
Defined.

(** Iteration 199 of a fresh run is past the first round and ends an
    adaptation interval. *)
Lemma running_statistics_update_witness :
  exists st' w',
    iteration data model modelParams (fst (start 200)) 199 (snd (start 200))
              world0 = (inr st', w') /\
    qBar st' = qBar_update 199 (qBar (snd (start 200))) (q st') /\
    qCov st' = qCov_update 199 (qCov (snd (start 200)))
                 (qBar (snd (start 200))) (qBar st') (q st').
Proof.
  destruct (iteration data model modelParams (fst (start 200)) 199
              (snd (start 200)) world0) as [[e|st'] w'] eqn:E.
  - exfalso. vm_compute in E. discriminate E.
  - exists st', w'. split; [reflexivity|].
    destruct (running_statistics_update data model modelParams _ _ _ _ _ _ E)
      as (_ & _ & Hge & _).
    destruct (Hge ltac:(unfold ko; lia)) as (H1 & H2 & _). auto.
Defined.

Lemma step_matrices_change_at_intervals_witness :
  exists st' w',
    iteration data model modelParams (fst (start 200)) 199 (snd (start 200))
              world0 = (inr st', w') /\
    cov_q st' = qCov st' /\ R2 st' = mdivs (R1 st') (lit 5.0).
Proof.
  destruct (iteration data model modelParams (fst (start 200)) 199
              (snd (start 200)) world0) as [[e|st'] w'] eqn:E.
  - exfalso. vm_compute in E. discriminate E.
  - exists st', w'. split; [reflexivity|].
    destruct (step_matrices_change_at_intervals data model modelParams
                _ _ _ _ _ _ E) as [_ Hyes].
    destruct (Hyes ltac:(unfold ko; lia) ltac:(reflexivity))
      as (H1 & _ & H2 & _).
    auto.
Defined.

(** The three failures of the validation, each with its [ValueError]. *)
Lemma invalid_arguments_fail_witness :
  (exists msg, getDRAMMIMOChains data short_model modelParams (fresh 4) world0
               = (inl (ValueError msg), world0)) /\
  (exists msg, getDRAMMIMOChains short_data model modelParams (fresh 4) world0
               = (inl (ValueError msg), world0)) /\
  (exists msg, getDRAMMIMOChains data model modelParams bad_resume world0
               = (inl (ValueError msg), world0)).
Proof.
  split; [|split].
  - destruct (invalid_arguments_fail data short_model modelParams (fresh 4)
                world0) as (e & He & _ & Hv).
    { left. unfold unequal_sets. simpl. lia. }
    destruct Hv as [msg ->]; [discriminate|]. eauto.
  - destruct (invalid_arguments_fail short_data model modelParams (fresh 4)
                world0) as (e & He & _ & Hv).
    { right. left. exists [lit 0; lit 0.5; lit 1], 1%nat, [lit 0; lit 0.5].
      split; [reflexivity|]. split; [left; reflexivity|simpl; lia]. }
    destruct Hv as [msg ->]; [discriminate|]. eauto.
  - destruct (invalid_arguments_fail data model modelParams bad_resume
                world0) as (e & He & _ & Hv).
    { right. right. split; [simpl; lia|].
      eexists. split; [reflexivity|simpl; lia]. }
    destruct Hv as [msg ->]; [discriminate|]. eauto.
Defined.

Lemma returned_prior_witness :
  exists res w',
    getDRAMMIMOChains data model modelParams (with_prior None None) world0
    = (inr res, w') /\
    res_prior res = {| psi_s := zeros 2 2; nu_s := zero |}.
Proof.
  destruct (getDRAMMIMOChains data model modelParams (with_prior None None)
              world0) as [[e|res] w'] eqn:E.
  - exfalso. vm_compute in E. discriminate E.
  - exists res, w'. split; [reflexivity|].
    destruct (returned_prior data model modelParams _ _ _ _ E) as [H _].
    exact H.
Defined.

(** C3, as stated, fails.  With [psi_s] supplied and [nu_s] not, the prior
    returned has [nu_s = 1], not 0; and with [nu_s] supplied and [psi_s] not,
    the prior returned has [nu_s = 0], not the supplied value. *)
Lemma prior_defaults_counterexample :
  (exists res,
     fst (getDRAMMIMOChains data model modelParams
            (with_prior (Some [[one; zero]; [zero; one]]) None) world0)
     = inr res /\
     nu_s (res_prior res) = one /\ nu_s (res_prior res) <> zero) /\
  (exists res,
     fst (getDRAMMIMOChains data model modelParams
            (with_prior None (Some (ofZ 5))) world0)
     = inr res /\
     nu_s (res_prior res) = zero /\ nu_s (res_prior res) <> ofZ 5).
Proof.
  split.
  - destruct (fst (getDRAMMIMOChains data model modelParams
              (with_prior (Some [[one; zero]; [zero; one]]) None) world0))
      as [e|res] eqn:E; vm_compute in E; [discriminate E|].
    exists res. split; [reflexivity|].
    injection E as <-. split; [reflexivity|discriminate].
  - destruct (fst (getDRAMMIMOChains data model modelParams
              (with_prior None (Some (ofZ 5))) world0))
      as [e|res] eqn:E; vm_compute in E; [discriminate E|].
    exists res. split; [reflexivity|].
    injection E as <-. split; [reflexivity|discriminate].
Qed.

Example interquartile_range_five :
  interquartile_range [lit 3; lit 1; lit 2; lit 5; lit 4] = Some (lit 3).
Proof. reflexivity. Qed.

Lemma bandwidth_silverman_witness :
  exists iqr,
    interquartile_range [lit 3; lit 1; lit 2; lit 5; lit 4] = Some iqr /\
    bandwidth 5 [lit 3; lit 1; lit 2; lit 5; lit 4] world0
    = (inr (silverman
              (np_sqrt (squared_deviations [lit 3; lit 1; lit 2; lit 5; lit 4]
                        / ofZ 5)%num) iqr
              (np_power (ofZ 5) (lit (-(1 # 5))))), world0).
Proof.
  apply (bandwidth_silverman five_rows 2 0 _ world0).
  - simpl. lia.
  - repeat constructor.
  - reflexivity.
Defined.

(** C7, as stated, fails for the standard deviation.  For the column 1, 2,
    3, 4 the sum of the squared deviations from the mean is 5: the code
    takes the root of 5/4, the sample standard deviation is the root of
    5/3.  Both are below [IQR / 1.34] with [IQR = 2.5], so that the width
    the code computes is Silverman's rule on the first and differs from
    Silverman's rule on the sample standard deviation. *)
Lemma sample_std_counterexample :
  transpose four_rows !! 0%nat = Some [lit 1; lit 2; lit 3; lit 4] /\
  interquartile_range [lit 1; lit 2; lit 3; lit 4] = Some (lit 2.5) /\
  squared_deviations [lit 1; lit 2; lit 3; lit 4] = lit 5 /\
  std_over_n np_sqrt [lit 1; lit 2; lit 3; lit 4] = np_sqrt (lit (5 # 4)) /\
  sample_std np_sqrt [lit 1; lit 2; lit 3; lit 4] = np_sqrt (lit (5 # 3)) /\
  bandwidth 4 [lit 1; lit 2; lit 3; lit 4] world0
  = (inr (silverman (std_over_n np_sqrt [lit 1; lit 2; lit 3; lit 4])
            (lit 2.5) (np_power (ofZ 4) (lit (-(1 # 5))))), world0) /\
  bandwidth 4 [lit 1; lit 2; lit 3; lit 4] world0
  <> (inr (silverman (sample_std np_sqrt [lit 1; lit 2; lit 3; lit 4])
             (lit 2.5) (np_power (ofZ 4) (lit (-(1 # 5))))), world0).
Proof.
  repeat split; try reflexivity.
  intros H. vm_compute in H. discriminate H.
Qed.

Lemma select_indices_spec_witness :
  select_indices 3 3 world0 = (inr [0; 1; 2], world0) /\
  exists us w',
    select_indices 3 5 world0
    = (inr (map (fun u => floor_int (u * ofZ 3)%num) us), w') /\
    Forall (fun i => 0 <= i < 3)
           (map (fun u => floor_int (u * ofZ 3)%num) us).
Proof.
  split.
  - destruct (select_indices_spec example_rand_n_spec 3 3 world0) as [H _].
    destruct (H eq_refl) as [H1 _]. exact H1.
  - destruct (select_indices_spec example_rand_n_spec 3 5 world0) as [_ H].
    destruct (H ltac:(lia) ltac:(lia)) as (us & w' & _ & _ & H1 & _ & _ & H2).
    exists us, w'. split; [exact H1|]. apply H2. lia.
Defined.

Lemma one_noise_vector_per_sample_witness :
  exists s w',
    sample_one data model modelParams 2 3 [[lit 1.0; lit 0.01]]
               [[[one; zero]; [zero; one]]] 0 world0 = (inr s, w') /\
    files w' = files world0 /\
    length (s_oSave s) = 2%nat.
Proof.
  destruct (sample_one data model modelParams 2 3 [[lit 1.0; lit 0.01]]
              [[[one; zero]; [zero; one]]] 0 world0) as [[e|s] w'] eqn:E.
  - exfalso. vm_compute in E. discriminate E.
  - exists s, w'. split; [reflexivity|].
    destruct (one_noise_vector_per_sample data model modelParams
                _ _ _ _ _ _ _ _ E) as (cov & _ & _ & H1 & _ & _ & H2 & _).
    auto.
Defined.

End ExampleFacts.

(** * Further properties of the code *)

(** ** Computations that do not touch the world *)

Section PureFacts.

Context {RNG : Type}.

Lemma pure_ret {A} (a : A) : pure_run (ret (RNG := RNG) a).
Proof. now exists (inr a). Qed.

Lemma pure_raise {A} (e : exn) : pure_run (raise (RNG := RNG) (A := A) e).
Proof. now exists (inl e). Qed.

Lemma pure_call {A} (r : exn + A) : pure_run (call (RNG := RNG) r).
Proof. destruct r; [apply pure_raise|apply pure_ret]. Qed.

Lemma pure_bind {A B} (m : Run RNG A) (k : A -> Run RNG B) :
  pure_run m -> (forall a, pure_run (k a)) -> pure_run (bind m k).
Proof.
  intros [[e|a] Hm] Hk.
  - exists (inl e). intros w. unfold bind. now rewrite Hm.
  - destruct (Hk a) as [r Hr]. exists r. intros w. unfold bind.
    now rewrite Hm, Hr.
Qed.

Lemma pure_mapM {A B} (f : A -> Run RNG B) (l : list A) :
  (forall a, pure_run (f a)) -> pure_run (mapM f l).
Proof.
  intros Hf. induction l as [|a l IH]; simpl.
  - apply pure_ret.
  - apply pure_bind; [apply Hf|]. intros b.
    apply pure_bind; [apply IH|]. intros bs. apply pure_ret.
Qed.

Lemma pure_run_world {A} (m : Run RNG A) w r w' :
  pure_run m -> m w = (r, w') -> w' = w /\ forall w0, m w0 = (r, w0).
Proof.
  intros [r0 Hm] H. rewrite Hm in H. injection H as <- <-.
  split; [reflexivity|exact Hm].
Qed.

Lemma pure_keeps_files {A} (m : Run RNG A) : pure_run m -> keeps_files m.
Proof.
  intros Hm w r w' H. now apply (pure_run_world _ _ _ _ Hm) in H as [-> _].
Qed.

Lemma draw_keeps_files {A} (f : RNG -> A * RNG) : keeps_files (draw f).
Proof. intros w r w' H. unfold draw in H. now injection H as _ <-. Qed.

Lemma bind_keeps_files {A B} (m : Run RNG A) (k : A -> Run RNG B) :
  keeps_files m -> (forall a, keeps_files (k a)) -> keeps_files (bind m k).
Proof.
  intros Hm Hk w r w' H. unfold bind in H.
  destruct (m w) as [[e|a] w1] eqn:E.
  - injection H as _ <-. exact (Hm _ _ _ E).
  - rewrite (Hk _ _ _ _ H). exact (Hm _ _ _ E).
Qed.

End PureFacts.

Ltac pure_step :=
  first [ apply pure_ret | apply pure_raise | apply pure_call
        | apply pure_bind; [|intros ?]
        | match goal with
          | |- pure_run (if ?b then _ else _) => destruct b
          | |- pure_run (match ?x with _ => _ end) => destruct x
          end ].

Section PureCode.

Context {RNG : Type} {lib : Library RNG} {Extra : Type}.
Variable data : Data.
Variable model : Model Extra.
Variable modelParams : ModelParams Extra.
Variable DRAMParams_ : DRAMParams.

Lemma pure_assign_col n v : pure_run (assign_col (RNG := RNG) n v).
Proof. unfold assign_col. repeat pure_step. Qed.

Lemma pure_residuals n c :
  pure_run (residuals (RNG := RNG) data model modelParams n c).
Proof.
  unfold residuals. apply pure_mapM. intros [[[f x] y] e].
  apply pure_assign_col.
Qed.

Lemma pure_invert dim a : pure_run (invert (RNG := RNG) dim a).
Proof. unfold invert. repeat pure_step. Qed.

Lemma pure_from_prev {A} e (o : option A) :
  pure_run (from_prev (RNG := RNG) e o).
Proof. unfold from_prev. repeat pure_step. Qed.

Lemma pure_last_row {A} (a : list A) : pure_run (last_row (RNG := RNG) a).
Proof. unfold last_row. repeat pure_step. Qed.

Lemma pure_init_chain {A} M Mo (blank first : A) prev :
  pure_run (init_chain (RNG := RNG) M Mo blank first prev).
Proof.
  unfold init_chain. repeat first [apply pure_from_prev | pure_step].
Qed.

Lemma pure_validate :
  pure_run (validate (RNG := RNG) data model modelParams DRAMParams_).
Proof.
  unfold validate, check_sets, check_points, check_done.
  repeat pure_step.
Qed.

Lemma pure_initialise :
  pure_run (initialise (RNG := RNG) data model modelParams DRAMParams_).
Proof.
  unfold initialise. apply pure_bind; [apply pure_validate|]. intros sizes.
  cbv beta zeta.
  repeat first [ apply pure_residuals | apply pure_invert
               | apply pure_from_prev | apply pure_last_row
               | apply pure_init_chain | pure_step ].
Qed.

End PureCode.

Section InitMore.

Context {RNG : Type} {lib : Library RNG} {Extra : Type}.
Variable data : Data.
Variable model : Model Extra.
Variable modelParams : ModelParams Extra.
Variable DRAMParams_ : DRAMParams.

Implicit Types (w : World RNG) (st : RunState) (cfg : Setup).

(** X1.  The initialization (lines 72-191) calls no random generator and
    writes no file: it has the same outcome, a state or an exception, in
    every world, and leaves the world as it is. *)
Theorem initialisation_uses_no_randomness :
  exists r, forall w,
    initialise data model modelParams DRAMParams_ w = (r, w).
Proof. apply pure_initialise. Qed.

(** X2.  A call that asks for fewer iterations in total than are already done
    raises before the loop: nothing is drawn and no file is written. *)
Theorem too_few_iterations_fail w :
  numDRAMIterations DRAMParams_ < numDRAMIterationsDone DRAMParams_ ->
  exists e,
    getDRAMMIMOChains data model modelParams DRAMParams_ w = (inl e, w).
Proof.
  intros Hlt.
  destruct (initialise data model modelParams DRAMParams_ w)
    as [[e|[cfg st0]] w1] eqn:E.
  - exists e.
    apply (pure_run_world _ _ _ _
             (pure_initialise data model modelParams DRAMParams_))
      in E as E'. destruct E' as [-> _].
    unfold getDRAMMIMOChains. now apply bind_inl.
  - exfalso.
    pose proof (initialise_setup _ _ _ _ _ _ _ _ E) as (_ & _ & HMo & HM & _).
    apply initialise_chain in E as (_ & Hrange & _). lia.
Qed.

Lemma In_numDataPoints (xs ys : list vec) (c : nat) :
  In c (concat (zip_with (fun x y => [length x; length y]) xs ys)) ->
  exists i x, (xs !! i = Some x \/ ys !! i = Some x) /\ c = length x.
Proof.
  revert ys. induction xs as [|x xs IH]; intros [|y ys]; simpl;
    try contradiction.
  intros [<-|[<-|H]].
  - exists 0%nat, x. auto.
  - exists 0%nat, y. auto.
  - destruct (IH _ H) as (i & z & Hz & ->). exists (S i), z. auto.
Qed.

(** X3.  Arguments that pass the three checks: the five lists have one length
    [N], every data vector has the length [n] of the first one, and either
    the run is fresh or the previous chain has as many rows as iterations
    are said to be done.  The validation then returns [N], [n] and the
    number of iterations done. *)
Theorem valid_arguments_pass w (x0 : vec) :
  ~ unequal_sets data model modelParams ->
  xdata data !! 0%nat = Some x0 ->
  ~ unequal_points data ->
  (numDRAMIterationsDone DRAMParams_ = 1 \/
   exists c, prev_chain_q (previousResults DRAMParams_) = Some c /\
             Z.of_nat (length c) = numDRAMIterationsDone DRAMParams_) ->
  validate data model modelParams DRAMParams_ w
  = (inr (length (xdata data), length x0,
          numDRAMIterationsDone DRAMParams_), w).
Proof.
  intros Hsets Hx0 Hpoints Hdone.
  assert (Hs : any_differs (numDataSets data model modelParams)
                 (hd 0%nat (numDataSets data model modelParams)) = false).
  { destruct (any_differs _ _) eqn:E; [|reflexivity].
    exfalso. apply Hsets. now apply check_sets_unequal. }
  assert (Hy : length (ydata data) = length (xdata data)).
  { apply (any_differs_false _ _ Hs). unfold numDataSets. simpl. auto. }
  unfold validate.
  assert (E1 : check_sets (RNG := RNG) data model modelParams w
               = (inr (length (xdata data)), w)).
  { unfold check_sets. rewrite Hs. reflexivity. }
  rewrite (bind_step _ _ _ _ _ E1).
  assert (E2 : check_points (RNG := RNG) data w = (inr (length x0), w)).
  { unfold check_points, numDataPoints.
    destruct (xdata data) as [|x xs] eqn:Ex; [discriminate|].
    injection Hx0 as ->.
    destruct (ydata data) as [|y ys] eqn:Ey; [discriminate|]. simpl.
    match goal with
    | |- context [any_differs ?a ?b] => destruct (any_differs a b) eqn:E
    end; [|reflexivity].
    exfalso. apply Hpoints.
    apply any_differs_true in E as (c & Hc & Hne).
    change (In c (concat (zip_with (fun x y => [length x; length y])
                            (x0 :: xs) (y :: ys)))) in Hc.
    apply In_numDataPoints in Hc as (i & z & Hz & ->).
    exists x0, i, z. rewrite Ex, Ey. auto. }
  rewrite (bind_step _ _ _ _ _ E2).
  assert (E3 : check_done (RNG := RNG) DRAMParams_ w
               = (inr (numDRAMIterationsDone DRAMParams_), w)).
  { unfold check_done.
    destruct (numDRAMIterationsDone DRAMParams_ =? 1) eqn:E; [reflexivity|].
    apply Z.eqb_neq in E. simpl.
    destruct Hdone as [?|(c & -> & Hc)]; [contradiction|].
    rewrite Hc, Z.eqb_refl. reflexivity. }
  rewrite (bind_step _ _ _ _ _ E3). reflexivity.
Qed.

End InitMore.

Section StageFacts.

Context {RNG : Type} {lib : Library RNG} {Extra : Type}.
Variable data : Data.
Variable model : Model Extra.
Variable modelParams : ModelParams Extra.

Implicit Types (w : World RNG) (st : RunState) (cfg : Setup).

Lemma residuals_indep n c w e w' :
  residuals data model modelParams n c w = (inr e, w') ->
  forall w0, residuals data model modelParams n c w0 = (inr e, w0).
Proof.
  intros H.
  now apply (pure_run_world _ _ _ _ (pure_residuals data model modelParams n c))
    in H as [_ H].
Qed.

(** A first-stage candidate either has acceptance probability 0, or is
    within the bounds with residuals that the model returned without a
    [nan]. *)
Lemma stage1_cases cfg st w s1 w1 :
  stage1 data model modelParams cfg st w = (inr s1, w1) ->
  alpha10 s1 = zero \/
  (out_of_bounds modelParams (q1 s1) = false /\
   any_isnan (err1 s1) = false /\
   forall w0, residuals data model modelParams (cfg_n cfg) (q1 s1) w0
              = (inr (err1 s1), w0)).
Proof.
  unfold stage1. intros H. apply bind_inr in H as (z & w2 & _ & H).
  destruct (out_of_bounds modelParams (propose (q st) (R1 st) z)) eqn:Eo.
  - apply ret_inr in H as [<- _]. left. apply pymin_one_zero.
  - apply bind_inr in H as (e1 & w3 & He & H).
    destruct (any_isnan e1) eqn:En.
    + apply ret_inr in H as [<- _]. left. apply pymin_one_zero.
    + apply ret_inr in H as [<- _]. right. simpl.
      split; [exact Eo|]. split; [exact En|].
      exact (residuals_indep _ _ _ _ _ He).
Qed.

Lemma stage2_cases cfg st s1 w s2 w2 :
  stage2 data model modelParams cfg st s1 w = (inr s2, w2) ->
  alpha210 s2 = zero \/
  (out_of_bounds modelParams (q2 s2) = false /\
   any_isnan (err2 s2) = false /\
   forall w0, residuals data model modelParams (cfg_n cfg) (q2 s2) w0
              = (inr (err2 s2), w0)).
Proof.
  unfold stage2. intros H. apply bind_inr in H as (z & w3 & _ & H).
  destruct (out_of_bounds modelParams (propose (q st) (R2 st) z)) eqn:Eo.
  - apply ret_inr in H as [<- _]. now left.
  - apply bind_inr in H as (e2 & w4 & He & H).
    destruct (any_isnan e2) eqn:En.
    + apply ret_inr in H as [<- _]. now left.
    + cbv zeta in H.
      match type of H with
      | (if ?b then _ else _) _ = _ => destruct b
      end; apply ret_inr in H as [<- _]; [now left|].
      right. simpl. split; [exact Eo|]. split; [exact En|].
      exact (residuals_indep _ _ _ _ _ He).
Qed.

Lemma accepted_sound
    (rand_range : forall g, unit_interval (fst (rand g)))
    cfg st w dr w' :
  delayedRejection data model modelParams cfg st w = (inr dr, w') ->
  dr_decision dr <> RejectBoth ->
  out_of_bounds modelParams (dr_q dr) = false /\
  any_isnan (dr_err dr) = false /\
  forall w0, residuals data model modelParams (cfg_n cfg) (dr_q dr) w0
             = (inr (dr_err dr), w0).
Proof.
  intros H Hacc.
  apply delayedRejection_inv in H
    as (w1 & u1 & w2 & Hs1 & Hu1 & [(Ha & _ & _ & -> & ->)|(_ & s2 & w3 & u2 & Hs2 & _ & Hu2 & [(Ha & _ & -> & ->)|(_ & Hd & _)])]).
  - apply (rand_unit rand_range) in Hu1.
    destruct (stage1_cases _ _ _ _ _ Hs1) as [Hz|Hok]; [|exact Hok].
    rewrite Hz, (unit_not_below_zero _ Hu1) in Ha. discriminate.
  - apply (rand_unit rand_range) in Hu2.
    destruct (stage2_cases _ _ _ _ _ _ Hs2) as [Hz|Hok]; [|exact Hok].
    rewrite Hz, (unit_not_below_zero _ Hu2) in Ha. discriminate.
  - contradiction.
Qed.

(** X4.  An accepted candidate, of either stage, lies within the limits, and the
    residuals stored with it are the ones the model returned for it, none
    of them [nan]: the infinite residuals of a candidate rejected
    beforehand never become the residuals of the chain. *)
Theorem accepted_candidate_sound
    (rand_range : forall g, unit_interval (fst (rand g)))
    cfg st w dr w' :
  delayedRejection data model modelParams cfg st w = (inr dr, w') ->
  dr_decision dr <> RejectBoth ->
  out_of_bounds modelParams (dr_q dr) = false /\
  any_isnan (dr_err dr) = false /\
  forall w0, residuals data model modelParams (cfg_n cfg) (dr_q dr) w0
             = (inr (dr_err dr), w0).
Proof. exact (accepted_sound rand_range cfg st w dr w'). Qed.

Lemma rejected_keeps cfg st w dr w' :
  delayedRejection data model modelParams cfg st w = (inr dr, w') ->
  dr_decision dr = RejectBoth -> dr_q dr = q st /\ dr_err dr = err st.
Proof.
  intros H Hrej.
  apply delayedRejection_inv in H
    as (w1 & u1 & w2 & _ & _ & [(_ & _ & Hd & _)|(_ & s2 & w3 & u2 & _ & _ & _ & [(_ & Hd & _)|(_ & _ & -> & ->)])]);
    [congruence|congruence|auto].
Qed.

(** The guess after an iteration is within the bounds when the guess
    before it was. *)
Lemma iteration_within_bounds
    (rand_range : forall g, unit_interval (fst (rand g)))
    cfg k st w st' w' :
  iteration data model modelParams cfg k st w = (inr st', w') ->
  out_of_bounds modelParams (q st) = false ->
  out_of_bounds modelParams (q st') = false.
Proof.
  intros H Hin.
  apply iteration_outcome in H as (w0 & dr & w1 & Hdr & -> & _).
  destruct (dr_decision dr) eqn:Ed.
  - apply (accepted_sound rand_range) in Hdr as [? _]; congruence.
  - apply (accepted_sound rand_range) in Hdr as [? _]; congruence.
  - apply rejected_keeps in Hdr as [-> _]; assumption.
Qed.

(** The stored residuals follow the guess through an iteration. *)
Lemma iteration_residuals
    (rand_range : forall g, unit_interval (fst (rand g)))
    cfg k st w st' w' :
  iteration data model modelParams cfg k st w = (inr st', w') ->
  (forall w0, residuals data model modelParams (cfg_n cfg) (q st) w0
              = (inr (err st), w0)) ->
  forall w0, residuals data model modelParams (cfg_n cfg) (q st') w0
             = (inr (err st'), w0).
Proof.
  intros H Hin.
  apply iteration_outcome in H as (w0 & dr & w1 & Hdr & -> & -> & _).
  destruct (dr_decision dr) eqn:Ed.
  - apply (accepted_sound rand_range) in Hdr as (_ & _ & ?); congruence.
  - apply (accepted_sound rand_range) in Hdr as (_ & _ & ?); congruence.
  - apply rejected_keeps in Hdr as [-> ->]; assumption.
Qed.

End StageFacts.

Section StateFacts.

Context {RNG : Type} {lib : Library RNG} {Extra : Type}.
Variable data : Data.
Variable model : Model Extra.
Variable modelParams : ModelParams Extra.
Variable DRAMParams_ : DRAMParams.

Implicit Types (w : World RNG) (st : RunState) (cfg : Setup).

Lemma invert_pure_inr dim a w r w' :
  invert (RNG := RNG) dim a w = (inr r, w') ->
  forall w0, invert dim a w0 = (inr r, w0).
Proof.
  intros H.
  now apply (pure_run_world _ _ _ _ (pure_invert dim a)) in H as [_ H].
Qed.

(** The state at the start of the loop. *)
Lemma initialise_state w cfg st0 w0 :
  initialise data model modelParams DRAMParams_ w = (inr (cfg, st0), w0) ->
  let prev := previousResults DRAMParams_ in
  let blank_q := replicate (cfg_p cfg) zero in
  let blank_c := zeros (cfg_N cfg) (cfg_N cfg) in
  (forall w1, residuals data model modelParams (cfg_n cfg) (q st0) w1
              = (inr (err st0), w1)) /\
  (forall w1, invert (cfg_p cfg) (cov_q st0) w1 = (inr (cov_q_inv st0), w1)) /\
  (forall w1, invert (cfg_N cfg) (cov_err st0) w1
              = (inr (cov_err_inv st0), w1)) /\
  (exists rw, la_cholesky (cov_q st0) = inr rw /\
              R1 st0 = mdivs rw (lit 1.0) /\ R2 st0 = mdivs rw (lit 5.0)) /\
  qCov st0 = cov_q st0 /\ last_cov_q st0 = cov_q st0 /\
  (cfg_Mo cfg = 1 ->
     q st0 = values modelParams /\
     cov_q st0 = fresh_cov_q (values modelParams) /\
     cov_err st0 = gram (err st0) /\
     qBar st0 = values modelParams /\
     chain_q st0
       = <[0%nat := values modelParams]>
           (replicate (Z.to_nat (cfg_M cfg)) blank_q) /\
     chain_cov_err st0
       = <[0%nat := cov_err st0]>
           (replicate (Z.to_nat (cfg_M cfg)) blank_c)) /\
  (cfg_Mo cfg <> 1 ->
     exists c lc cc,
       prev_chain_q prev = Some c /\ prev_last_cov_q prev = Some lc /\
       prev_chain_cov_err prev = Some cc /\
       last c = Some (q st0) /\ cov_q st0 = lc /\
       last cc = Some (cov_err st0) /\ qBar st0 = col_means c /\
       chain_q st0
         = c ++ replicate (Z.to_nat (cfg_M cfg - cfg_Mo cfg)) blank_q /\
       chain_cov_err st0
         = cc ++ replicate (Z.to_nat (cfg_M cfg - cfg_Mo cfg)) blank_c).
Proof.
  unfold initialise. intros H.
  apply bind_inr in H as ([[N n] Mo] & w1 & Hv & H).
  cbv beta zeta iota delta [fst snd] in H.
  apply bind_inr in H as (q0 & w2 & Hq0 & H).
  apply bind_inr in H as (e0 & w3 & He0 & H).
  apply bind_inr in H as (cq & w4 & Hcq & H).
  apply bind_inr in H as (cqi & w5 & Hcqi & H).
  apply bind_inr in H as (ce & w6 & Hce & H).
  apply bind_inr in H as (cei & w7 & Hcei & H).
  apply bind_inr in H as (qb & w8 & Hqb & H).
  apply bind_inr in H as (rw & w9 & Hrw & H).
  apply bind_inr in H as (chq & w10 & Hchq & H).
  apply bind_inr in H as (chc & w11 & Hchc & H).
  apply ret_inr in H as [[= <- <-] _]. simpl.
  apply call_inr in Hrw as [Hrw _].
  split; [exact (residuals_indep _ _ _ _ _ _ _ _ He0)|].
  split; [exact (invert_pure_inr _ _ _ _ _ Hcqi)|].
  split; [exact (invert_pure_inr _ _ _ _ _ Hcei)|].
  split; [eauto|]. split; [reflexivity|]. split; [reflexivity|].
  destruct (Mo =? 1) eqn:E.
  - apply Z.eqb_eq in E. split; [|intros; contradiction]. intros _.
    apply ret_inr in Hq0 as [<- _]. apply ret_inr in Hcq as [<- _].
    apply ret_inr in Hce as [<- _]. apply ret_inr in Hqb as [<- _].
    subst Mo. unfold init_chain in Hchq, Hchc.
    destruct (numDRAMIterations DRAMParams_ <? 0);
      [exfalso; exact (raise_inr _ _ _ _ Hchq)|].
    simpl in Hchq, Hchc.
    destruct (numDRAMIterations DRAMParams_ =? 0);
      [exfalso; exact (raise_inr _ _ _ _ Hchq)|].
    apply ret_inr in Hchq as [<- _]. apply ret_inr in Hchc as [<- _].
    repeat split.
  - apply Z.eqb_neq in E. split; [intros; contradiction|]. intros _.
    apply bind_inr in Hq0 as (c & w12 & Hc & Hq0).
    apply bind_inr in Hce as (cc & w13 & Hcc & Hce).
    apply bind_inr in Hqb as (c' & w14 & Hc' & Hqb).
    apply ret_inr in Hqb as [<- _].
    unfold from_prev in Hc, Hcc, Hc', Hcq.
    destruct (prev_chain_q (previousResults DRAMParams_)) as [c0|];
      [|exfalso; exact (raise_inr _ _ _ _ Hc)].
    destruct (prev_chain_cov_err (previousResults DRAMParams_)) as [cc0|];
      [|exfalso; exact (raise_inr _ _ _ _ Hcc)].
    destruct (prev_last_cov_q (previousResults DRAMParams_)) as [lc0|];
      [|exfalso; exact (raise_inr _ _ _ _ Hcq)].
    apply ret_inr in Hc as [<- _]. apply ret_inr in Hcc as [<- _].
    apply ret_inr in Hc' as [<- _]. apply ret_inr in Hcq as [<- _].
    unfold last_row in Hq0, Hce.
    destruct (last c0) as [r|] eqn:El;
      [|exfalso; exact (raise_inr _ _ _ _ Hq0)].
    destruct (last cc0) as [rc|] eqn:Elc;
      [|exfalso; exact (raise_inr _ _ _ _ Hce)].
    apply ret_inr in Hq0 as [<- _]. apply ret_inr in Hce as [<- _].
    unfold init_chain in Hchq, Hchc.
    destruct (numDRAMIterations DRAMParams_ <? 0);
      [exfalso; exact (raise_inr _ _ _ _ Hchq)|].
    apply Z.eqb_neq in E. rewrite E in Hchq, Hchc.
    unfold from_prev in Hchq, Hchc.
    rewrite (bind_step _ _ _ _ _ (eq_refl : ret c0 w9 = (inr c0, w9))) in Hchq.
    rewrite (bind_step _ _ _ _ _ (eq_refl : ret cc0 w10 = (inr cc0, w10))) in Hchc.
    destruct (Mo <=? numDRAMIterations DRAMParams_);
      [|exfalso; exact (raise_inr _ _ _ _ Hchq)].
    apply ret_inr in Hchq as [<- _]. apply ret_inr in Hchc as [<- _].
    exists c0, lc0, cc0. repeat split; assumption.
Qed.

End StateFacts.

Ltac files_step :=
  first [ apply draw_keeps_files
        | apply pure_keeps_files;
          first [ apply pure_ret | apply pure_raise | apply pure_call
                | apply pure_residuals | apply pure_invert ]
        | apply bind_keeps_files; [|intros ?]
        | match goal with
          | |- keeps_files (if ?b then _ else _) => destruct b
          end ].

Section IterationFacts.

Context {RNG : Type} {lib : Library RNG} {Extra : Type}.
Variable data : Data.
Variable model : Model Extra.
Variable modelParams : ModelParams Extra.
Variable DRAMParams_ : DRAMParams.

Implicit Types (w : World RNG) (st : RunState) (cfg : Setup).

Lemma fifth_of_unit (x : num) :
  (x / lit 1.0 / lit 5.0)%num = (x / lit 5.0)%num.
Proof.
  destruct x as [a| | |]; try reflexivity.
  change (fin (Qred (a / Qred 1.0) / Qred 5.0) = fin (a / Qred 5.0)).
  apply fin_eq. rewrite Qred_correct.
  change (Qred 1.0) with 1%Q. change (Qred 5.0) with 5%Q. field.
Qed.

Lemma mdivs_unit_fifth (a : mat) :
  mdivs (mdivs a (lit 1.0)) (lit 5.0) = mdivs a (lit 5.0).
Proof.
  unfold mdivs, vdivs. rewrite map_map. apply map_ext. intros r.
  rewrite map_map. apply map_ext. intros x. apply fifth_of_unit.
Qed.

Lemma pure_adapt cfg k st : pure_run (adapt (RNG := RNG) cfg k st).
Proof.
  unfold adapt. repeat first [apply pure_invert | pure_step].
Qed.

Lemma keeps_files_stage1 cfg st :
  keeps_files (stage1 data model modelParams cfg st).
Proof. unfold stage1. repeat files_step. Qed.

Lemma keeps_files_stage2 cfg st s1 :
  keeps_files (stage2 data model modelParams cfg st s1).
Proof. unfold stage2. repeat files_step. Qed.

Lemma keeps_files_delayedRejection cfg st :
  keeps_files (delayedRejection data model modelParams cfg st).
Proof.
  unfold delayedRejection.
  repeat first [apply keeps_files_stage1 | apply keeps_files_stage2
               | files_step].
Qed.

Lemma keeps_files_record_and_redraw cfg k st dr :
  keeps_files (record_and_redraw (RNG := RNG) cfg k st dr).
Proof. unfold record_and_redraw. repeat files_step. Qed.

(** The redraw of [cov_err] at the end of an iteration. *)
Lemma record_and_redraw_draw cfg k st dr w st1 w1 :
  record_and_redraw cfg k st dr w = (inr st1, w1) ->
  invwishart_rvs
    (nu_s (cfg_prior cfg) + ofZ (Z.of_nat (cfg_n cfg)))%num
    (madd (psi_s (cfg_prior cfg)) (gram (dr_err dr))) (rng w)
  = (inr (cov_err st1), rng w1) /\
  forall w0, invert (cfg_N cfg) (cov_err st1) w0
             = (inr (cov_err_inv st1), w0).
Proof.
  unfold record_and_redraw. intros H.
  apply bind_inr in H as (r & w2 & Hr & H).
  apply bind_inr in H as (ce & w3 & Hce & H).
  apply bind_inr in H as (cei & w4 & Hcei & H).
  apply ret_inr in H as [<- <-]. simpl.
  apply draw_inr in Hr as [Hr _]. apply call_inr in Hce as [-> <-].
  pose proof (invert_world _ _ _ _ _ Hcei) as ->.
  split; [exact Hr|]. exact (invert_pure_inr _ _ _ _ _ Hcei).
Qed.

(** The files after an iteration: the chains saved at its start when
    [k] is a multiple of 1000, and nothing else. *)
Lemma iteration_files cfg k st w st' w' :
  iteration data model modelParams cfg k st w = (inr st', w') ->
  files w'
  = files w ++ (if k mod 1000 =? 0
                then [ChainsFile (Some k) (results cfg st)] else []).
Proof.
  unfold iteration. intros H.
  apply bind_inr in H as (u & w1 & Hs & H).
  apply bind_inr in H as (dr & w2 & Hdr & H).
  apply bind_inr in H as (st1 & w3 & Hrec & H).
  apply keeps_files_delayedRejection in Hdr.
  apply keeps_files_record_and_redraw in Hrec.
  apply (pure_keeps_files _ (pure_adapt _ _ _)) in H.
  rewrite H, Hrec, Hdr.
  destruct (k mod 1000 =? 0).
  - now apply savez_inr in Hs as [_ ->].
  - apply ret_inr in Hs as [_ <-]. now rewrite app_nil_r.
Qed.

(** X5.  At the end of an iteration the error covariance is drawn anew from
    the inverse-Wishart distribution with [nu_s + n] degrees of freedom and
    the scale [psi_s + err.T err] of the residuals of the guess just
    recorded; this draw is the last use of the generator in the iteration.
    The chain row [k] of [chain_cov_err] holds the covariance that the
    iteration used, not the new one, and [last_cov_q] the proposal
    covariance with which the iteration started. *)
Theorem error_covariance_redraw cfg k st w st' w' :
  iteration data model modelParams cfg k st w = (inr st', w') ->
  (exists g,
     invwishart_rvs
       (nu_s (cfg_prior cfg) + ofZ (Z.of_nat (cfg_n cfg)))%num
       (madd (psi_s (cfg_prior cfg)) (gram (err st'))) g
     = (inr (cov_err st'), rng w')) /\
  chain_cov_err st' = <[Z.to_nat k := cov_err st]> (chain_cov_err st) /\
  last_cov_q st' = cov_q st.
Proof.
  intros H.
  pose proof (iteration_outcome _ _ _ _ _ _ _ _ _ H)
    as (_ & _ & _ & _ & _ & _ & _ & Hl & Hc).
  apply iteration_inv in H as (w0 & dr & w1 & st1 & w2 & _ & _ & Hrec & Had).
  split; [|split; assumption].
  pose proof (record_and_redraw_inv _ _ _ _ _ _ _ Hrec) as (_ & He & _).
  apply record_and_redraw_draw in Hrec as [Hrec _].
  pose proof (adapt_frame _ _ _ _ _ _ Had) as (_ & He' & _ & _ & _ & Hce & _).
  apply (pure_run_world _ _ _ _ (pure_adapt _ _ _)) in Had as [-> _].
  exists (rng w1). rewrite He', Hce, He. exact Hrec.
Qed.

Lemma iteration_steps_fifth cfg k st w st' w' :
  iteration data model modelParams cfg k st w = (inr st', w') ->
  R2 st = mdivs (R1 st) (lit 5.0) ->
  R2 st' = mdivs (R1 st') (lit 5.0).
Proof.
  intros H Hin.
  apply iteration_inv in H
    as (w0 & dr & w1 & st1 & w2 & _ & _ & Hrec & Had).
  apply record_and_redraw_inv in Hrec
    as (_ & _ & _ & _ & _ & _ & _ & _ & _ & HR1 & HR2).
  apply adapt_steps in Had as [Hkeep Hnew].
  destruct (Z_le_dec ko k) as [Hk|Hk].
  - destruct (Z.eq_dec ((k + cfg_Mo cfg) mod ko) 0) as [Hm|Hm].
    + now destruct (Hnew Hk Hm) as (_ & _ & ? & _).
    + destruct Hkeep as (-> & -> & _); [tauto|]. congruence.
  - destruct Hkeep as (-> & -> & _); [tauto|]. congruence.
Qed.

Lemma iteration_inverses cfg k st w st' w' :
  iteration data model modelParams cfg k st w = (inr st', w') ->
  (forall w1, invert (cfg_p cfg) (cov_q st) w1
              = (inr (cov_q_inv st), w1)) ->
  (forall w1, invert (cfg_p cfg) (cov_q st') w1
              = (inr (cov_q_inv st'), w1)) /\
  (forall w1, invert (cfg_N cfg) (cov_err st') w1
              = (inr (cov_err_inv st'), w1)).
Proof.
  intros H Hin.
  apply iteration_inv in H
    as (w0 & dr & w2 & st1 & w3 & _ & _ & Hrec & Had).
  pose proof (record_and_redraw_inv _ _ _ _ _ _ _ Hrec)
    as (_ & _ & _ & _ & _ & Hcq & Hcqi & _).
  apply record_and_redraw_draw in Hrec as [_ Hce].
  pose proof (adapt_frame _ _ _ _ _ _ Had) as (_ & _ & _ & _ & _ & -> & ->).
  split; [|exact Hce].
  apply adapt_steps in Had as [Hkeep Hnew].
  destruct (Z_le_dec ko k) as [Hk|Hk].
  - destruct (Z.eq_dec ((k + cfg_Mo cfg) mod ko) 0) as [Hm|Hm].
    + destruct (Hnew Hk Hm) as (_ & _ & _ & Hi). exact Hi.
    + destruct Hkeep as (_ & _ & -> & ->); [tauto|].
      rewrite Hcq, Hcqi. exact Hin.
  - destruct Hkeep as (_ & _ & -> & ->); [tauto|].
    rewrite Hcq, Hcqi. exact Hin.
Qed.

End IterationFacts.

Section RunLevelFacts.

Context {RNG : Type} {lib : Library RNG} {Extra : Type}.
Variable data : Data.
Variable model : Model Extra.
Variable modelParams : ModelParams Extra.
Variable DRAMParams_ : DRAMParams.

Implicit Types (w : World RNG) (st : RunState) (cfg : Setup).

(** A property [I k] that holds before the first pass of a loop over
    [a, ..., a+len-1] and that every pass [k] carries to [I (k+1)] holds
    with [a+len] after the loop. *)
Lemma forM_seqZ_invariant {St} (body : Z -> St -> Run RNG St)
    (I : Z -> St -> Prop) (len : nat) :
  forall (a : Z) (s0 : St) w (s : St) w',
    forM (seqZ a (Z.of_nat len)) body s0 w = (inr s, w') ->
    (forall k s1 w1 s2 w2,
       a <= k < a + Z.of_nat len -> I k s1 ->
       body k s1 w1 = (inr s2, w2) -> I (k + 1) s2) ->
    I a s0 -> I (a + Z.of_nat len) s.
Proof.
  induction len as [|len IH]; intros a s0 w s w' H Hstep H0.
  - simpl in H. apply ret_inr in H as [<- _]. now rewrite Z.add_0_r.
  - rewrite seqZ_cons in H by lia. simpl in H.
    apply bind_inr in H as (s1 & w1 & Hit & H).
    replace (Z.pred (Z.of_nat (S len))) with (Z.of_nat len) in H by lia.
    replace (a + Z.of_nat (S len)) with (Z.succ a + Z.of_nat len) by lia.
    apply (IH _ _ _ _ _ H).
    + intros k s2 w2 s3 w3 Hk. apply Hstep. lia.
    + replace (Z.succ a) with (a + 1) by lia.
      apply (Hstep a s0 w s1 w1); [lia|assumption|assumption].
Qed.

(** X6.  In every state that the loop reaches from the initial one, the
    second-stage step matrix is one fifth of the first-stage one: the
    second candidate of an iteration is proposed five times closer to the
    current guess than the first. *)
Theorem second_stage_step_is_a_fifth w cfg st0 w0 a (len : nat) w1 st w' :
  initialise data model modelParams DRAMParams_ w = (inr (cfg, st0), w0) ->
  forM (seqZ a (Z.of_nat len)) (iteration data model modelParams cfg) st0 w1
  = (inr st, w') ->
  R2 st = mdivs (R1 st) (lit 5.0).
Proof.
  intros Hinit Hloop.
  apply (forM_seqZ_invariant _
           (fun _ s => R2 s = mdivs (R1 s) (lit 5.0)) _ _ _ _ _ _ Hloop).
  - intros k s1 wa s2 wb _ Hin Hit.
    exact (iteration_steps_fifth _ _ _ _ _ _ _ _ _ Hit Hin).
  - apply initialise_state in Hinit as (_ & _ & _ & (rw & _ & -> & ->) & _).
    symmetry. apply mdivs_unit_fifth.
Qed.

(** X7.  In every state that the loop reaches from the initial one the stored
    inverses are the inverses, as the code computes them, of the stored
    matrices: [cov_q_inv] of [cov_q] and [cov_err_inv] of [cov_err]. *)
Theorem inverses_follow_matrices w cfg st0 w0 a (len : nat) w1 st w' :
  initialise data model modelParams DRAMParams_ w = (inr (cfg, st0), w0) ->
  forM (seqZ a (Z.of_nat len)) (iteration data model modelParams cfg) st0 w1
  = (inr st, w') ->
  forall w2,
    invert (cfg_p cfg) (cov_q st) w2 = (inr (cov_q_inv st), w2) /\
    invert (cfg_N cfg) (cov_err st) w2 = (inr (cov_err_inv st), w2).
Proof.
  intros Hinit Hloop.
  apply (forM_seqZ_invariant _
           (fun _ s => forall w2,
              invert (cfg_p cfg) (cov_q s) w2 = (inr (cov_q_inv s), w2) /\
              invert (cfg_N cfg) (cov_err s) w2 = (inr (cov_err_inv s), w2))
           _ _ _ _ _ _ Hloop).
  - intros k s1 wa s2 wb _ Hin Hit w2.
    destruct (iteration_inverses _ _ _ _ _ _ _ _ _ Hit
                (fun w3 => proj1 (Hin w3))) as [Hq He].
    split; [apply Hq|apply He].
  - apply initialise_state in Hinit as (_ & Hq & He & _). auto.
Qed.

(** X8.  In every state that the loop reaches from the initial one the stored
    residuals [err] are the residuals of the model at the current guess
    [q]. *)
Theorem residuals_follow_guess
    (rand_range : forall g, unit_interval (fst (rand g)))
    w cfg st0 w0 a (len : nat) w1 st w' :
  initialise data model modelParams DRAMParams_ w = (inr (cfg, st0), w0) ->
  forM (seqZ a (Z.of_nat len)) (iteration data model modelParams cfg) st0 w1
  = (inr st, w') ->
  forall w2, residuals data model modelParams (cfg_n cfg) (q st) w2
             = (inr (err st), w2).
Proof.
  intros Hinit Hloop.
  apply (forM_seqZ_invariant _
           (fun _ s => forall w2,
              residuals data model modelParams (cfg_n cfg) (q s) w2
              = (inr (err s), w2)) _ _ _ _ _ _ Hloop).
  - intros k s1 wa s2 wb _ Hin Hit.
    exact (iteration_residuals _ _ _ rand_range _ _ _ _ _ _ Hit Hin).
  - now apply initialise_state in Hinit as (? & _).
Qed.

(** The files that the loop over [a, ..., a+len-1] writes: one for every
    multiple of 1000 among these iterations, in order. *)
Lemma loop_files cfg (len : nat) :
  forall (a : Z) st0 w st w',
    forM (seqZ a (Z.of_nat len)) (iteration data model modelParams cfg) st0 w
    = (inr st, w') ->
    exists fs,
      files w' = files w ++ fs /\
      Forall2 (fun f k => exists r, f = ChainsFile (Some k) r) fs
              (List.filter (fun k => k mod 1000 =? 0)
                           (seqZ a (Z.of_nat len))).
Proof.
  induction len as [|len IH]; intros a st0 w st w' H.
  - simpl in H. apply ret_inr in H as [_ <-]. exists [].
    rewrite app_nil_r. split; [reflexivity|constructor].
  - rewrite seqZ_cons in * by lia. simpl in H.
    apply bind_inr in H as (st1 & w1 & Hit & H).
    replace (Z.pred (Z.of_nat (S len))) with (Z.of_nat len) in * by lia.
    apply IH in H as (fs & Hfs & Hall).
    apply iteration_files in Hit. simpl.
    destruct (a mod 1000 =? 0).
    + exists (ChainsFile (Some a) (results cfg st0) :: fs). split.
      * rewrite Hfs, Hit, <- app_assoc. reflexivity.
      * constructor; [eauto|assumption].
    + exists fs. split; [|assumption].
      rewrite Hfs, Hit, app_nil_r. reflexivity.
Qed.

(** X9.  The files of a completed call: the chains saved at the start of every
    iteration that is a multiple of 1000, in order, then the file of the
    results, which holds exactly what the call returns; no other file. *)
Theorem saved_files_of_run w res w' :
  getDRAMMIMOChains data model modelParams DRAMParams_ w = (inr res, w') ->
  exists fs,
    files w' = files w ++ fs ++ [ChainsFile None res] /\
    Forall2 (fun f k => exists r, f = ChainsFile (Some k) r) fs
            (checkpoints (numDRAMIterationsDone DRAMParams_)
                         (numDRAMIterations DRAMParams_)).
Proof.
  intros H. unfold getDRAMMIMOChains in H.
  apply bind_inr in H as ([cfg st0] & w1 & Hinit & H).
  apply bind_inr in H as (st & w2 & Hloop & H).
  apply bind_inr in H as (u & w3 & Hsave & H).
  apply ret_inr in H as [<- <-]. simpl in *.
  pose proof (initialise_setup _ _ _ _ _ _ _ _ Hinit)
    as (_ & _ & HMo & HM & _).
  pose proof (initialise_chain _ _ _ _ _ _ _ _ Hinit) as (_ & Hrange & _).
  apply (pure_run_world _ _ _ _
           (pure_initialise data model modelParams DRAMParams_))
    in Hinit as [-> _].
  replace (cfg_M cfg - cfg_Mo cfg)
    with (Z.of_nat (Z.to_nat (cfg_M cfg - cfg_Mo cfg))) in Hloop by lia.
  apply loop_files in Hloop as (fs & Hfs & Hall).
  apply savez_inr in Hsave as [_ Hsave].
  exists fs. split.
  - rewrite Hsave, Hfs, <- app_assoc. reflexivity.
  - unfold checkpoints. rewrite <- HMo, <- HM.
    replace (cfg_M cfg - cfg_Mo cfg)
      with (Z.of_nat (Z.to_nat (cfg_M cfg - cfg_Mo cfg))) by lia.
    exact Hall.
Qed.

(** X10.  Every row of the chain that a completed call returns is within the
    limits, when the rows it started from are: the initial values on a
    fresh run, the previous chain on a resumed one. *)
Theorem chain_stays_within_bounds
    (rand_range : forall g, unit_interval (fst (rand g))) w res w' :
  getDRAMMIMOChains data model modelParams DRAMParams_ w = (inr res, w') ->
  (numDRAMIterationsDone DRAMParams_ = 1 ->
   out_of_bounds modelParams (values modelParams) = false) ->
  (forall c, numDRAMIterationsDone DRAMParams_ <> 1 ->
     prev_chain_q (previousResults DRAMParams_) = Some c ->
     Forall (fun r => length r = length (values modelParams) /\
                      out_of_bounds modelParams r = false) c) ->
  Forall (fun r => out_of_bounds modelParams r = false) (res_chain_q res).
Proof.
  intros H Hfresh Hresume. unfold getDRAMMIMOChains in H.
  apply bind_inr in H as ([cfg st0] & w1 & Hinit & H).
  apply bind_inr in H as (st & w2 & Hloop & H).
  apply bind_inr in H as (u & w3 & _ & H).
  apply ret_inr in H as [<- _]. simpl in *.
  pose proof (initialise_setup _ _ _ _ _ _ _ _ Hinit)
    as (_ & _ & HMo & HM & _).
  pose proof (initialise_chain _ _ _ _ _ _ _ _ Hinit)
    as (Hlen & Hrange & Hf & Hr).
  pose proof (initialise_state _ _ _ _ _ _ _ _ Hinit)
    as (_ & _ & _ & _ & _ & _ & _ & Hr').
  replace (cfg_M cfg - cfg_Mo cfg)
    with (Z.of_nat (Z.to_nat (cfg_M cfg - cfg_Mo cfg))) in Hloop by lia.
  apply (forM_seqZ_invariant _
           (fun k s =>
              out_of_bounds modelParams (q s) = false /\
              length (chain_q s) = Z.to_nat (cfg_M cfg) /\
              forall (j : nat) row,
                Z.of_nat j < k -> chain_q s !! j = Some row ->
                out_of_bounds modelParams row = false)) in Hloop.
  - destruct Hloop as (_ & Hl & Hrows).
    apply Forall_lookup. intros j row Hj. apply (Hrows j row); [|exact Hj].
    apply lookup_lt_Some in Hj. lia.
  - intros k s1 wa s2 wb Hk (Hq & Hl & Hrows) Hit.
    pose proof (iteration_within_bounds _ _ _ rand_range _ _ _ _ _ _ Hit Hq)
      as Hq'.
    apply iteration_outcome in Hit as (_ & dr & _ & _ & Hd & _ & Hc & _).
    split; [exact Hq'|]. split; [rewrite Hc, length_insert; exact Hl|].
    intros j row Hj Hrow. rewrite Hc in Hrow.
    apply list_lookup_insert_Some in Hrow as [(_ & <- & _)|(Hne & Hrow)].
    + now rewrite <- Hd.
    + apply (Hrows j row); [lia|exact Hrow].
  - rewrite HMo in *.
    destruct (Z.eq_dec (numDRAMIterationsDone DRAMParams_) 1) as [E|E].
    + destruct (Hf E) as [Hq H0]. split; [rewrite Hq; auto|].
      split; [exact Hlen|]. intros j row Hj Hrow.
      assert (j = 0%nat) as -> by lia. rewrite H0 in Hrow.
      injection Hrow as <-. auto.
    + destruct (Hr E) as (c & Hc & Hlc & Hrows).
      destruct (Hr' E) as (c' & lc & cc & Hc' & _ & _ & Hlast & _).
      rewrite Hc in Hc'. injection Hc' as <-.
      specialize (Hresume c E Hc).
      apply Forall_and in Hresume as [_ Hresume]. split.
      * apply last_Some_elem_of in Hlast.
        exact (proj1 (Forall_forall _ _) Hresume _ Hlast).
      * split; [exact Hlen|]. intros j row Hj Hrow.
        rewrite Hrows in Hrow by lia.
        exact (proj1 (Forall_lookup _ _) Hresume _ _ Hrow).
Qed.

(** X11.  A resumed run keeps what it resumed from: the first [Mo] rows of the
    two chains it returns are the previous chains, and both chains have
    [M] rows. *)
Theorem resume_keeps_previous_chains w res w' (c : list vec) (cc : list mat) :
  numDRAMIterationsDone DRAMParams_ <> 1 ->
  prev_chain_q (previousResults DRAMParams_) = Some c ->
  prev_chain_cov_err (previousResults DRAMParams_) = Some cc ->
  previous_chains_shaped (length (xdata data)) (length (values modelParams))
                         c cc ->
  getDRAMMIMOChains data model modelParams DRAMParams_ w = (inr res, w') ->
  take (length c) (res_chain_q res) = c /\
  take (length cc) (res_chain_cov_err res) = cc /\
  length (res_chain_q res) = Z.to_nat (numDRAMIterations DRAMParams_) /\
  length (res_chain_cov_err res) = Z.to_nat (numDRAMIterations DRAMParams_).
Proof.
  intros Hne Hc Hcc (_ & Hlcc & _) H. unfold getDRAMMIMOChains in H.
  apply bind_inr in H as ([cfg st0] & w1 & Hinit & H).
  apply bind_inr in H as (st & w2 & Hloop & H).
  apply bind_inr in H as (u & w3 & _ & H).
  apply ret_inr in H as [<- _]. simpl in *.
  pose proof (initialise_setup _ _ _ _ _ _ _ _ Hinit)
    as (_ & _ & HMo & HM & _).
  pose proof (initialise_chain _ _ _ _ _ _ _ _ Hinit)
    as (_ & Hrange & _ & Hr).
  pose proof (initialise_state _ _ _ _ _ _ _ _ Hinit)
    as (_ & _ & _ & _ & _ & _ & _ & Hr').
  rewrite HMo in *.
  destruct (Hr Hne) as (c0 & Hc0 & Hlc & _).
  rewrite Hc in Hc0. injection Hc0 as <-.
  destruct (Hr' Hne) as (c1 & lc & cc1 & Hc1 & _ & Hcc1 & _ & _ & _ & _
                         & Hchq & Hchc).
  rewrite Hc in Hc1. injection Hc1 as <-.
  rewrite Hcc in Hcc1. injection Hcc1 as <-.
  replace (cfg_M cfg - numDRAMIterationsDone DRAMParams_)
    with (Z.of_nat (Z.to_nat (cfg_M cfg - numDRAMIterationsDone DRAMParams_)))
    in Hloop by lia.
  apply (forM_seqZ_invariant _
           (fun k s =>
              length (chain_q s) = Z.to_nat (cfg_M cfg) /\
              length (chain_cov_err s) = Z.to_nat (cfg_M cfg) /\
              (forall j : nat, (j < length c)%nat ->
                 chain_q s !! j = c !! j) /\
              (forall j : nat, (j < length c)%nat ->
                 chain_cov_err s !! j = cc !! j))) in Hloop.
  - destruct Hloop as (Hl1 & Hl2 & Hp1 & Hp2). rewrite <- HM.
    split; [|split; [|split; assumption]].
    + apply list_eq. intros j.
      destruct (decide (j < length c)%nat) as [Hj|Hj].
      * rewrite lookup_take_lt by exact Hj. now apply Hp1.
      * rewrite lookup_take_ge by lia. symmetry.
        apply lookup_ge_None. lia.
    + apply list_eq. intros j.
      destruct (decide (j < length cc)%nat) as [Hj|Hj].
      * rewrite lookup_take_lt by exact Hj. apply Hp2. lia.
      * rewrite lookup_take_ge by lia. symmetry.
        apply lookup_ge_None. lia.
  - intros k s1 wa s2 wb Hk (Hl1 & Hl2 & Hp1 & Hp2) Hit.
    apply iteration_outcome in Hit as (_ & dr & _ & _ & _ & _ & Hq & _ & Hce).
    rewrite Hq, Hce, !length_insert.
    split; [exact Hl1|]. split; [exact Hl2|]. split.
    + intros j Hj. rewrite list_lookup_insert_ne by lia. now apply Hp1.
    + intros j Hj. rewrite list_lookup_insert_ne by lia. now apply Hp2.
  - rewrite Hchq, Hchc, !length_app, !length_replicate.
    split; [lia|]. split; [lia|]. split.
    + intros j Hj. now apply lookup_app_l.
    + intros j Hj. apply lookup_app_l. lia.
Qed.

(** X12.  A call with no iteration left to do ([M = Mo]) draws nothing and
    writes the one file of its results.  On a fresh run ([M = 1]) the
    chain is the row of the initial values and [last_cov_q] the initial
    proposal covariance; on a resumed run the call returns the previous
    chains and the previous [last_cov_q] unchanged. *)
Theorem no_iteration_left w res w' :
  numDRAMIterations DRAMParams_ = numDRAMIterationsDone DRAMParams_ ->
  getDRAMMIMOChains data model modelParams DRAMParams_ w = (inr res, w') ->
  rng w' = rng w /\
  files w' = files w ++ [ChainsFile None res] /\
  (numDRAMIterationsDone DRAMParams_ = 1 ->
     res_chain_q res = [values modelParams] /\
     res_last_cov_q res = fresh_cov_q (values modelParams) /\
     exists n e0,
       residuals data model modelParams n (values modelParams) w
       = (inr e0, w) /\
       res_chain_cov_err res = [gram e0]) /\
  (numDRAMIterationsDone DRAMParams_ <> 1 ->
     forall c cc,
       prev_chain_q (previousResults DRAMParams_) = Some c ->
       prev_chain_cov_err (previousResults DRAMParams_) = Some cc ->
       previous_chains_shaped (length (xdata data))
                              (length (values modelParams)) c cc ->
       res_chain_q res = c /\ res_chain_cov_err res = cc /\
       prev_last_cov_q (previousResults DRAMParams_)
       = Some (res_last_cov_q res)).
Proof.
  intros HMM H. unfold getDRAMMIMOChains in H.
  apply bind_inr in H as ([cfg st0] & w1 & Hinit & H).
  apply bind_inr in H as (st & w2 & Hloop & H).
  apply bind_inr in H as (u & w3 & Hsave & H).
  apply ret_inr in H as [<- <-]. simpl in *.
  pose proof (initialise_setup _ _ _ _ _ _ _ _ Hinit)
    as (_ & _ & HMo & HM & _).
  pose proof (initialise_state _ _ _ _ _ _ _ _ Hinit)
    as (He & _ & _ & _ & _ & Hlast & Hf & Hr).
  apply (pure_run_world _ _ _ _
           (pure_initialise data model modelParams DRAMParams_))
    in Hinit as [-> _].
  replace (cfg_M cfg - cfg_Mo cfg) with 0 in Hloop by lia.
  simpl in Hloop. apply ret_inr in Hloop as [<- <-].
  apply savez_inr in Hsave as [Hrng Hfiles].
  split; [exact Hrng|]. split; [exact Hfiles|].
  unfold results; simpl. rewrite HMo in *. split.
  - intros E. destruct (Hf E) as (Hq & Hcq & Hce & _ & Hchq & Hchc).
    rewrite HM, HMM, E in Hchq, Hchc. simpl in Hchq, Hchc.
    rewrite Hchq, Hlast, Hcq. split; [reflexivity|]. split; [reflexivity|].
    exists (cfg_n cfg), (err st0). rewrite <- Hq. split; [apply He|].
    rewrite Hchc, Hce. reflexivity.
  - intros E c0 cc0 Hc0 Hcc0 _.
    destruct (Hr E) as (c & lc & cc & Hc & Hlc & Hcc & _ & Hcq & _ & _
                        & Hchq & Hchc).
    replace (cfg_M cfg - numDRAMIterationsDone DRAMParams_) with 0
      in Hchq, Hchc by lia.
    simpl in Hchq, Hchc. rewrite app_nil_r in Hchq, Hchc.
    rewrite Hlast, Hcq, Hchq, Hchc. repeat split; congruence.
Qed.

End RunLevelFacts.

Section DensityMore.

Context {RNG : Type} {lib : Library RNG}.

Implicit Types (w : World RNG).

Lemma linspace_length (start stop : num) :
  length (linspace start stop) = Z.to_nat numNodes.
Proof.
  unfold linspace. rewrite length_insert, map_length_eq.
  destruct (_ =? _)%num; rewrite !map_length_eq, length_seqZ; reflexivity.
Qed.

(** A loop whose passes all return, each its own value in every world,
    returns the list of these values and leaves the world as it is. *)
Lemma mapM_returns {A B} (f : A -> Run RNG B) (P : A -> Prop)
    (Q : B -> Prop) (l : list A) :
  (forall a, P a -> exists b, Q b /\ forall w, f a w = (inr b, w)) ->
  Forall P l ->
  exists bs, length bs = length l /\ Forall Q bs /\
             forall w, mapM f l w = (inr bs, w).
Proof.
  intros Hf Hl. induction Hl as [|a l Ha Hl IH]; simpl.
  - exists []. repeat split. constructor.
  - destruct (Hf a Ha) as (b & Hb & Hfa). destruct IH as (bs & Hlen & Hq & Hbs).
    exists (b :: bs). split; [simpl; congruence|]. split; [now constructor|].
    intros w. rewrite (bind_step _ _ _ _ _ (Hfa w)).
    rewrite (bind_step _ _ _ _ _ (Hbs w)). reflexivity.
Qed.

Lemma column_density_returns (col : vec) :
  (4 <= length col)%nat ->
  exists r : vec * vec,
    (length (fst r) = Z.to_nat numNodes /\
     length (snd r) = Z.to_nat numNodes) /\
    forall w,
      column_density (Z.of_nat (length col)) col w = (inr r, w).
Proof.
  intros Hlen.
  destruct (interquartile_range_defined col Hlen) as (c3 & c1 & _ & _ & Hiqr).
  eexists (_, _). split; [|intros w; unfold column_density].
  2: { destruct (column_bandwidth col w Hlen) as (iqr & Hi & Hb).
       rewrite Hiqr in Hi. injection Hi as <-.
       rewrite (bind_step _ _ _ _ _ Hb). reflexivity. }
  simpl. rewrite map_length_eq, linspace_length. split; reflexivity.
Qed.

(** X13.  For a chain of at least four rows, all of [p] entries, the density
    estimation returns, uses no random number and writes the one file of
    what it returns: for every one of the [p] parameters the [numNodes]
    = 100 nodes and the 100 density values at them. *)
Theorem densities_of_chain (qChain : list vec) (p : nat) w :
  (4 <= length qChain)%nat -> Forall (fun r => length r = p) qChain ->
  exists qVals qProbs,
    getDRAMMIMODensities qChain w
    = (inr (qVals, qProbs),
       {| rng := rng w; files := files w ++ [DensitiesFile qVals qProbs] |}) /\
    length qVals = p /\ length qProbs = p /\
    Forall (fun c => length c = 100%nat) qVals /\
    Forall (fun c => length c = 100%nat) qProbs.
Proof.
  intros Hlen Hrows.
  assert (Hne : qChain <> []) by (destruct qChain; [simpl in Hlen; lia|easy]).
  destruct (transpose_columns qChain p Hne Hrows) as [Hp Hcols].
  destruct (mapM_returns
              (column_density (RNG := RNG) (Z.of_nat (length qChain)))
              (fun col => length col = length qChain)
              (fun r : vec * vec =>
                 length (fst r) = 100%nat /\ length (snd r) = 100%nat)
              (transpose qChain)) as (cols & Hl & Hq & Hrun).
  - intros col Hcol. rewrite <- Hcol.
    apply column_density_returns. lia.
  - apply Forall_lookup. exact Hcols.
  - exists (map fst cols), (map snd cols).
    unfold getDRAMMIMODensities. destruct qChain as [|r0 rows]; [easy|].
    rewrite (bind_step _ _ _ _ _ (Hrun w)). split; [reflexivity|].
    rewrite !map_length_eq. split; [congruence|]. split; [congruence|].
    split; apply List.Forall_forall; intros c Hc;
      apply in_map_iff in Hc as (r & <- & Hr);
      apply (proj1 (List.Forall_forall _ _) Hq) in Hr; tauto.
Qed.

Lemma mapM_head_fails {A B} (f : A -> Run RNG B) a (l : list A) w e w' :
  f a w = (inl e, w') -> mapM f (a :: l) w = (inl e, w').
Proof. intros H. simpl. now apply bind_inl. Qed.

Lemma bandwidth_short (col : vec) w :
  (1 <= length col <= 3)%nat ->
  bandwidth (Z.of_nat (length col)) col w = (inl IndexError, w).
Proof.
  intros Hlen. unfold bandwidth.
  generalize (np_sort_length col). generalize (np_sort col). intros s Hs.
  destruct col as [|a [|b [|c [|d col]]]]; simpl in Hlen; try lia;
    destruct s as [|x [|y [|z [|t s]]]]; try discriminate; reflexivity.
Qed.

(** X14.  A chain of one, two or three rows (of [p >= 1] entries) has no third
    quartile: the index [chainSorted[i3]] is out of range, the call raises
    [IndexError], and no file is written. *)
Theorem densities_of_short_chain_fail (qChain : list vec) (p : nat) w :
  (1 <= length qChain <= 3)%nat -> (1 <= p)%nat ->
  Forall (fun r => length r = p) qChain ->
  getDRAMMIMODensities qChain w = (inl IndexError, w).
Proof.
  intros Hlen Hp Hrows.
  assert (Hne : qChain <> []) by (destruct qChain; [simpl in Hlen; lia|easy]).
  destruct (transpose_columns qChain p Hne Hrows) as [Hlp Hcols].
  unfold getDRAMMIMODensities. destruct qChain as [|r0 rows]; [easy|].
  destruct (transpose (r0 :: rows)) as [|col cols] eqn:Et;
    [simpl in Hlp; lia|].
  specialize (Hcols 0%nat col eq_refl).
  apply bind_inl, mapM_head_fails. unfold column_density.
  apply bind_inl. rewrite <- Hcols. apply bandwidth_short. lia.
Qed.

End DensityMore.

Section IntervalMore.

Context {RNG : Type} {lib : Library RNG} {Extra : Type}.
Variable data : Data.
Variable model : Model Extra.
Variable modelParams : ModelParams Extra.

Implicit Types (w : World RNG).

(** The rows of one sample: one response row and one prediction row for
    every data set, each of [n] entries. *)
Lemma sample_one_shape N n chain chain_cov idx w s w' :
  sample_one data model modelParams N n chain chain_cov idx w = (inr s, w') ->
  files w' = files w /\
  length (s_ySave s) = length (xdata data) /\
  length (s_oSave s) = length (xdata data) /\
  Forall (fun r => length r = n) (s_ySave s) /\
  Forall (fun r => length r = n) (s_oSave s).
Proof.
  unfold sample_one. intros H.
  apply bind_inr in H as (qi & w1 & Hqi & H). apply at_inr in Hqi as [_ ->].
  apply bind_inr in H as (cov & w2 & Hcov & H).
  apply at_inr in Hcov as [_ ->].
  apply bind_inr in H as (r & w3 & Hr & H). apply draw_inr in Hr as [_ Hfiles].
  apply bind_inr in H as (re & w4 & Hre & H). apply call_inr in Hre as [-> ->].
  apply bind_inr in H as (rows & w5 & Hrows & H).
  apply ret_inr in H as [<- <-]. simpl.
  apply mapM_pure_inr in Hrows as (-> & Hlen & Hall).
  2: { intros [i x] w0 [yr orw] w1 Hres.
       now apply respond_inr in Hres as [-> _]. }
  rewrite length_imap in Hlen.
  split; [assumption|].
  split; [now rewrite map_length_eq|]. split; [now rewrite map_length_eq|].
  assert (Hboth : Forall (fun yo : vec * vec =>
                    length (fst yo) = n /\ length (snd yo) = n) rows).
  { apply Forall_lookup. intros i [yr orw] Erow.
    destruct (lookup_lt_is_Some_2 (imap pair (xdata data)) i) as [[i' x] Hix].
    { rewrite length_imap, <- Hlen. eapply lookup_lt_Some; eassumption. }
    pose proof (Hall _ _ _ Hix Erow) as Hres.
    apply respond_inr in Hres as (_ & ? & ? & _). auto. }
  split; apply List.Forall_forall; intros c Hc;
    apply in_map_iff in Hc as (yo & <- & Hyo);
    apply (proj1 (List.Forall_forall _ _) Hboth) in Hyo; tauto.
Qed.

Lemma mapM_Forall {A B} (f : A -> Run RNG B) (Q : B -> Prop) (l : list A) :
  (forall a w b w', f a w = (inr b, w') -> Q b /\ files w' = files w) ->
  forall w bs w',
    mapM f l w = (inr bs, w') ->
    length bs = length l /\ Forall Q bs /\ files w' = files w.
Proof.
  intros Hf. induction l as [|a l IH]; simpl; intros w bs w' H.
  - apply ret_inr in H as [<- <-]. repeat split. constructor.
  - apply bind_inr in H as (b & w1 & Hb & H).
    apply bind_inr in H as (bs' & w2 & Hbs & H).
    apply ret_inr in H as [<- <-].
    apply Hf in Hb as [Hq Hf1]. apply IH in Hbs as (Hl & Hqs & Hf2).
    split; [simpl; congruence|]. split; [now constructor|]. congruence.
Qed.

Lemma limits_shape (nSample : Z) (saved : list vec) (n : nat) :
  saved <> [] -> Forall (fun r => length r = n) saved ->
  length (limits nSample saved) = 3%nat /\
  Forall (fun r => length r = n) (limits nSample saved).
Proof.
  intros Hne Hrows. unfold limits. split; [reflexivity|].
  destruct (transpose_columns saved n Hne Hrows) as [Hn _].
  apply List.Forall_forall. intros r Hr.
  apply in_map_iff in Hr as (l & <- & _).
  now rewrite !map_length_eq.
Qed.

(** X15.  The intervals that a completed call returns for [nSample >= 1]
    samples: for every one of the [N] data sets three rows (the limits
    0.025, 0.5 and 0.975), each with one entry for every one of the [n]
    data points of the first data set; the call writes the one file of
    what it returns. *)
Theorem intervals_shape (chain : list vec) (chain_cov : list mat)
    (nSample : Z) (x0 : vec) w credLims predLims w' :
  1 <= nSample ->
  xdata data !! 0%nat = Some x0 ->
  getDRAMMIMOIntervals data model modelParams chain chain_cov nSample w
  = (inr (credLims, predLims), w') ->
  files w' = files w ++ [IntervalsFile credLims predLims] /\
  length credLims = length (xdata data) /\
  length predLims = length (xdata data) /\
  Forall (fun l => length l = 3%nat /\
                   Forall (fun r => length r = length x0) l) credLims /\
  Forall (fun l => length l = 3%nat /\
                   Forall (fun r => length r = length x0) l) predLims.
Proof.
  intros Hn Hx0 H. unfold getDRAMMIMOIntervals in H.
  apply bind_inr in H as (x & w1 & Hx & H).
  apply at_inr in Hx as [Hx ->]. rewrite py_index_nonneg in Hx by lia.
  change (Z.to_nat 0) with 0%nat in Hx. rewrite Hx0 in Hx. injection Hx as <-.
  apply bind_inr in H as (iSample & w2 & Hsel & H).
  assert (Hf2 : files w2 = files w).
  { unfold select_indices in Hsel.
    destruct (nSample =? _); [now apply ret_inr in Hsel as [_ <-]|].
    destruct (nSample <? 0); [exfalso; exact (raise_inr _ _ _ _ Hsel)|].
    apply bind_inr in Hsel as (us & w3 & Hus & Hsel).
    apply draw_inr in Hus as [_ Hus]. now apply ret_inr in Hsel as [_ <-]. }
  apply bind_inr in H as (samples & w3 & Hs & H).
  apply bind_inr in H as (u & w4 & Hsave & H).
  apply ret_inr in H as [[= <- <-] <-].
  apply (mapM_Forall _
           (fun s => length (s_ySave s) = length (xdata data) /\
                     length (s_oSave s) = length (xdata data) /\
                     Forall (fun r => length r = length x0) (s_ySave s) /\
                     Forall (fun r => length r = length x0) (s_oSave s)))
    in Hs as (Hl & Hall & Hf3).
  2: { intros ii wa s wb Hii.
       apply bind_inr in Hii as (idx & wc & Hidx & Hii).
       apply at_inr in Hidx as [_ ->].
       apply sample_one_shape in Hii. tauto. }
  apply savez_inr in Hsave as [_ Hsave].
  split; [rewrite Hsave, Hf3, Hf2; reflexivity|].
  rewrite !map_length_eq, !length_seq.
  split; [reflexivity|]. split; [reflexivity|].
  assert (Hne : samples <> []).
  { intros ->. rewrite length_seqZ in Hl. simpl in Hl. lia. }
  split; apply List.Forall_forall; intros l Hin;
    apply in_map_iff in Hin as (i & <- & Hi); apply in_seq in Hi;
    apply limits_shape.
  1, 3: destruct samples; [contradiction|discriminate].
  all: apply List.Forall_forall; intros r Hr;
    apply in_map_iff in Hr as (s & <- & Hs);
    apply (proj1 (List.Forall_forall _ _) Hall) in Hs
      as (Hly & Hlo & Hy & Ho).
  - destruct (lookup_lt_is_Some_2 (s_ySave s) i) as [row Hrow]; [lia|].
    rewrite (nth_lookup_Some _ _ _ _ Hrow).
    exact (proj1 (Forall_lookup _ _) Hy _ _ Hrow).
  - destruct (lookup_lt_is_Some_2 (s_oSave s) i) as [row Hrow]; [lia|].
    rewrite (nth_lookup_Some _ _ _ _ Hrow).
    exact (proj1 (Forall_lookup _ _) Ho _ _ Hrow).
Qed.

(** X16.  Requests for samples that cannot be served.  A negative [nSample]
    (other than the chain length) raises [ValueError] before anything is
    drawn.  With an empty chain and [nSample >= 1] the indices are drawn,
    and the first access to the chain raises [IndexError]; no file is
    written. *)
Theorem intervals_bad_requests
    (rand_n_length : forall d g, length (fst (rand_n d g)) = d)
    (chain : list vec) (chain_cov : list mat) (nSample : Z) (x0 : vec) w :
  xdata data !! 0%nat = Some x0 ->
  (nSample < 0 -> nSample <> Z.of_nat (length chain) ->
     exists msg,
       getDRAMMIMOIntervals data model modelParams chain chain_cov nSample w
       = (inl (ValueError msg), w)) /\
  (1 <= nSample -> chain = [] ->
     getDRAMMIMOIntervals data model modelParams chain chain_cov nSample w
     = (inl IndexError,
        {| rng := snd (rand_n (Z.to_nat nSample) (rng w));
           files := files w |})).
Proof.
  intros Hx0.
  assert (Hat : at_ (RNG := RNG) (xdata data) 0 w = (inr x0, w)).
  { unfold at_. rewrite py_index_nonneg by lia.
    change (Z.to_nat 0) with 0%nat. now rewrite Hx0. }
  split.
  - intros Hneg Hne. eexists. unfold getDRAMMIMOIntervals.
    rewrite (bind_step _ _ _ _ _ Hat). apply bind_inl.
    unfold select_indices.
    apply Z.eqb_neq in Hne. rewrite Hne.
    apply Z.ltb_lt in Hneg. rewrite Hneg. reflexivity.
  - intros Hpos ->. unfold getDRAMMIMOIntervals.
    rewrite (bind_step _ _ _ _ _ Hat). simpl length.
    set (w1 := {| rng := snd (rand_n (Z.to_nat nSample) (rng w));
                  files := files w |}).
    set (us := fst (rand_n (Z.to_nat nSample) (rng w))).
    assert (Hsel : select_indices 0 nSample w
                   = (inr (map (fun u => floor_int (u * ofZ 0)%num) us), w1)).
    { unfold select_indices.
      rewrite (proj2 (Z.eqb_neq nSample 0)) by lia.
      rewrite (proj2 (Z.ltb_ge nSample 0)) by lia. reflexivity. }
    rewrite (bind_step _ _ _ _ _ Hsel). apply bind_inl.
    rewrite seqZ_cons by lia. apply mapM_head_fails.
    assert (Hlen : (0 < length us)%nat).
    { unfold us. rewrite rand_n_length. lia. }
    destruct us as [|u us']; [simpl in Hlen; lia|].
    unfold at_ at 1. rewrite py_index_nonneg by lia.
    simpl map. simpl lookup. cbv iota.
    rewrite (bind_step _ _ _ _ _ (eq_refl : ret _ w1 = (inr _, w1))).
    unfold sample_one. apply bind_inl. unfold at_, py_index. simpl.
    destruct (_ <? 0); [destruct (_ <=? _)|]; reflexivity.
Qed.

End IntervalMore.

Section FreshFacts.

Lemma fresh_variance (a : Q) :
  (ofbool (neqb (Fin a) zero) * (lit 0.05 * Fin a * (lit 0.05 * Fin a))
   + ofbool (Fin a =? zero) * one)%num
  = if Qeq_bool a 0 then one
    else (lit 0.05 * Fin a * (lit 0.05 * Fin a))%num.
Proof.
  unfold neqb. simpl eqb. destruct (Qeq_bool a 0); simpl.
  - apply (fin_eq _ 1). rewrite !Qred_correct. ring.
  - apply fin_eq. rewrite !Qred_correct. ring.
Qed.

(** X17.  The proposal covariance of a fresh run (line 120) is the diagonal
    matrix whose entry for a parameter of value [a] is [(0.05 a)^2], and 1
    when the value is 0; every other entry is 0. *)
Theorem fresh_cov_q_entries (c : vec) (i : nat) (a : Q) :
  c !! i = Some (Fin a) ->
  length (fresh_cov_q c) = length c /\
  exists row,
    fresh_cov_q c !! i = Some row /\ length row = length c /\
    row !! i = Some (if Qeq_bool a 0 then one
                     else (lit 0.05 * Fin a * (lit 0.05 * Fin a))%num) /\
    forall j, j <> i -> (j < length c)%nat -> row !! j = Some zero.
Proof.
  intros Hi. unfold fresh_cov_q, diag.
  rewrite length_imap, !map_length_eq. split; [reflexivity|].
  pose proof (lookup_lt_Some _ _ _ Hi) as Hlt.
  eexists. split.
  - apply list_lookup_imap_Some. eexists. split; [|reflexivity].
    rewrite map_lookup, Hi. reflexivity.
  - rewrite length_insert, length_replicate. split; [reflexivity|]. split.
    + rewrite list_lookup_insert_eq by (rewrite length_replicate; lia).
      f_equal. apply fresh_variance.
    + intros j Hne Hj. rewrite list_lookup_insert_ne by lia.
      now apply lookup_replicate_2.
Qed.

End FreshFacts.

(** ** Further properties on the example *)

Section MoreExampleFacts.

Import Example.

Lemma example_start :
  initialise data model modelParams (fresh 4) world0
  = (inr (fst (start 4), snd (start 4)), world0).
Proof. vm_compute. reflexivity. Qed.

Lemma too_few_iterations_fail_witness :
  exists e,
    getDRAMMIMOChains data model modelParams (fresh 0) world0
    = (inl e, world0).
Proof. apply too_few_iterations_fail. simpl. lia. Defined.

Lemma valid_arguments_pass_witness :
  validate data model modelParams (fresh 4) world0
  = (inr (2%nat, 3%nat, 1), world0).
Proof.
  apply (valid_arguments_pass data model modelParams (fresh 4) world0
           [lit 0; lit 0.5; lit 1]).
  - intros H. apply H. repeat split.
  - reflexivity.
  - intros (x0 & i & x & H0 & Hi & Hne). simpl in H0. injection H0 as <-.
    destruct i as [|[|i]]; simpl in Hi; destruct Hi as [Hi|Hi];
      try discriminate; injection Hi as <-; apply Hne; reflexivity.
  - left. reflexivity.
Defined.

Lemma accepted_candidate_sound_witness :
  exists dr w',
    delayedRejection data model (bounded 0.97) (fst (fst informed_start))
                     (fst informed_first) (snd informed_first)
    = (inr dr, w') /\
    dr_decision dr = AcceptStage2 /\
    out_of_bounds (bounded 0.97) (dr_q dr) = false /\
    any_isnan (dr_err dr) = false.
Proof.
  destruct (delayedRejection data model (bounded 0.97)
              (fst (fst informed_start)) (fst informed_first)
              (snd informed_first)) as [[e|dr] w'] eqn:E.
  - exfalso. vm_compute in E. discriminate E.
  - exists dr, w'. split; [reflexivity|].
    assert (Hd : dr_decision dr = AcceptStage2).
    { vm_compute in E. injection E as <- _. reflexivity. }
    split; [exact Hd|].
    destruct (accepted_candidate_sound data model (bounded 0.97)
                example_rand_range _ _ _ _ _ E) as (H1 & H2 & _);
      [rewrite Hd; discriminate|auto].
Defined.

Lemma error_covariance_redraw_witness :
  exists st' w',
    iteration data model modelParams (fst (start 4)) 1 (snd (start 4)) world0
    = (inr st', w') /\
    chain_cov_err st'
    = <[1%nat := cov_err (snd (start 4))]> (chain_cov_err (snd (start 4))) /\
    last_cov_q st' = cov_q (snd (start 4)).
Proof.
  destruct (iteration data model modelParams (fst (start 4)) 1
              (snd (start 4)) world0) as [[e|st'] w'] eqn:E.
  - exfalso. vm_compute in E. discriminate E.
  - exists st', w'. split; [reflexivity|].
    exact (proj2 (error_covariance_redraw data model modelParams
                    _ _ _ _ _ _ E)).
Defined.

Lemma second_stage_step_is_a_fifth_witness :
  exists st w',
    forM (seqZ 1 (Z.of_nat 2))
         (iteration data model modelParams (fst (start 4)))
         (snd (start 4)) world0 = (inr st, w') /\
    R2 st = mdivs (R1 st) (lit 5.0).
Proof.
  destruct (forM (seqZ 1 (Z.of_nat 2))
              (iteration data model modelParams (fst (start 4)))
              (snd (start 4)) world0) as [[e|st] w'] eqn:E.
  - exfalso. vm_compute in E. discriminate E.
  - exists st, w'. split; [reflexivity|].
    exact (second_stage_step_is_a_fifth data model modelParams (fresh 4)
             _ _ _ _ _ _ _ _ _ example_start E).
Defined.

Lemma inverses_follow_matrices_witness :
  exists st w',
    forM (seqZ 1 (Z.of_nat 2))
         (iteration data model modelParams (fst (start 4)))
         (snd (start 4)) world0 = (inr st, w') /\
    invert 2 (cov_err st) world0 = (inr (cov_err_inv st), world0).
Proof.
  destruct (forM (seqZ 1 (Z.of_nat 2))
              (iteration data model modelParams (fst (start 4)))
              (snd (start 4)) world0) as [[e|st] w'] eqn:E.
  - exfalso. vm_compute in E. discriminate E.
  - exists st, w'. split; [reflexivity|].
    exact (proj2 (inverses_follow_matrices data model modelParams (fresh 4)
                    _ _ _ _ _ _ _ _ _ example_start E world0)).
Defined.

Lemma residuals_follow_guess_witness :
  exists st w',
    forM (seqZ 1 (Z.of_nat 2))
         (iteration data model modelParams (fst (start 4)))
         (snd (start 4)) world0 = (inr st, w') /\
    residuals data model modelParams 3 (q st) world0 = (inr (err st), world0).
Proof.
  destruct (forM (seqZ 1 (Z.of_nat 2))
              (iteration data model modelParams (fst (start 4)))
              (snd (start 4)) world0) as [[e|st] w'] eqn:E.
  - exfalso. vm_compute in E. discriminate E.
  - exists st, w'. split; [reflexivity|].
    exact (residuals_follow_guess data model modelParams (fresh 4)
             example_rand_range _ _ _ _ _ _ _ _ _ example_start E world0).
Defined.

Lemma saved_files_of_run_witness :
  exists res w',
    getDRAMMIMOChains data model modelParams (fresh 4) world0
    = (inr res, w') /\
    exists fs, files w' = files world0 ++ fs ++ [ChainsFile None res].
Proof.
  destruct (getDRAMMIMOChains data model modelParams (fresh 4) world0)
    as [[e|res] w'] eqn:E.
  - exfalso. vm_compute in E. discriminate E.
  - exists res, w'. split; [reflexivity|].
    destruct (saved_files_of_run data model modelParams _ _ _ _ E)
      as (fs & Hfs & _).
    exists fs. exact Hfs.
Defined.

Lemma chain_stays_within_bounds_witness :
  exists res w',
    getDRAMMIMOChains data model (bounded 0.97) (informed 4) world2
    = (inr res, w') /\
    Forall (fun r => out_of_bounds (bounded 0.97) r = false)
           (res_chain_q res).
Proof.
  destruct (getDRAMMIMOChains data model (bounded 0.97) (informed 4) world2)
    as [[e|res] w'] eqn:E.
  - exfalso. vm_compute in E. discriminate E.
  - exists res, w'. split; [reflexivity|].
    apply (chain_stays_within_bounds data model (bounded 0.97) (informed 4)
             example_rand_range _ _ _ E).
    + intros _. reflexivity.
    + intros c Hne. exfalso. apply Hne. reflexivity.
Defined.

Lemma resume_keeps_previous_chains_witness :
  exists res w',
    getDRAMMIMOChains data model modelParams (resumed 3) world0
    = (inr res, w') /\
    take 2 (res_chain_q res) = [[lit 1.0; lit 0.01]; [lit 0.9; lit 0.02]] /\
    length (res_chain_q res) = 3%nat.
Proof.
  destruct (getDRAMMIMOChains data model modelParams (resumed 3) world0)
    as [[e|res] w'] eqn:E.
  - exfalso. vm_compute in E. discriminate E.
  - exists res, w'. split; [reflexivity|].
    destruct (resume_keeps_previous_chains data model modelParams (resumed 3)
                world0 res w' _ _ ltac:(discriminate) eq_refl eq_refl)
      as (H1 & _ & H2 & _); [|exact E|auto].
    split; [|split]; repeat constructor.
Defined.

Lemma no_iteration_left_witness :
  exists res w',
    getDRAMMIMOChains data model modelParams (fresh 1) world0
    = (inr res, w') /\
    rng w' = rng world0 /\
    res_chain_q res = [values modelParams].
Proof.
  destruct (getDRAMMIMOChains data model modelParams (fresh 1) world0)
    as [[e|res] w'] eqn:E.
  - exfalso. vm_compute in E. discriminate E.
  - exists res, w'. split; [reflexivity|].
    destruct (no_iteration_left data model modelParams (fresh 1) _ _ _
                eq_refl E) as (H1 & _ & H2 & _).
    split; [exact H1|]. now destruct (H2 eq_refl).
Defined.

Lemma densities_of_chain_witness :
  exists qVals qProbs w',
    getDRAMMIMODensities five_rows world0 = (inr (qVals, qProbs), w') /\
    length qVals = 2%nat /\ length qProbs = 2%nat.
Proof.
  destruct (densities_of_chain five_rows 2 world0)
    as (qVals & qProbs & H & H1 & H2 & _).
  - simpl. lia.
  - repeat constructor.
  - exists qVals, qProbs. eauto.
Defined.

Lemma densities_of_short_chain_fail_witness :
  getDRAMMIMODensities [[lit 1; lit 2]; [lit 3; lit 4]] world0
  = (inl IndexError, world0).
Proof.
  apply (densities_of_short_chain_fail _ 2).
  - simpl. lia.
  - lia.
  - repeat constructor.
Defined.

Lemma intervals_shape_witness :
  exists credLims predLims w',
    getDRAMMIMOIntervals data model modelParams [[lit 1.0; lit 0.01]]
                         [[[one; zero]; [zero; one]]] 1 world0
    = (inr (credLims, predLims), w') /\
    length credLims = 2%nat /\ length predLims = 2%nat.
Proof.
  destruct (getDRAMMIMOIntervals data model modelParams [[lit 1.0; lit 0.01]]
              [[[one; zero]; [zero; one]]] 1 world0)
    as [[e|[credLims predLims]] w'] eqn:E.
  - exfalso. vm_compute in E. discriminate E.
  - exists credLims, predLims, w'. split; [reflexivity|].
    destruct (intervals_shape data model modelParams _ _ 1
                [lit 0; lit 0.5; lit 1] _ _ _ _ ltac:(lia) eq_refl E)
      as (_ & H1 & H2 & _).
    auto.
Defined.

Lemma intervals_bad_requests_witness :
  getDRAMMIMOIntervals data model modelParams [] [] 2 world0
  = (inl IndexError,
     {| rng := snd (rand_n (Z.to_nat 2) (rng world0));
        files := files world0 |}).
Proof.
  apply (intervals_bad_requests data model modelParams
           (fun d g => proj1 (example_rand_n_spec d g)) [] [] 2
           [lit 0; lit 0.5; lit 1] world0 eq_refl).
  - lia.
  - reflexivity.
Defined.

Lemma fresh_cov_q_entries_witness :
  length (fresh_cov_q [lit 1.0; lit 0.01]) = 2%nat.
Proof.
  exact (proj1 (fresh_cov_q_entries [lit 1.0; lit 0.01] 0 1 eq_refl)).
Defined.

End MoreExampleFacts.
